(** * energize.py: range resolution, time filtering, run grouping,
      trapezoidal energy totals, log-normal fitting and index intersection.

    The Python module works on pandas objects.  A Series or one-column
    DataFrame with a DatetimeIndex is embedded as the list of its rows, each
    row a pair of its index label and its value, in storage order.  Index
    labels of time series are nanoseconds since the Unix epoch, the integer
    pandas stores for a Timestamp. *)

From Stdlib Require Import ZArith List String Bool Lia.
From Stdlib Require Import Sorting.Permutation Sorting.Sorted.
From Stdlib Require Import Reals Lra.
Import ListNotations.

Open Scope Z_scope.

(** ** Python effects: printed lines and exceptions *)

Module Py.

Inductive exn : Type :=
| KeyError
| ValueError
| TypeError
| AttributeError
| IndexError
| ZeroDivisionError
| LinAlgError.

Inductive outcome (A : Type) : Type :=
| Ok (a : A)
| Raise (e : exn).
Arguments Ok {A} a.
Arguments Raise {A} e.

(** A call prints lines on standard output and then returns or raises. *)
Definition M (A : Type) : Type := (list string * outcome A)%type.

Definition ret {A} (a : A) : M A := ([], Ok a).
Definition raise {A} (e : exn) : M A := ([], Raise e).
Definition print (line : string) : M unit := ([line], Ok tt).

Definition bind {A B} (m : M A) (k : A -> M B) : M B :=
  match m with
  | (out, Ok a) => let (out', r) := k a in (out ++ out', r)
  | (out, Raise e) => (out, Raise e)
  end.

Definition lift {A} (o : outcome A) : M A := ([], o).

Definition printed {A} (m : M A) : list string := fst m.
Definition result {A} (m : M A) : outcome A := snd m.

(** [list(map(f, xs))]: the calls happen left to right. *)
Fixpoint mapM {A B} (f : A -> M B) (xs : list A) : M (list B) :=
  match xs with
  | [] => ret []
  | x :: xs' =>
      bind (f x) (fun y => bind (mapM f xs') (fun ys => ret (y :: ys)))
  end.

End Py.

Import Py.

Notation "x <- m ;; k" := (bind m (fun x => k))
  (at level 61, m at next level, right associativity).
Notation "m ;;; k" := (bind m (fun _ => k))
  (at level 61, right associativity).

(** ** Sorting

    [sort_index] and [sort_values] are embedded as one insertion sort: an
    element goes in front of the first element it is strictly below, so
    elements that compare equal keep their order.  pandas sorts with
    quicksort by default and may order rows that compare equal differently;
    the theorems below state of a sorted frame that it is in order and which
    rows it holds, not how rows that compare equal are arranged. *)

Fixpoint insert_by {X} (ltb : X -> X -> bool) (x : X) (l : list X) : list X :=
  match l with
  | [] => [x]
  | y :: l' => if ltb x y then x :: y :: l' else y :: insert_by ltb x l'
  end.

Definition sort_by {X} (ltb : X -> X -> bool) (l : list X) : list X :=
  fold_left (fun acc x => insert_by ltb x acc) l [].

(** ** Time-indexed frames *)

Module Frame.

Abbreviation Timestamp := Z (only parsing).
Abbreviation row A := (Z * A)%type (only parsing).
Abbreviation t A := (list (Z * A)) (only parsing).

Definition index {A} (data : t A) : list Timestamp := map fst data.
Definition values {A} (data : t A) : list A := map snd data.

Definition mem (x : Z) (l : list Z) : bool := existsb (Z.eqb x) l.

(** [sort_index]: rows ordered by label; rows with equal labels keep
    their relative order. *)
Definition label_ltb {A} (r r' : row A) : bool := fst r <? fst r'.

Definition sort_index {A} (data : t A) : t A := sort_by label_ltb data.

(** [data[mask]] with a boolean mask computed from each row's label. *)
Definition select {A} (p : Timestamp -> bool) (data : t A) : t A :=
  filter (fun r => p (fst r)) data.

(** [data.drop(labels, errors='ignore')]: every row whose label is listed
    goes; a listed label that is absent is not an error. *)
Definition drop {A} (data : t A) (labels : list Timestamp) : t A :=
  select (fun ts => negb (mem ts labels)) data.

(** Calendar fields of a timestamp (proleptic Gregorian, no time zone). *)
Definition ns_per_day : Z := 86400000000000.

Definition days_since_epoch (ts : Timestamp) : Z := ts / ns_per_day.

(** [index.weekday]: Monday is 0, Sunday is 6; 1970-01-01 was a Thursday. *)
Definition weekday (ts : Timestamp) : Z := (days_since_epoch ts + 3) mod 7.

(** [index.month]: 1 is January, 12 is December. *)
Definition month (ts : Timestamp) : Z :=
  let z := days_since_epoch ts + 719468 in
  let doe := z mod 146097 in
  let yoe := (doe - doe / 1460 + doe / 36524 - doe / 146096) / 365 in
  let doy := doe - (365 * yoe + yoe / 4 - yoe / 100) in
  let mp := (5 * doy + 2) / 153 in
  if mp <? 10 then mp + 3 else mp - 9.

(** Time of day in microseconds, the unit [between_time] compares in. *)
Definition time_micros (ts : Timestamp) : Z := (ts mod ns_per_day) / 1000.

(** [data.between_time(start, end)]: both ends included; a window whose
    start is after its end wraps past midnight. *)
Definition between_time {A} (data : t A) (w : Z * Z) : t A :=
  let (start_micros, end_micros) := w in
  select (fun ts =>
            let m := time_micros ts in
            if start_micros <=? end_micros
            then (start_micros <=? m) && (m <=? end_micros)
            else (start_micros <=? m) || (m <=? end_micros)) data.

(** [index.is_monotonic_increasing]: no label is below the one before. *)
Fixpoint is_monotonic_increasing (ix : list Timestamp) : bool :=
  match ix with
  | a :: ix' =>
      match ix' with
      | b :: _ => (a <=? b) && is_monotonic_increasing ix'
      | [] => true
      end
  | [] => true
  end.

(** [data[mask]] with a boolean mask given row by row. *)
Fixpoint take {A} (mask : list bool) (data : t A) : t A :=
  match mask, data with
  | keep :: mask', r :: data' =>
      if keep then r :: take mask' data' else take mask' data'
  | _, _ => []
  end.

(** What a lookup hands back when it does not raise: rows of the data,
    or, for a label that names one row of a Series, that row's value. *)
Inductive Selected (A : Type) : Type :=
| Rows (df : list (Z * A))
| Value (v : A).
Arguments Rows {A} df.
Arguments Value {A} v.

Fixpoint somes {A} (objs : list (option A)) : list A :=
  match objs with
  | [] => []
  | Some a :: objs' => a :: somes objs'
  | None :: objs' => somes objs'
  end.

Fixpoint frames {A} (objs : list (Selected A)) : option (list (t A)) :=
  match objs with
  | [] => Some []
  | Rows df :: objs' =>
      match frames objs' with
      | Some dfs => Some (df :: dfs)
      | None => None
      end
  | Value _ :: _ => None
  end.

(** [pd.concat(objs)]: [None] entries are dropped; no entry at all, or
    only [None] entries, is a [ValueError]; an entry that is neither
    [None] nor a frame is a [TypeError]. *)
Definition concat {A} (objs : list (option (Selected A))) : M (t A) :=
  match somes objs with
  | [] => raise ValueError
  | kept =>
      match frames kept with
      | Some dfs => ret (List.concat dfs)
      | None => raise TypeError
      end
  end.

(** Access to an attribute of a frame ([between_time], [index], [drop])
    on a value that may be a frame, [None] or one value. *)
Definition attr {A} (v : option (Selected A)) : M (t A) :=
  match v with
  | Some (Rows df) => ret df
  | _ => raise AttributeError
  end.

End Frame.

(** ** Range tokens and the filter configuration *)

(** A label such as ['2016-08'] or ['2/9/17']: its text and the closed
    period of timestamps the text denotes once parsed. *)
Record Label : Type := mkLabel {
  label_text : string;
  period_start : Z;
  period_end : Z
}.

(** One end of a [(start, end)] tuple: a label or a datetime. *)
Inductive Bound : Type :=
| AtLabel (l : Label)
| AtTime (ts : Z).

Inductive RangeToken : Type :=
| TLabel (l : Label)
| TPair (start stop : option Bound).

Inductive DateRange : Type :=
| One (token : RangeToken)
| Many (tokens : list RangeToken).

(** The [times] keyword: one [(start, end)] pair or a list of pairs,
    each time of day in microseconds since midnight. *)
Inductive Times : Type :=
| Window (w : Z * Z)
| Windows (ws : list (Z * Z)).

(** [**kwds] of [time_filter]: a key that is absent is [None]. *)
Record Kwds : Type := mkKwds {
  include : option DateRange;
  times : option Times;
  daysofweek : option (list Z);
  months : option (list Z);
  blacklist : option DateRange
}.

Definition no_kwds : Kwds := mkKwds None None None None None.

Definition hhmm (h m : Z) : Z := (h * 60 + m) * 60000000.

(** What the source leaves to pandas.  Whether [data[label]] raises
    [KeyError], and whether it answers with one value instead of rows (a
    Series asked for a label as fine as its index), depends on the kind of
    object, on the resolution of its index and on the pandas version.  On
    an index that is not in increasing order a label slice is cut by
    position or by value, and one with a datetime bound can raise
    [KeyError].  These decisions are parameters of the development. *)
Record Pandas : Type := mkPandas {
  key_error : list Z -> Label -> bool;
  one_value : list Z -> Label -> bool;
  slice_error : list Z -> option Bound -> option Bound -> bool;
  slice_mask : list Z -> option Bound -> option Bound -> list bool
}.

Section RangeResolver.

Context {A : Type}.
Variable pd : Pandas.

Definition lower (b : option Bound) (ts : Z) : bool :=
  match b with
  | None => true
  | Some (AtLabel l) => period_start l <=? ts
  | Some (AtTime t0) => t0 <=? ts
  end.

Definition upper (b : option Bound) (ts : Z) : bool :=
  match b with
  | None => true
  | Some (AtLabel l) => ts <=? period_end l
  | Some (AtTime t0) => ts <=? t0
  end.

(** The rows whose label lies between two bounds, both ends included. *)
Definition rows_between (data : Frame.t A) (start stop : option Bound)
  : Frame.t A :=
  Frame.select (fun ts => lower start ts && upper stop ts) data.

Definition timed (b : option Bound) : bool :=
  match b with
  | Some (AtTime _) => true
  | _ => false
  end.

(** [data[slice(start, stop)]]: on an index in increasing order, the rows
    between the bounds.  Otherwise pandas decides which rows are cut out;
    a slice whose bounds are labels or absent does not raise. *)
Definition slice (data : Frame.t A) (start stop : option Bound)
  : outcome (Frame.t A) :=
  let ix := Frame.index data in
  if Frame.is_monotonic_increasing ix
  then Ok (rows_between data start stop)
  else if (timed start || timed stop) && slice_error pd ix start stop
       then Raise KeyError
       else Ok (Frame.take (slice_mask pd ix start stop) data).

(** [data[label]]: the rows inside the label's period, or the value of
    the row the label names; a label that names no row is a [KeyError]. *)
Definition getitem (data : Frame.t A) (l : Label)
  : outcome (Frame.Selected A) :=
  if key_error pd (Frame.index data) l
  then Raise KeyError
  else
    let period := rows_between data (Some (AtLabel l)) (Some (AtLabel l)) in
    if one_value pd (Frame.index data) l
    then match period with
         | r :: _ => Ok (Frame.Value (snd r))
         | [] => Raise KeyError
         end
    else Ok (Frame.Rows period).

Definition not_in_range (token : Label) : string :=
  ("[!] energize.py : range_token_df : " ++ label_text token ++ " not in range")%string.

Definition range_token_df (data : Frame.t A) (token : RangeToken)
  : M (option (Frame.Selected A)) :=
  match token with
  | TLabel l =>
      match getitem data l with
      | Ok sel => ret (Some sel)
      | Raise KeyError => print (not_in_range l) ;;; ret None
      | Raise e => raise e
      end
  | TPair start stop =>
      df <- lift (slice data start stop) ;;
      ret (Some (Frame.Rows df))
  end.

Definition data_in_range (data : Frame.t A) (d_range : DateRange)
  : M (option (Frame.Selected A)) :=
  match d_range with
  | Many tokens =>
      found <- mapM (range_token_df data) tokens ;;
      df <- Frame.concat found ;;
      ret (Some (Frame.Rows (Frame.sort_index df)))
  | One token => range_token_df data token
  end.

Definition time_filter (data : Frame.t A) (kwds : Kwds)
  : M (option (Frame.Selected A)) :=
  out <- match include kwds with
         | Some r => data_in_range data r
         | None => ret (Some (Frame.Rows data))
         end ;;
  out <- match times kwds with
         | Some (Windows []) => raise IndexError
         | Some (Windows ws) =>
             parts <- mapM (fun subrange =>
                              df <- Frame.attr out ;;
                              ret (Some (Frame.Rows (Frame.between_time df subrange))))
                           ws ;;
             df <- Frame.concat parts ;;
             ret (Some (Frame.Rows (Frame.sort_index df)))
         | Some (Window w) =>
             df <- Frame.attr out ;;
             ret (Some (Frame.Rows (Frame.between_time df w)))
         | None => ret out
         end ;;
  out <- match daysofweek kwds with
         | Some days =>
             df <- Frame.attr out ;;
             ret (Some (Frame.Rows
                          (Frame.select (fun ts => Frame.mem (Frame.weekday ts) days) df)))
         | None => ret out
         end ;;
  out <- match months kwds with
         | Some ms =>
             df <- Frame.attr out ;;
             ret (Some (Frame.Rows
                          (Frame.select (fun ts => Frame.mem (Frame.month ts) ms) df)))
         | None => ret out
         end ;;
  out <- match blacklist kwds with
         | Some r =>
             df <- Frame.attr out ;;
             excluded <- data_in_range data r ;;
             ex <- Frame.attr excluded ;;
             ret (Some (Frame.Rows (Frame.drop df (Frame.index ex))))
         | None => ret out
         end ;;
  ret out.

(** What a token adds to the union of a token list: its rows, or nothing
    when its lookup failed, raised, or gave one value. *)
Definition token_frame (data : Frame.t A) (token : RangeToken)
  : option (Frame.t A) :=
  match result (range_token_df data token) with
  | Ok (Some (Frame.Rows df)) => Some df
  | _ => None
  end.

Definition resolved (data : Frame.t A) (tokens : list RangeToken)
  : list (Frame.t A) :=
  Frame.somes (map (token_frame data) tokens).

(** A token's lookup answers with rows or with [None]: it does not raise
    and does not give one value. *)
Definition tame (data : Frame.t A) (token : RangeToken) : bool :=
  match result (range_token_df data token) with
  | Ok (Some (Frame.Rows _)) => true
  | Ok None => true
  | _ => false
  end.

End RangeResolver.

Definition with_blacklist (kwds : Kwds) (r : DateRange) : Kwds :=
  mkKwds (include kwds) (times kwds) (daysofweek kwds) (months kwds) (Some r).

(** Every row of [f] carries a label that occurs in [sel]. *)
Definition within {A} (sel f : Frame.t A) : Prop :=
  forall r, In r f -> In (fst r) (Frame.index sel).

(** A monotonic index raises [KeyError] for a label whose whole period lies
    before its first or after its last timestamp. *)
Definition outside_span (ix : list Z) (l : Label) : bool :=
  match ix with
  | [] => false
  | t0 :: _ =>
      let tn := last ix t0 in
      ((period_start l <? t0) && (period_end l <? t0))
      || ((tn <? period_start l) && (tn <? period_end l))
  end.

(** ** 64-bit counts and binary64 numbers *)

Module Int64.

Definition min : Z := - 2 ^ 63.
Definition max : Z := 2 ^ 63 - 1.

(** Two's complement wrap-around of a sum or a difference. *)
Definition wrap (z : Z) : Z := (z + 2 ^ 63) mod 2 ^ 64 - 2 ^ 63.

End Int64.

Module Float64.

(** A float64: the finite number [m * 2 ^ e], or an infinity or NaN. *)
Inductive t : Type :=
| Finite (m e : Z)
| NotFinite.

Definition of_Z (z : Z) : t := Finite z 0.

(** [m / 2 ^ s] rounded to the nearest integer, a tie to the even one. *)
Definition round_half_even (m s : Z) : Z :=
  let q := m / 2 ^ s in
  let r := m mod 2 ^ s in
  let half := 2 ^ (s - 1) in
  if r <? half then q
  else if half <? r then q + 1
  else if Z.even q then q else q + 1.

(** The float64 nearest to [m * 2 ^ e]: 53 significant bits, no bit below
    [2 ^ -1074], infinite from [2 ^ 1024] on. *)
Definition round (m e : Z) : t :=
  let s := Z.max (Z.log2 (Z.abs m) - 52) (- 1074 - e) in
  let m' := if 0 <? s then round_half_even m s else m in
  let e' := if 0 <? s then e + s else e in
  if m' =? 0 then Finite 0 0
  else if 1024 <=? Z.log2 (Z.abs m') + e' then NotFinite
  else Finite m' e'.

Definition add (x y : t) : t :=
  match x, y with
  | Finite m1 e1, Finite m2 e2 =>
      let e := Z.min e1 e2 in
      round (m1 * 2 ^ (e1 - e) + m2 * 2 ^ (e2 - e)) e
  | _, _ => NotFinite
  end.

Definition mul (x y : t) : t :=
  match x, y with
  | Finite m1 e1, Finite m2 e2 => round (m1 * m2) (e1 + e2)
  | _, _ => NotFinite
  end.

(** Division by [2.0]. *)
Definition half (x : t) : t :=
  match x with
  | Finite m e => round m (e - 1)
  | NotFinite => NotFinite
  end.

(** A 64-bit count read as a float64. *)
Definition of_int64 (z : Z) : t := round z 0.

(** A float64 cast to a 64-bit count: the fraction is dropped; a number
    that is not finite or does not fit gives the least count. *)
Definition to_int64 (x : t) : Z :=
  match x with
  | Finite m e =>
      let z := if 0 <=? e then m * 2 ^ e else Z.quot m (2 ^ (- e)) in
      if (Int64.min <? z) && (z <? 2 ^ 63) then z else Int64.min
  | NotFinite => Int64.min
  end.

End Float64.

(** ** Runs of readings and trapezoidal energy totals *)

Module Grouper.

(** A [Timedelta] is a count of nanoseconds held in 64 bits; the least
    count stands for NaT. *)
Abbreviation Timedelta := Z (only parsing).
Definition NaT : Timedelta := Int64.min.
Definition Timedelta_max : Timedelta := Int64.max.
Definition hour : Timedelta := 3600000000000.

Fixpoint zip_with {X Y W} (f : X -> Y -> W) (xs : list X) (ys : list Y) : list W :=
  match xs, ys with
  | x :: xs', y :: ys' => f x y :: zip_with f xs' ys'
  | _, _ => []
  end.

(** The difference of two Timestamps, computed in 64 bits. *)
Definition td_sub (b a : Z) : Timedelta := Int64.wrap (b - a).

(** [a[1:] - a[:-1]] *)
Definition np_diff (a : list Z) : list Timedelta :=
  zip_with td_sub (tl a) (removelast a).

Definition of_i8 (d : Timedelta) : option Timedelta :=
  if d =? NaT then None else Some d.

(** [Series.diff()]: the first entry has no predecessor and is NaT. *)
Definition diff (ix : list Z) : list (option Timedelta) :=
  match ix with
  | [] => []
  | _ :: _ => None :: map of_i8 (np_diff ix)
  end.

(** [d > threshold]: a comparison with NaT is false. *)
Definition gt (d : option Timedelta) (threshold : Timedelta) : bool :=
  match d with
  | None => false
  | Some d' => threshold <? d'
  end.

Fixpoint cumsum_from (acc : Z) (l : list Z) : list Z :=
  match l with
  | [] => []
  | x :: l' => (acc + x) :: cumsum_from (acc + x) l'
  end.

Definition cumsum (l : list Z) : list Z := cumsum_from 0 l.

(** [data.groupby(keys)]: one group per distinct key, groups in increasing
    key order, the rows of a group in their order in [data]. *)
Fixpoint add_to_group {X} (k : Z) (d : X) (groups : list (Z * list X))
  : list (Z * list X) :=
  match groups with
  | [] => [(k, [d])]
  | (k', g) :: rest =>
      if k <? k' then (k, [d]) :: groups
      else if k =? k' then (k', d :: g) :: rest
      else (k', g) :: add_to_group k d rest
  end.

Definition groupby {X} (data : list X) (keys : list Z) : list (Z * list X) :=
  fold_right (fun dk acc => add_to_group (snd dk) (fst dk) acc) []
             (combine data keys).

Definition labels {X} (data : Frame.t X) (threshold : Timedelta) : list Z :=
  let dates := Frame.index data in
  let indicators := map (fun d => gt d threshold) (diff dates) in
  cumsum (map (fun x : bool => if x then 1 else 0) indicators).

Definition consecutives {X} (data : Frame.t X) (threshold : Timedelta)
  : list (Z * Frame.t X) :=
  groupby data (labels data threshold).

(** [timedelta64 * float64] and [timedelta64 / 2.0] give a
    [timedelta64]: the count is read as a float64, the float64 result is
    cast back to a count; NaT stays NaT. *)
Definition td_mul (d : Timedelta) (y : Float64.t) : Timedelta :=
  if d =? NaT then NaT
  else Float64.to_int64 (Float64.mul (Float64.of_int64 d) y).

Definition td_div2 (d : Timedelta) : Timedelta :=
  if d =? NaT then NaT
  else Float64.to_int64 (Float64.half (Float64.of_int64 d)).

Definition td_add (a b : Timedelta) : Timedelta :=
  if (a =? NaT) || (b =? NaT) then NaT else Int64.wrap (a + b).

Definition td_sum (l : list Timedelta) : Timedelta := fold_left td_add l 0.

(** [np.trapz(y, x)] with [x] a datetime array:
    [(d * (y[1:] + y[:-1]) / 2.0).sum()] where [d = diff(x)]. *)
Definition np_trapz (y : list Float64.t) (x : list Z) : Timedelta :=
  let d := np_diff x in
  td_sum (zip_with (fun di s => td_div2 (td_mul di s)) d
                   (zip_with Float64.add (tl y) (removelast y))).

(** [.astype('timedelta64[h]').astype(int)]: whole hours, rounded down;
    NaT becomes the least count. *)
Definition approx_kwh (x : Frame.t Float64.t) : Z :=
  let area := np_trapz (Frame.values x) (Frame.index x) in
  if area =? NaT then NaT else area / hour.

(** [Series.sum()] of 64-bit integers. *)
Definition sum (l : list Z) : Z := Int64.wrap (fold_right Z.add 0 l).

Definition trapz (data : Frame.t Float64.t) (offset : option Timedelta) : Z :=
  let offset := match offset with
                | None => Timedelta_max
                | Some o => o
                end in
  let grouped := consecutives data offset in
  sum (map (fun g => approx_kwh (snd g)) grouped).

(** Whether the step from timestamp [a] to timestamp [b] counts as a gap
    above the threshold. *)
Definition exceeds (threshold : Timedelta) (a b : Z) : bool :=
  gt (of_i8 (td_sub b a)) threshold.

(** Splitting at every gap above the threshold, written by recursion on
    the rows; [consecutives] is compared with it below. *)
Fixpoint runs {X} (threshold : Timedelta) (data : list (Z * X))
  : list (list (Z * X)) :=
  match data with
  | [] => []
  | r :: rest =>
      match rest with
      | [] => [[r]]
      | r' :: _ =>
          match runs threshold rest with
          | [] => [[r]]
          | g :: gs =>
              if exceeds threshold (fst r) (fst r') then [r] :: g :: gs
              else (r :: g) :: gs
          end
      end
  end.

Fixpoint label_from {X} (k : Z) (l : list X) : list (Z * X) :=
  match l with
  | [] => []
  | x :: l' => (k, x) :: label_from (k + 1) l'
  end.

(** What the run label grows by between two adjacent rows. *)
Definition step {X} (threshold : Timedelta) (r r' : Frame.row X) : Z :=
  if exceeds threshold (fst r) (fst r') then 1 else 0.

Definition shift {X} (b : Z) (g : Z * X) : Z * X := (b + fst g, snd g).

(** Every step between adjacent timestamps fits a [Timedelta]. *)
Fixpoint steps_fit (ix : list Z) : Prop :=
  match ix with
  | a :: ix' =>
      match ix' with
      | b :: _ => Int64.min < b - a <= Int64.max /\ steps_fit ix'
      | [] => True
      end
  | [] => True
  end.

(** Adjacent timestamps are at most [threshold] apart. *)
Fixpoint close (threshold : Timedelta) (ix : list Z) : Prop :=
  match ix with
  | a :: ix' =>
      match ix' with
      | b :: _ => b - a <= threshold /\ close threshold ix'
      | [] => True
      end
  | [] => True
  end.

(** Runs are non-empty, close inside, and more than [threshold] apart
    from one run's last row to the next run's first row. *)
Fixpoint well_split {X} (threshold : Timedelta) (gs : list (list (Z * X)))
  : Prop :=
  match gs with
  | [] => True
  | g :: gs' =>
      g <> [] /\ close threshold (Frame.index g)
      /\ match gs' with
         | g' :: _ => threshold < hd 0 (Frame.index g') - last (Frame.index g) 0
         | [] => True
         end
      /\ well_split threshold gs'
  end.

(** The same readings, every timestamp moved by [t0]. *)
Definition translate {X} (t0 : Z) (data : Frame.t X) : Frame.t X :=
  map (fun r => (t0 + fst r, snd r)) data.

Definition hourly (t0 : Z) (n : nat) (v : Float64.t) : Frame.t Float64.t :=
  map (fun i => (t0 + Z.of_nat i * hour, v)) (seq 0 n).

End Grouper.

(** ** Log-normal fitting and quantile adjustment *)

Module LogNormal.

Local Open Scope R_scope.

(** The logarithm, the exponential and scipy's routines have no exact
    description in binary64, so the fitting code is modelled over the
    reals: a finite float64 is the real it denotes, and sums, products
    and quotients are exact.  An equality between computed numbers holds
    of the program up to the rounding of each operation.  The three
    special values are kept, with numpy's rules for them. *)
Inductive npfloat : Type :=
| NaN
| NegInf
| PosInf
| Fin (r : R).

Definition Rltb (x y : R) : bool := if Rlt_dec x y then true else false.
Definition Reqb (x y : R) : bool := if Req_dec_T x y then true else false.

Definition isnan (a : npfloat) : bool :=
  match a with NaN => true | _ => false end.

Definition isneginf (a : npfloat) : bool :=
  match a with NegInf => true | _ => false end.

Definition np_neg (a : npfloat) : npfloat :=
  match a with
  | NaN => NaN
  | NegInf => PosInf
  | PosInf => NegInf
  | Fin r => Fin (- r)
  end.

Definition np_add (a b : npfloat) : npfloat :=
  match a, b with
  | NaN, _ | _, NaN => NaN
  | Fin x, Fin y => Fin (x + y)
  | PosInf, NegInf | NegInf, PosInf => NaN
  | PosInf, _ | _, PosInf => PosInf
  | NegInf, _ | _, NegInf => NegInf
  end.

Definition np_sub (a b : npfloat) : npfloat := np_add a (np_neg b).

Definition np_abs (a : npfloat) : npfloat :=
  match a with
  | NaN => NaN
  | NegInf | PosInf => PosInf
  | Fin r => Fin (Rabs r)
  end.

Definition signed (inf : npfloat) (r : R) : npfloat :=
  if Rltb 0 r then inf else if Rltb r 0 then np_neg inf else NaN.

Definition np_mul (a b : npfloat) : npfloat :=
  match a, b with
  | NaN, _ | _, NaN => NaN
  | Fin x, Fin y => Fin (x * y)
  | Fin x, i => signed i x
  | i, Fin y => signed i y
  | PosInf, PosInf | NegInf, NegInf => PosInf
  | _, _ => NegInf
  end.

Definition np_exp (a : npfloat) : npfloat :=
  match a with
  | NaN => NaN
  | NegInf => Fin 0
  | PosInf => PosInf
  | Fin r => Fin (exp r)
  end.

Definition np_ltb (a b : npfloat) : bool :=
  match a, b with
  | NaN, _ | _, NaN => false
  | Fin x, Fin y => Rltb x y
  | _, NegInf => false
  | NegInf, _ => true
  | PosInf, _ => false
  | Fin _, PosInf => true
  end.

(** [np.log] with the divide warning silenced: the log of zero is
    negative infinity, the log of a negative number is NaN. *)
Definition np_log (x : R) : npfloat :=
  if Rltb 0 x then Fin (ln x)
  else if Reqb x 0 then NegInf
  else NaN.

(** pandas reductions skip NaN. *)
Definition dropna (l : list npfloat) : list npfloat :=
  filter (fun a => negb (isnan a)) l.

Definition median (l : list npfloat) : npfloat :=
  let xs := sort_by np_ltb (dropna l) in
  let n := List.length xs in
  match n with
  | O => NaN
  | _ =>
      if Nat.odd n then nth (n / 2) xs NaN
      else np_mul (np_add (nth (n / 2 - 1) xs NaN) (nth (n / 2) xs NaN))
                  (Fin (1 / 2))
  end.

Definition np_min (l : list npfloat) : npfloat :=
  match dropna l with
  | [] => NaN
  | x :: xs => fold_left (fun m a => if np_ltb a m then a else m) xs x
  end.

Definition np_max (l : list npfloat) : npfloat :=
  match dropna l with
  | [] => NaN
  | x :: xs => fold_left (fun m a => if np_ltb m a then a else m) xs x
  end.

(** [abs(data.sub(data.median(), axis=0)).median()] *)
Definition mad (data : list npfloat) : npfloat :=
  let m := median data in
  median (map (fun a => np_abs (np_sub a m)) data).

(** [np.linspace(start, stop, num)] with the end point included. *)
Definition linspace (start stop : R) (num : nat) : list R :=
  let div := INR (num - 1) in
  let delta := stop - start in
  let y := map INR (seq 0 num) in
  let y := if (1 <? num)%nat
           then let step := delta / div in
                if Reqb step 0
                then map (fun v => v / div * delta) y
                else map (fun v => v * step) y
           else map (fun v => v * delta) y in
  let y := map (fun v => v + start) y in
  if (1 <? num)%nat then removelast y ++ [stop] else y.

Definition value_ltb (r r' : Z * R) : bool := Rltb (snd r) (snd r').

(** [series.sort_values()] *)
Definition sort_values (series : list (Z * R)) : list (Z * R) :=
  sort_by value_ltb series.

(** The fitting steps in the specification's words, on plain reals: the
    logarithm with the log of zero taken as 0, the median, and the median
    absolute deviation from the median. *)
Definition spec_log (x : R) : R := if Reqb x 0 then 0 else ln x.

Definition real_median (l : list R) : R :=
  let xs := sort_by Rltb l in
  let n := List.length xs in
  if Nat.odd n then nth (n / 2) xs 0
  else (nth (n / 2 - 1) xs 0 + nth (n / 2) xs 0) * (1 / 2).

Definition real_mad (l : list R) : R :=
  let m := real_median l in
  real_median (map (fun a => Rabs (a - m)) l).

Definition real_min (l : list R) : R :=
  match l with
  | [] => 0
  | x :: xs => fold_left (fun m a => if Rltb a m then a else m) xs x
  end.

Definition real_max (l : list R) : R :=
  match l with
  | [] => 0
  | x :: xs => fold_left (fun m a => if Rltb m a then a else m) xs x
  end.

(** The quantile the specification gives rank [i] of [n]. *)
Definition rank_quantile (n : nat) (buffer : Z) (i : nat) : R :=
  (IZR buffer + INR i) / IZR (Z.of_nat n + 2 * buffer - 1).

Section Fit.

(** scipy routines the module calls: the kernel density estimate of a
    sample (its constructor raises on a sample it cannot handle), the
    bounded scalar minimiser, and the inverse of the standard normal
    distribution function. *)
Variable gaussian_kde : list npfloat -> outcome (R -> npfloat).
Variable minimize_scalar : (R -> npfloat) -> npfloat -> npfloat -> outcome npfloat.
Variable ndtri : R -> R.

(** [log_data = np.log(series)] followed by
    [log_data[np.isneginf(log_data)] = 0]. *)
Definition log_transform (series : list (Z * R)) : list (Z * npfloat) :=
  let log_data := map (fun r => (fst r, np_log (snd r))) series in
  map (fun r => (fst r, if isneginf (snd r) then Fin 0 else snd r)) log_data.

Definition lognorm_params (series : list (Z * R)) : M (npfloat * Z * npfloat) :=
  let log_data := Frame.values (log_transform series) in
  kde <- lift (gaussian_kde log_data) ;;
  let est_std := np_mul (mad log_data) (Fin 1.4826) in
  est_mu <- lift (minimize_scalar (fun x => np_mul (Fin (-1)) (kde x))
                                  (np_min log_data) (np_max log_data)) ;;
  ret (est_std, 0%Z, np_exp est_mu).

(** [stats.lognorm.ppf(q, s, loc, scale)]: NaN unless the shape and
    the scale are positive; the end points 0 and 1 map to the ends of
    the support. *)
Definition lognorm_ppf (q : R) (params : npfloat * Z * npfloat) : npfloat :=
  let '(s, loc, scale) := params in
  if np_ltb (Fin 0) s && np_ltb (Fin 0) scale
  then
    if Rltb 0 q && Rltb q 1
    then np_add (np_mul (np_exp (np_mul s (Fin (ndtri q)))) scale) (Fin (IZR loc))
    else if Reqb q 0 then np_add (np_mul (Fin 0) scale) (Fin (IZR loc))
    else if Reqb q 1 then np_add (np_mul PosInf scale) (Fin (IZR loc))
    else NaN
  else NaN.

(** The [quantiles] series of [adjust_sample]: the ranks' quantiles
    labelled by the sorted sample's index, back in index order. *)
Definition quantiles (series : list (Z * R)) (q_step : R) (buffer : Z)
  : list (Z * R) :=
  let s_sorted := sort_values series in
  let q_array := linspace (IZR buffer * q_step) (1 - IZR buffer * q_step)
                          (List.length series) in
  Frame.sort_index (combine (Frame.index s_sorted) q_array).

Definition adjust_sample (series : list (Z * R)) (buffer : Z)
  : M (list (Z * npfloat)) :=
  fit_params <- lognorm_params series ;;
  let den := (Z.of_nat (List.length series) + 2 * buffer - 1)%Z in
  if (den =? 0)%Z then raise ZeroDivisionError
  else
    let q_step := 1 / IZR den in
    ret (map (fun r => (fst r, lognorm_ppf (snd r) fit_params))
             (quantiles series q_step buffer)).

End Fit.

End LogNormal.

(** ** Index intersection *)

Module Intersector.

(** [Index.intersection]: the labels of the first index that the second
    one holds too, each once, in the first index's order. *)
Fixpoint unique (ix : list Z) : list Z :=
  match ix with
  | [] => []
  | x :: ix' => x :: filter (fun y => negb (y =? x)) (unique ix')
  end.

Definition intersection (ix1 ix2 : list Z) : list Z :=
  unique (filter (fun x => Frame.mem x ix2) ix1).

(** [data.loc[ixs]]: for each listed label in turn, the rows carrying it.
    [intersect] only lists labels the frame holds. *)
Definition loc {A} (data : Frame.t A) (ixs : list Z) : Frame.t A :=
  flat_map (fun x => Frame.select (Z.eqb x) data) ixs.

Definition intersect {A B} (data1 : Frame.t A) (data2 : Frame.t B)
  : Frame.t A * Frame.t B :=
  let ixs := intersection (Frame.index data1) (Frame.index data2) in
  (loc data1 ixs, loc data2 ixs).

End Intersector.

(** ** Sample data used to exercise the definitions *)

Module Sample.

(** 2020-01-01 00:00 *)
Definition new_year_2020 : Z := 1577836800000000000.

Definition label_2021 : Label :=
  mkLabel "2021" 1609459200000000000 1640995199999999999.

Definition one_reading : Frame.t Z := [(new_year_2020, 5%Z)].

(** Readings with a gap of 95 between the second and the third row and
    a gap of 199 before the last one. *)
Definition gapped : Frame.t Float64.t :=
  [(0, Float64.of_Z 1); (5, Float64.of_Z 1); (100, Float64.of_Z 1);
   (101, Float64.of_Z 2); (300, Float64.of_Z 1)].

(** pandas on a DataFrame: a label outside the span of the index is a
    [KeyError], no lookup answers with one value; on an index that is not
    in increasing order a slice with a datetime bound raises and any other
    slice is empty. *)
Definition pandas : Pandas :=
  mkPandas outside_span (fun _ _ => false) (fun _ _ _ => true)
           (fun _ _ _ => []).

(** pandas on a Series with one row per day: a label that names a day or
    less answers with the value of that day's row. *)
Definition daily_series : Pandas :=
  mkPandas outside_span
           (fun _ l => period_end l - period_start l <? Frame.ns_per_day)
           (fun _ _ _ => true) (fun _ _ _ => []).

Definition day_2020_01_01 : Label :=
  mkLabel "2020-01-01" 1577836800000000000 1577923199999999999.

(** Monday 5 September 2016 at 08:00. *)
Definition school_morning : Frame.t Z := [(1473062400000000000, 10)].

(** 1 January 1700 and 1 January 2000: more than [2 ^ 63] nanoseconds
    apart. *)
Definition centuries : Frame.t Z :=
  [(-8520336000000000000, 1); (946684800000000000, 2)].

Definition whole_range : RangeToken := TPair None None.

Definition school_hours : Times := Window (hhmm 7 40, hhmm 14 20).

Definition only_2021 : Kwds :=
  mkKwds (Some (One (TLabel label_2021))) None (Some [0; 1; 2; 3; 4]%Z) None None.

Definition without_2021 : Kwds :=
  mkKwds (Some (One (TLabel label_2021))) None None None
         (Some (One (TLabel label_2021))).

(** Two frames on integer labels that share the labels 2 and 3. *)
Definition energy : Frame.t Z := [(1, 10); (2, 20); (3, 30)]%Z.
Definition temperature : Frame.t Z := [(2, 5); (3, 6); (4, 7)]%Z.

(** A frame in which the label 1 occurs twice. *)
Definition repeated : Frame.t Z := [(1, 10); (1, 20)]%Z.
Definition single : Frame.t Z := [(1, 30)]%Z.

(** Stand-ins for the scipy routines, used only to run the fitting code on
    sample data: a flat density, a search that answers its lower bound, and
    an increasing function in place of the inverse normal distribution
    function. *)
Definition flat_kde (data : list LogNormal.npfloat)
  : outcome (R -> LogNormal.npfloat) :=
  Ok (fun _ => LogNormal.Fin 1).

Definition lower_bound (f : R -> LogNormal.npfloat)
           (a b : LogNormal.npfloat) : outcome LogNormal.npfloat :=
  Ok a.

Definition centred (q : R) : R := (q - 1 / 2)%R.

(** Readings 1, e and e squared under increasing labels. *)
Definition readings : list (Z * R) := [(0%Z, 1%R); (1%Z, exp 1); (2%Z, exp 2)].


(** Four readings of which three are equal. *)
Definition mostly_equal : list (Z * R) :=
  [(0%Z, 1%R); (1%Z, 1%R); (2%Z, 1%R); (3%Z, 2%R)].

End Sample.

(** ** What the filters keep, stated on single timestamps *)

(** Whether a token's bounds hold a timestamp. *)
Definition token_covers (token : RangeToken) (ts : Z) : bool :=
  match token with
  | TLabel l => (period_start l <=? ts) && (ts <=? period_end l)
  | TPair start stop => lower start ts && upper stop ts
  end.

Definition no_row {A} (data : Frame.t A) (l : Label) : bool :=
  match rows_between data (Some (AtLabel l)) (Some (AtLabel l)) with
  | [] => true
  | _ :: _ => false
  end.

(** On an index in increasing order, what a token's lookup does: it gives
    rows, it gives one value, or it prints a line and gives [None]. *)
Definition gives_rows {A} (pd : Pandas) (data : Frame.t A) (token : RangeToken)
  : bool :=
  match token with
  | TLabel l =>
      negb (key_error pd (Frame.index data) l)
      && negb (one_value pd (Frame.index data) l)
  | TPair _ _ => true
  end.

Definition gives_value {A} (pd : Pandas) (data : Frame.t A) (token : RangeToken)
  : bool :=
  match token with
  | TLabel l =>
      negb (key_error pd (Frame.index data) l)
      && one_value pd (Frame.index data) l
      && negb (no_row data l)
  | TPair _ _ => false
  end.

Definition gives_none {A} (pd : Pandas) (data : Frame.t A) (token : RangeToken)
  : bool :=
  match token with
  | TLabel l =>
      key_error pd (Frame.index data) l
      || (one_value pd (Frame.index data) l && no_row data l)
  | TPair _ _ => false
  end.

(** What a token contributes to [pd.concat]: its rows, its one value, or
    [None]. *)
Definition token_result {A} (pd : Pandas) (data : Frame.t A) (token : RangeToken)
  : option (Frame.Selected A) :=
  match result (range_token_df pd data token) with
  | Ok o => o
  | Raise _ => None
  end.

(** The diagnostics a token list prints: one line per label whose lookup
    fails, in list order. *)
Definition diagnostics {A} (pd : Pandas) (data : Frame.t A)
           (tokens : list RangeToken) : list string :=
  flat_map (fun token =>
              match token with
              | TLabel l => if gives_none pd data token then [not_in_range l] else []
              | TPair _ _ => []
              end) tokens.

(** Whether [between_time] keeps a timestamp. *)
Definition in_window (w : Z * Z) (ts : Z) : bool :=
  let m := Frame.time_micros ts in
  if fst w <=? snd w
  then (fst w <=? m) && (m <=? snd w)
  else (fst w <=? m) || (m <=? snd w).

Definition times_pass (tm : option Times) (ts : Z) : bool :=
  match tm with
  | None => true
  | Some (Window w) => in_window w ts
  | Some (Windows ws) => existsb (fun w => in_window w ts) ws
  end.

Definition days_pass (days : option (list Z)) (ts : Z) : bool :=
  match days with
  | None => true
  | Some d => Frame.mem (Frame.weekday ts) d
  end.

Definition months_pass (ms : option (list Z)) (ts : Z) : bool :=
  match ms with
  | None => true
  | Some m => Frame.mem (Frame.month ts) m
  end.

(** A timestamp passes every stage after [include]; [bl] lists the labels
    of the resolved blacklist when there is one. *)
Definition passes (kwds : Kwds) (bl : option (list Z)) (ts : Z) : bool :=
  times_pass (times kwds) ts
  && days_pass (daysofweek kwds) ts
  && months_pass (months kwds) ts
  && match bl with
     | None => true
     | Some labels => negb (Frame.mem ts labels)
     end.

Section FilterStages.

Context {A : Type}.
Variable pd : Pandas.

(** The working set after the [include] stage. *)
Definition included (data : Frame.t A) (kwds : Kwds)
  : outcome (option (Frame.Selected A)) :=
  match include kwds with
  | Some r => result (data_in_range pd data r)
  | None => Ok (Some (Frame.Rows data))
  end.

(** The labels the [blacklist] stage drops. *)
Definition excluded (data : Frame.t A) (kwds : Kwds) : outcome (option (list Z)) :=
  match blacklist kwds with
  | Some r =>
      match result (data_in_range pd data r) with
      | Ok (Some (Frame.Rows b)) => Ok (Some (Frame.index b))
      | Ok _ => Raise AttributeError
      | Raise e => Raise e
      end
  | None => Ok None
  end.

(** The stages after [include], as one function of the working set. *)
Definition pipeline (sel : Frame.t A) (kwds : Kwds) (bl : option (list Z))
  : Frame.t A :=
  let out := match times kwds with
             | None => sel
             | Some (Window w) => Frame.between_time sel w
             | Some (Windows ws) =>
                 Frame.sort_index (List.concat (map (Frame.between_time sel) ws))
             end in
  let out := match daysofweek kwds with
             | None => out
             | Some days =>
                 Frame.select (fun ts => Frame.mem (Frame.weekday ts) days) out
             end in
  let out := match months kwds with
             | None => out
             | Some ms =>
                 Frame.select (fun ts => Frame.mem (Frame.month ts) ms) out
             end in
  match bl with
  | None => out
  | Some labels => Frame.drop out labels
  end.

End FilterStages.

(** The tokens of a date range. *)
Definition tokens_of (r : DateRange) : list RangeToken :=
  match r with
  | One token => [token]
  | Many tokens => tokens
  end.

(** What [time_filter] returns once the [include] stage has produced [o]
    ([None] or one value when a lone label did not give rows) and the
    blacklist resolves as [ex]. *)
Definition after_include {A} (o : option (Frame.Selected A)) (kwds : Kwds)
           (ex : outcome (option (list Z)))
  : outcome (option (Frame.Selected A)) :=
  match o with
  | Some (Frame.Rows sel) =>
      match times kwds with
      | Some (Windows []) => Raise IndexError
      | _ =>
          match ex with
          | Ok bl => Ok (Some (Frame.Rows (pipeline sel kwds bl)))
          | Raise e => Raise e
          end
      end
  | _ =>
      match times kwds with
      | Some (Windows []) => Raise IndexError
      | Some _ => Raise AttributeError
      | None =>
          match daysofweek kwds, months kwds, blacklist kwds with
          | None, None, None => Ok o
          | _, _, _ => Raise AttributeError
          end
      end
  end.

(** How many successive timestamp differences, as computed in 64 bits,
    exceed the threshold. *)
Definition gaps_above (threshold : Z) (ix : list Z) : nat :=
  List.length (filter (fun d => Grouper.gt (Grouper.of_i8 d) threshold)
                      (Grouper.np_diff ix)).

(** Adjacent timestamps are more than [threshold] apart, by a step that
    fits a [Timedelta]. *)
Fixpoint apart (threshold : Z) (ix : list Z) : Prop :=
  match ix with
  | a :: ix' =>
      match ix' with
      | b :: _ =>
          threshold < b - a /\ Int64.min < b - a <= Int64.max
          /\ apart threshold ix'
      | [] => True
      end
  | [] => True
  end.

(** The threshold [trapz] groups with. *)
Definition threshold_of (offset : option Z) : Z :=
  match offset with
  | None => Grouper.Timedelta_max
  | Some o => o
  end.

(** ** Variations of a sample *)

Module Variation.

(** Every reading of 0 replaced by a reading of 1. *)
Definition zeros_to_ones (series : list (Z * R)) : list (Z * R) :=
  map (fun r => (fst r, if LogNormal.Reqb (snd r) 0 then 1%R else snd r)) series.

End Variation.

(** ** [unstack_by_time]: one column per date, one row per time of day *)

Module Unstack.

(** The [(time, date)] pair a timestamp is re-indexed by; a [datetime.time]
    counts microseconds. *)
Definition key (ts : Z) : Z * Z :=
  (Frame.time_micros ts, Frame.days_since_epoch ts).

Definition key_eqb (k k' : Z * Z) : bool :=
  (fst k =? fst k') && (snd k =? snd k').

(** The values of one level of the index: each once, in increasing order. *)
Definition level (l : list Z) : list Z :=
  Intersector.unique (sort_by Z.ltb l).

Fixpoint has_duplicates (keys : list (Z * Z)) : bool :=
  match keys with
  | [] => false
  | k :: keys' => existsb (key_eqb k) keys' || has_duplicates keys'
  end.

Fixpoint lookup {A} (k : Z * Z) (stacked : list ((Z * Z) * A)) : option A :=
  match stacked with
  | [] => None
  | (k', v) :: rest => if key_eqb k k' then Some v else lookup k rest
  end.

(** The unstacked frame: its row labels (times of day), its column labels
    (dates) and its cells, row by row; a cell without a reading is NaN,
    here [None]. *)
Record Table (A : Type) : Type := mkTable {
  table_index : list Z;
  table_columns : list Z;
  table_cells : list (list (option A))
}.
Arguments mkTable {A} _ _ _.
Arguments table_index {A} _.
Arguments table_columns {A} _.
Arguments table_cells {A} _.

(** [stacked.unstack()] on the two-level index: the last level, the date,
    becomes the columns; two readings with one [(time, date)] pair cannot be
    reshaped. *)
Definition unstack_by_time {A} (series : Frame.t A) : M (Table A) :=
  let stacked := map (fun r => (key (fst r), snd r)) series in
  let keys := map fst stacked in
  if has_duplicates keys then raise ValueError
  else
    let ts := level (map fst keys) in
    let ds := level (map snd keys) in
    ret (mkTable ts ds
                 (map (fun t => map (fun d => lookup (t, d) stacked) ds) ts)).

(** Position of a label on an axis. *)
Fixpoint position (x : Z) (axis : list Z) : option nat :=
  match axis with
  | [] => None
  | y :: axis' =>
      if x =? y then Some O
      else match position x axis' with
           | Some n => Some (S n)
           | None => None
           end
  end.

(** [table.loc[t, d]]: the cell at a time of day and a date; [None] when
    the cell is NaN or a label is not on its axis. *)
Definition cell {A} (table : Table A) (t d : Z) : option A :=
  match position t (table_index table), position d (table_columns table) with
  | Some i, Some j => nth j (nth i (table_cells table) []) None
  | _, _ => None
  end.

End Unstack.

(** ** The frames the script builds *)

Module Script.

Definition day_2016_09_02 : Label :=
  mkLabel "9/2/16" 1472774400000000000 1472860799999999999.
Definition day_2017_06_16 : Label :=
  mkLabel "6/16/17" 1497571200000000000 1497657599999999999.
Definition day_2017_02_09 : Label :=
  mkLabel "2/9/17" 1486598400000000000 1486684799999999999.
Definition day_2017_02_13 : Label :=
  mkLabel "2/13/17" 1486944000000000000 1487030399999999999.
Definition day_2017_03_14 : Label :=
  mkLabel "3/14/17" 1489449600000000000 1489535999999999999.
Definition day_2017_03_15 : Label :=
  mkLabel "3/15/17" 1489536000000000000 1489622399999999999.

Definition extra_days : list RangeToken :=
  [TLabel day_2017_02_09; TLabel day_2017_02_13;
   TLabel day_2017_03_14; TLabel day_2017_03_15].

(** What [ical_ranges] hands over: one [(start, end)] tuple per event. *)
Definition event_tokens (ranges : list (Z * Z)) : list RangeToken :=
  map (fun r => TPair (Some (AtTime (fst r))) (Some (AtTime (snd r)))) ranges.

Definition df_school {A} (pd : Pandas)
           (df_energy : Frame.t A) (no_school half_days : list (Z * Z))
  : M (option (Frame.Selected A)) :=
  time_filter pd df_energy
    (mkKwds (Some (One (TPair (Some (AtLabel day_2016_09_02))
                              (Some (AtLabel day_2017_06_16)))))
            (Some (Window (hhmm 7 40, hhmm 14 20)))
            (Some [0; 1; 2; 3; 4])
            None
            (Some (Many (event_tokens no_school ++ event_tokens half_days
                         ++ extra_days)))).

End Script.

(** ** More sample data *)

Module Fixture.

(** Monday 5 and Tuesday 6 September 2016 at 08:00, and Saturday 10
    September 2016 at 08:00. *)
Definition school_week : Frame.t Z :=
  [(1473062400000000000, 10); (1473148800000000000, 20);
   (1473494400000000000, 30)].

(** A calendar with one event: the whole of Monday 5 September 2016. *)
Definition labor_day : list (Z * Z) :=
  [(1473033600000000000, 1473119999000000000)].

(** Readings at 00:00 and 01:00 of one day and at 00:00 of the next. *)
Definition two_days : Frame.t Z :=
  [(0, 1); (3600000000000, 2); (86400000000000, 3)].

Definition two_days_table : Unstack.Table Z :=
  Unstack.mkTable [0; 3600000000] [0; 1] [[Some 1; Some 3]; [Some 2; None]].

(** Two readings one nanosecond apart. *)
Definition same_microsecond : Frame.t Z := [(0, 1); (1, 2)].

(** The two halves of [Sample.gapped] before its last reading. *)
Definition morning : Frame.t Float64.t :=
  [(0, Float64.of_Z 1); (5, Float64.of_Z 1)].
Definition evening : Frame.t Float64.t :=
  [(100, Float64.of_Z 1); (101, Float64.of_Z 2)].

Definition weekdays : Kwds :=
  mkKwds None None (Some [0; 1; 2; 3; 4]) None None.

Definition no_windows : Kwds :=
  mkKwds None (Some (Windows [])) None None None.

(** One day as a lone label, with a weekday filter behind it. *)
Definition one_day_weekdays : Kwds :=
  mkKwds (Some (One (TLabel Sample.day_2020_01_01))) None
         (Some [0; 1; 2; 3; 4]) None None.

End Fixture.

(** * Properties *)

Lemma result_bind {A B} (m : M A) (k : A -> M B) :
  result (bind m k) =
  match result m with
  | Ok a => result (k a)
  | Raise e => Raise e
  end.
Proof.
  destruct m as [out [a | e]]; simpl; auto.
  unfold result. simpl. destruct (k a); reflexivity.
Qed.

Lemma result_bind_ok {A B} (m : M A) (k : A -> M B) a :
  result m = Ok a -> result (bind m k) = result (k a).
Proof. intros H. rewrite result_bind, H. reflexivity. Qed.

Lemma result_bind_raise {A B} (m : M A) (k : A -> M B) e :
  result m = Raise e -> result (bind m k) = Raise e.
Proof. intros H. rewrite result_bind, H. reflexivity. Qed.

Lemma printed_bind_ok {A B} (m : M A) (k : A -> M B) a :
  result m = Ok a -> printed (bind m k) = (printed m ++ printed (k a))%list.
Proof.
  destruct m as [out [a' | e]]; unfold result, printed; simpl; intros H; inversion H; subst.
  destruct (k a); reflexivity.
Qed.

Lemma insert_by_perm {X} (ltb : X -> X -> bool) x l :
  Permutation (insert_by ltb x l) (x :: l).
Proof.
  induction l as [| y l IH]; simpl; auto.
  destruct (ltb x y); auto.
  rewrite IH. apply perm_swap.
Qed.

Lemma sort_by_perm {X} (ltb : X -> X -> bool) l :
  Permutation (sort_by ltb l) l.
Proof.
  unfold sort_by.
  assert (G : forall acc, Permutation (fold_left (fun acc x => insert_by ltb x acc) l acc) (acc ++ l)).
  { induction l as [| x l IH]; intros acc; simpl.
    - rewrite app_nil_r. auto.
    - rewrite IH, insert_by_perm. simpl. apply Permutation_middle. }
  apply (G []).
Qed.

Lemma somes_app {X} (a b : list (option X)) :
  Frame.somes (a ++ b) = (Frame.somes a ++ Frame.somes b)%list.
Proof.
  induction a as [| [x |] a IH]; simpl; auto. now rewrite IH.
Qed.

Lemma somes_map_rows {A} (fs : list (option (Frame.t A))) :
  Frame.somes (map (option_map Frame.Rows) fs) = map Frame.Rows (Frame.somes fs).
Proof. induction fs as [| [f |] fs IH]; simpl; congruence. Qed.

Lemma frames_rows {A} (fs : list (Frame.t A)) :
  Frame.frames (map Frame.Rows fs) = Some fs.
Proof. induction fs as [| f fs IH]; simpl; [reflexivity | now rewrite IH]. Qed.

(** [pd.concat] of frames and [None] entries. *)
Lemma concat_rows {A} (fs : list (option (Frame.t A))) :
  Frame.concat (map (option_map Frame.Rows) fs)
  = match Frame.somes fs with
    | [] => raise ValueError
    | f :: fs' => ret (List.concat (f :: fs'))
    end.
Proof.
  unfold Frame.concat. rewrite somes_map_rows.
  destruct (Frame.somes fs) as [| f fs']; [reflexivity |].
  cbn [map]. rewrite <- (map_cons Frame.Rows), frames_rows. reflexivity.
Qed.

Section Resolver.
Context {A : Type}.
Variable pd : Pandas.

Lemma range_token_df_tame (data : Frame.t A) tok :
  tame pd data tok = true ->
  range_token_df pd data tok =
  (printed (range_token_df pd data tok),
   Ok (option_map Frame.Rows (token_frame pd data tok))).
Proof.
  unfold tame, token_frame.
  destruct (range_token_df pd data tok) as [out [[[df | v] |] | e]];
    cbn [result printed fst snd option_map]; intros H;
    try discriminate; reflexivity.
Qed.

Lemma mapM_range_token_df (data : Frame.t A) tokens :
  forallb (tame pd data) tokens = true ->
  mapM (range_token_df pd data) tokens =
  (flat_map (fun tok => printed (range_token_df pd data tok)) tokens,
   Ok (map (option_map Frame.Rows) (map (token_frame pd data) tokens))).
Proof.
  induction tokens as [| tok tokens IH]; simpl; auto.
  intros H. apply andb_true_iff in H. destruct H as [Ht Hs].
  rewrite (range_token_df_tame data tok Ht), (IH Hs). simpl.
  rewrite app_nil_r. reflexivity.
Qed.

Lemma data_in_range_many (data : Frame.t A) tokens :
  forallb (tame pd data) tokens = true ->
  data_in_range pd data (Many tokens) =
  (flat_map (fun tok => printed (range_token_df pd data tok)) tokens,
   match resolved pd data tokens with
   | [] => Raise ValueError
   | f :: fs => Ok (Some (Frame.Rows (Frame.sort_index (List.concat (f :: fs)))))
   end).
Proof.
  intros H. unfold data_in_range, resolved.
  rewrite (mapM_range_token_df data tokens H).
  cbn [bind]. rewrite concat_rows.
  destruct (Frame.somes (map (token_frame pd data) tokens)); simpl;
    rewrite ?app_nil_r; reflexivity.
Qed.
End Resolver.

Lemma mem_In x l : Frame.mem x l = true <-> In x l.
Proof.
  unfold Frame.mem. rewrite existsb_exists. split.
  - intros [y [Hy E]]. apply Z.eqb_eq in E. now subst.
  - intros H. exists x. split; auto. apply Z.eqb_refl.
Qed.

Lemma within_refl {A} (sel : Frame.t A) : within sel sel.
Proof. intros r H. unfold Frame.index. now apply in_map. Qed.

Lemma within_select {A} (sel f : Frame.t A) p :
  within sel f -> within sel (Frame.select p f).
Proof.
  intros H r Hr. apply H. unfold Frame.select in Hr.
  apply filter_In in Hr. tauto.
Qed.

Lemma within_between_time {A} (sel f : Frame.t A) w :
  within sel f -> within sel (Frame.between_time f w).
Proof. destruct w. apply within_select. Qed.

Lemma within_sort_index {A} (sel f : Frame.t A) :
  within sel f -> within sel (Frame.sort_index f).
Proof.
  intros H r Hr. apply H.
  eapply Permutation_in; [apply sort_by_perm | exact Hr].
Qed.

Lemma drop_within {A} (sel f : Frame.t A) :
  within sel f -> Frame.drop f (Frame.index sel) = [].
Proof.
  intros H. unfold Frame.drop, Frame.select.
  induction f as [| r f IH]; simpl; auto.
  assert (E : Frame.mem (fst r) (Frame.index sel) = true).
  { apply mem_In. apply H. now left. }
  rewrite E. simpl. apply IH. intros r' Hr'. apply H. now right.
Qed.

Section Filter.
Context {A : Type}.

Lemma mapM_between_time (df : Frame.t A) ws :
  mapM (fun subrange =>
          d <- Frame.attr (Some (Frame.Rows df)) ;;
          ret (Some (Frame.Rows (Frame.between_time d subrange)))) ws
  = ([], Ok (map (option_map Frame.Rows)
                 (map (fun w => Some (Frame.between_time df w)) ws))).
Proof.
  induction ws as [| w ws IH]; [reflexivity |].
  cbn [mapM]. rewrite IH. reflexivity.
Qed.

Lemma somes_map_Some {X Y} (f : X -> Y) l :
  Frame.somes (map (fun x => Some (f x)) l) = map f l.
Proof. induction l; simpl; congruence. Qed.

(** The working set after the [times] stage. *)
Lemma times_stage (sel : Frame.t A) tm :
  tm <> Some (Windows []) ->
  exists f, within sel f /\
    result (match tm with
            | Some (Windows []) => raise IndexError
            | Some (Windows ws) =>
                parts <- mapM (fun subrange =>
                                 df <- Frame.attr (Some (Frame.Rows sel)) ;;
                                 ret (Some (Frame.Rows (Frame.between_time df subrange))))
                              ws ;;
                df <- Frame.concat parts ;;
                ret (Some (Frame.Rows (Frame.sort_index df)))
            | Some (Window w) =>
                df <- Frame.attr (Some (Frame.Rows sel)) ;;
                ret (Some (Frame.Rows (Frame.between_time df w)))
            | None => ret (Some (Frame.Rows sel))
            end) = Ok (Some (Frame.Rows f)).
Proof.
  intros Hne. destruct tm as [[w | [| w ws]] |].
  - exists (Frame.between_time sel w). split; auto.
    apply within_between_time, within_refl.
  - congruence.
  - rewrite mapM_between_time.
    exists (Frame.sort_index (List.concat (map (Frame.between_time sel) (w :: ws)))).
    split.
    + apply within_sort_index. intros r Hr.
      apply in_concat in Hr. destruct Hr as [f [Hf Hr]].
      apply in_map_iff in Hf. destruct Hf as [w' [<- _]].
      revert Hr. apply within_between_time, within_refl.
    + erewrite result_bind_ok by reflexivity.
      rewrite concat_rows.
      rewrite (somes_map_Some (Frame.between_time sel)). reflexivity.
  - exists sel. split; auto. apply within_refl.
Qed.
End Filter.

Section FilterTheorems.
Context {A : Type}.
Variable pd : Pandas.

Lemma blacklist_stage (data : Frame.t A) kw bl w b :
  blacklist kw = None ->
  result (time_filter pd data kw) = Ok (Some (Frame.Rows w)) ->
  result (data_in_range pd data bl) = Ok (Some (Frame.Rows b)) ->
  result (time_filter pd data (with_blacklist kw bl))
  = Ok (Some (Frame.Rows (Frame.drop w (Frame.index b)))).
Proof.
  intros Hbl Hw Hb. destruct kw as [inc tm days ms blk]. simpl in Hbl. subst blk.
  unfold with_blacklist, time_filter in *. cbn [include times daysofweek months blacklist] in *.
  rewrite result_bind in *.
  destruct (result _) as [o1 | e1]; [| discriminate].
  rewrite result_bind in *.
  destruct (result _) as [o2 | e2]; [| discriminate].
  rewrite result_bind in *.
  destruct (result _) as [o3 | e3]; [| discriminate].
  rewrite result_bind in *.
  destruct (result _) as [o4 | e4]; [| discriminate].
  rewrite result_bind in Hw. cbn in Hw. inversion Hw; subst o4.
  rewrite result_bind.
  erewrite result_bind_ok by reflexivity.
  erewrite result_bind_ok by exact Hb.
  reflexivity.
Qed.

Lemma filter_chain (data : Frame.t A) r sel tm days ms :
  result (data_in_range pd data r) = Ok (Some (Frame.Rows sel)) ->
  tm <> Some (Windows []) ->
  exists w, within sel w /\
    result (time_filter pd data (mkKwds (Some r) tm days ms None))
    = Ok (Some (Frame.Rows w)).
Proof.
  intros Hr Hne. unfold time_filter.
  cbn [include times daysofweek months blacklist].
  erewrite result_bind_ok by exact Hr.
  destruct (times_stage sel tm Hne) as [f [Hf E]].
  erewrite result_bind_ok by exact E.
  destruct days as [days |]; destruct ms as [ms |];
    (eexists; split; [| reflexivity]); auto using within_select.
Qed.

(** C7, as amended. A blacklist is resolved against the original data and
    takes every row with a resolved label out of the working set; when the
    blacklist is the include range, that range resolves, and [times] is not
    an empty list, nothing is left. *)
Theorem blacklist_equal_to_include (data : Frame.t A) :
  (forall kw bl w b,
      blacklist kw = None ->
      result (time_filter pd data kw) = Ok (Some (Frame.Rows w)) ->
      result (data_in_range pd data bl) = Ok (Some (Frame.Rows b)) ->
      result (time_filter pd data (with_blacklist kw bl))
      = Ok (Some (Frame.Rows (Frame.drop w (Frame.index b)))))
  /\
  (forall r sel tm days ms,
      result (data_in_range pd data r) = Ok (Some (Frame.Rows sel)) ->
      tm <> Some (Windows []) ->
      result (time_filter pd data (mkKwds (Some r) tm days ms (Some r)))
      = Ok (Some (Frame.Rows []))).
Proof.
  split.
  - intros kw bl w b. apply blacklist_stage.
  - intros r sel tm days ms Hr Hne.
    destruct (filter_chain data r sel tm days ms Hr Hne) as [w [Hw E]].
    change (mkKwds (Some r) tm days ms (Some r))
      with (with_blacklist (mkKwds (Some r) tm days ms None) r).
    rewrite (blacklist_stage data (mkKwds (Some r) tm days ms None) r w sel
               eq_refl E Hr).
    now rewrite (drop_within sel w Hw).
Qed.

(** C8. With no keyword present the input comes back as it is, and
    nothing is printed. *)
Theorem time_filter_no_kwds (data : Frame.t A) :
  time_filter pd data no_kwds = ([], Ok (Some (Frame.Rows data))).
Proof. reflexivity. Qed.
End FilterTheorems.

Lemma blacklist_equal_to_include_witness :
  result (time_filter Sample.pandas Sample.school_morning
            (mkKwds (Some (One Sample.whole_range)) (Some Sample.school_hours)
                    (Some [0; 1; 2; 3; 4]) None None))
  = Ok (Some (Frame.Rows Sample.school_morning))
  /\ result (time_filter Sample.pandas Sample.school_morning
               (mkKwds (Some (One Sample.whole_range)) (Some Sample.school_hours)
                       (Some [0; 1; 2; 3; 4]) None (Some (One Sample.whole_range))))
     = Ok (Some (Frame.Rows [])).
Proof.
  split; [reflexivity |].
  apply (proj2 (blacklist_equal_to_include Sample.pandas Sample.school_morning)
               (One Sample.whole_range) Sample.school_morning).
  - reflexivity.
  - discriminate.
Defined.

(** C7 as stated fails for a range that does not resolve: the call raises
    instead of returning an empty frame. *)
Lemma blacklist_equal_to_include_counterexample :
  result (time_filter Sample.pandas Sample.one_reading Sample.without_2021)
  = Raise AttributeError
  /\ result (time_filter Sample.pandas Sample.one_reading Sample.without_2021)
     <> Ok (Some (Frame.Rows [])).
Proof.
  split; [reflexivity | discriminate].
Qed.

Module IntersectorFacts.
Import Intersector.

Lemma filter_all {X} (p : X -> bool) l :
  (forall x, In x l -> p x = true) -> filter p l = l.
Proof.
  induction l as [| y l IH]; simpl; intros H; auto.
  rewrite (H y) by now left. f_equal. apply IH. intros; apply H; now right.
Qed.

Lemma filter_none {X} (p : X -> bool) l :
  (forall x, In x l -> p x = false) -> filter p l = [].
Proof.
  induction l as [| y l IH]; simpl; intros H; auto.
  rewrite (H y) by now left. apply IH. intros; apply H; now right.
Qed.

Lemma unique_NoDup ix : NoDup ix -> unique ix = ix.
Proof.
  induction 1 as [| x ix Hx Hnd IH]; simpl; auto.
  rewrite IH. f_equal. apply filter_all.
  intros y Hy. apply negb_true_iff, Z.eqb_neq. congruence.
Qed.

Lemma NoDup_filter {X} (p : X -> bool) l : NoDup l -> NoDup (filter p l).
Proof.
  induction 1 as [| x l Hx Hnd IH]; simpl; [constructor |].
  destruct (p x); auto. constructor; auto.
  rewrite filter_In. tauto.
Qed.

Lemma select_absent {A} (data : Frame.t A) x :
  ~ In x (Frame.index data) -> Frame.select (Z.eqb x) data = [].
Proof.
  intros H. apply filter_none. intros r Hr. apply Z.eqb_neq.
  intros ->. apply H. unfold Frame.index. now apply in_map.
Qed.

Lemma select_length {A} (data : Frame.t A) x :
  NoDup (Frame.index data) -> In x (Frame.index data) ->
  List.length (Frame.select (Z.eqb x) data) = 1%nat.
Proof.
  induction data as [| r data IH]; simpl; intros Hnd Hin; [tauto |].
  inversion Hnd as [| ? ? Hr Hnd']; subst.
  unfold Frame.select in *. simpl.
  destruct (Z.eqb_spec x (fst r)) as [-> | Hne].
  - simpl. f_equal. fold (Frame.select (Z.eqb (fst r)) data).
    now rewrite select_absent.
  - apply IH; auto. destruct Hin; congruence.
Qed.

Lemma loc_length {A} (data : Frame.t A) ixs :
  NoDup (Frame.index data) ->
  (forall x, In x ixs -> In x (Frame.index data)) ->
  List.length (loc data ixs) = List.length ixs.
Proof.
  intros Hnd. unfold loc.
  induction ixs as [| x ixs IH]; cbn [flat_map]; intros H; auto.
  rewrite length_app, select_length, IH; simpl; auto.
  - intros; apply H; now right.
  - apply H; now left.
Qed.

Lemma loc_cons_fresh {A} (r : Frame.row A) data ixs :
  ~ In (fst r) ixs -> loc (r :: data) ixs = loc data ixs.
Proof.
  unfold loc. induction ixs as [| x ixs IH]; cbn [flat_map]; intros H; auto.
  rewrite IH by (simpl in H; tauto). f_equal.
  unfold Frame.select. simpl.
  destruct (Z.eqb_spec x (fst r)); auto. subst. simpl in H. tauto.
Qed.

(** On a frame with unique labels, looking up a sub-sequence of its own
    index is the same as filtering its rows. *)
Lemma loc_filter_index {A} (data : Frame.t A) p :
  NoDup (Frame.index data) ->
  loc data (filter p (Frame.index data)) = filter (fun r => p (fst r)) data.
Proof.
  induction data as [| r data IH]; simpl; intros Hnd; auto.
  inversion Hnd as [| ? ? Hr Hnd']; subst.
  destruct (p (fst r)) eqn:E.
  - change (loc (r :: data) (fst r :: filter p (Frame.index data)))
      with (Frame.select (Z.eqb (fst r)) (r :: data)
            ++ loc (r :: data) (filter p (Frame.index data)))%list.
    unfold Frame.select at 1. simpl. rewrite Z.eqb_refl.
    fold (Frame.select (Z.eqb (fst r)) data).
    rewrite select_absent by assumption. simpl. f_equal.
    rewrite loc_cons_fresh; auto.
    rewrite filter_In. tauto.
  - rewrite loc_cons_fresh; auto. rewrite filter_In. tauto.
Qed.

Lemma filter_index {A} (data : Frame.t A) p :
  filter p (Frame.index data) = Frame.index (filter (fun r => p (fst r)) data).
Proof.
  induction data as [| r data IH]; simpl; auto.
  destruct (p (fst r)); simpl; congruence.
Qed.

Lemma index_length {A} (data : Frame.t A) :
  List.length (Frame.index data) = List.length data.
Proof. apply length_map. Qed.

Lemma shared_symmetric ix1 ix2 :
  NoDup ix1 -> NoDup ix2 ->
  List.length (filter (fun x => Frame.mem x ix2) ix1)
  = List.length (filter (fun x => Frame.mem x ix1) ix2).
Proof.
  intros H1 H2. apply Permutation_length.
  apply NoDup_Permutation; auto using NoDup_filter.
  intros x. rewrite !filter_In, !mem_In. tauto.
Qed.

Section Pair.
Context {A B : Type}.

(** C9, as amended. On frames without repeated labels the two results
    have one length, the number of rows of either frame whose label the
    other frame holds too, and a frame intersected with itself comes
    back unchanged; frames with no common label give two empty frames,
    whether or not labels repeat. *)
Theorem intersect_unique_labels (a : Frame.t A) (b : Frame.t B) :
  (NoDup (Frame.index a) -> NoDup (Frame.index b) ->
   List.length (fst (intersect a b)) = List.length (snd (intersect a b))
   /\ List.length (fst (intersect a b))
      = List.length (filter (fun r => Frame.mem (fst r) (Frame.index b)) a)
   /\ List.length (snd (intersect a b))
      = List.length (filter (fun r => Frame.mem (fst r) (Frame.index a)) b)
   /\ intersect a a = (a, a))
  /\ ((forall x, In x (Frame.index a) -> ~ In x (Frame.index b)) ->
      intersect a b = ([], [])).
Proof.
  split.
  - intros Ha Hb. unfold intersect, intersection. cbn [fst snd].
    assert (Hf : NoDup (filter (fun x => Frame.mem x (Frame.index b)) (Frame.index a)))
      by now apply NoDup_filter.
    rewrite !(unique_NoDup _ Hf).
    assert (La : List.length (loc a (filter (fun x => Frame.mem x (Frame.index b))
                                            (Frame.index a)))
                 = List.length (filter (fun r => Frame.mem (fst r) (Frame.index b)) a)).
    { now rewrite loc_filter_index. }
    assert (Lb : List.length (loc b (filter (fun x => Frame.mem x (Frame.index b))
                                            (Frame.index a)))
                 = List.length (filter (fun x => Frame.mem x (Frame.index b))
                                       (Frame.index a))).
    { apply loc_length; auto. intros x Hx.
      apply filter_In in Hx. now apply mem_In. }
    assert (Lc : List.length (filter (fun x => Frame.mem x (Frame.index b))
                                     (Frame.index a))
                 = List.length (filter (fun r => Frame.mem (fst r) (Frame.index b)) a)).
    { now rewrite filter_index, index_length. }
    repeat split.
    + congruence.
    + exact La.
    + rewrite Lb, shared_symmetric by assumption.
      now rewrite filter_index, index_length.
    + assert (E : filter (fun x => Frame.mem x (Frame.index a)) (Frame.index a)
                  = Frame.index a).
      { apply filter_all. intros x. apply mem_In. }
      rewrite E, (unique_NoDup _ Ha).
      assert (L : loc a (Frame.index a) = a).
      { rewrite <- E at 1. rewrite loc_filter_index by assumption.
        apply filter_all. intros r Hr. apply mem_In.
        unfold Frame.index. now apply in_map. }
      now rewrite L.
  - intros Hd. unfold intersect, intersection.
    rewrite filter_none; [reflexivity |].
    intros x Hx. apply not_true_is_false. rewrite mem_In. now apply Hd.
Qed.
End Pair.

End IntersectorFacts.

Module GrouperFacts.
Import Grouper.

Lemma np_diff_cons a b l : np_diff (a :: b :: l) = td_sub b a :: np_diff (b :: l).
Proof. reflexivity. Qed.

Lemma cumsum_from_shift b a l :
  cumsum_from (b + a) l = map (Z.add b) (cumsum_from a l).
Proof.
  revert a. induction l as [| x l IH]; intros a; simpl; auto.
  rewrite <- Z.add_assoc. now rewrite IH.
Qed.

Section Runs.
Context {X : Type}.
Variable threshold : Timedelta.

Lemma labels_cons (r r' : Frame.row X) rest :
  labels (r :: r' :: rest) threshold
  = 0 :: map (Z.add (step threshold r r')) (labels (r' :: rest) threshold).
Proof.
  unfold labels, cumsum. cbn [Frame.index map diff].
  rewrite np_diff_cons. cbn [map gt cumsum_from].
  f_equal. rewrite Z.add_0_l.
  change (0 + 0) with 0. cbn [map]. unfold step.
  fold (exceeds threshold (fst r) (fst r')).
  f_equal.
  - destruct (exceeds threshold (fst r) (fst r')); reflexivity.
  - rewrite <- cumsum_from_shift, Z.add_0_r.
    destruct (exceeds threshold (fst r) (fst r')); reflexivity.
Qed.

Lemma add_to_group_shift b k (d : Frame.row X) (gs : list (Z * list (Frame.row X))) :
  add_to_group (b + k) d (map (shift b) gs) = map (shift b) (add_to_group k d gs).
Proof.
  induction gs as [| [k' g] gs IH]; simpl.
  - reflexivity.
  - unfold shift at 1. cbn [fst snd].
    replace (b + k <? b + k') with (k <? k')
      by (destruct (Z.ltb_spec k k'), (Z.ltb_spec (b + k) (b + k')); auto; lia).
    replace (b + k =? b + k') with (k =? k')
      by (destruct (Z.eqb_spec k k'), (Z.eqb_spec (b + k) (b + k')); auto; lia).
    destruct (k <? k'); [reflexivity |].
    destruct (k =? k'); [reflexivity |].
    cbn [map]. now rewrite IH.
Qed.

Lemma groupby_shift b (data : list (Frame.row X)) ks :
  groupby data (map (Z.add b) ks) = map (shift b) (groupby data ks).
Proof.
  unfold groupby. revert ks.
  induction data as [| d data IH]; intros [| k ks]; simpl; auto.
  rewrite IH. apply add_to_group_shift.
Qed.

Lemma label_from_shift b k (l : list (list (Frame.row X))) :
  map (shift b) (label_from k l) = label_from (b + k) l.
Proof.
  revert k. induction l as [| x l IH]; intros k; simpl; auto.
  rewrite IH. unfold shift. simpl. now rewrite Z.add_assoc.
Qed.

Lemma runs_cons (r r' : Frame.row X) rest :
  runs threshold (r :: r' :: rest)
  = match runs threshold (r' :: rest) with
    | [] => [[r]]
    | g :: gs => if exceeds threshold (fst r) (fst r') then [r] :: g :: gs
                 else (r :: g) :: gs
    end.
Proof. reflexivity. Qed.

Lemma runs_head (r : Frame.row X) rest :
  exists g gs, runs threshold (r :: rest) = (r :: g) :: gs.
Proof.
  destruct rest as [| r' rest]; [simpl; now eauto |].
  rewrite runs_cons.
  destruct (runs threshold (r' :: rest)); [now eauto |].
  destruct (exceeds threshold (fst r) (fst r')); eauto.
Qed.

(** [consecutives] splits the rows where [runs] does, and numbers the
    runs from 0. *)
Lemma consecutives_runs (data : Frame.t X) :
  consecutives data threshold = label_from 0 (runs threshold data).
Proof.
  unfold consecutives.
  induction data as [| r [| r' rest] IH]; [reflexivity | reflexivity |].
  rewrite labels_cons.
  change (groupby (r :: r' :: rest) (0 :: map (Z.add (step threshold r r')) (labels (r' :: rest) threshold)))
    with (add_to_group 0 r (groupby (r' :: rest)
                                    (map (Z.add (step threshold r r')) (labels (r' :: rest) threshold)))).
  rewrite groupby_shift, IH, label_from_shift.
  destruct (runs_head r' rest) as [g [gs E]].
  rewrite runs_cons, E. unfold step.
  destruct (exceeds threshold (fst r) (fst r')); reflexivity.
Qed.

Lemma concat_runs (data : Frame.t X) : List.concat (runs threshold data) = data.
Proof.
  induction data as [| r [| r' rest] IH]; [reflexivity | reflexivity |].
  rewrite runs_cons. destruct (runs_head r' rest) as [g [gs E]].
  rewrite E in *. destruct (exceeds threshold (fst r) (fst r')).
  - cbn [List.concat app]. f_equal. exact IH.
  - cbn [List.concat app] in *. f_equal. exact IH.
Qed.

(** A step that fits a [Timedelta] is compared as it is. *)
Lemma exceeds_fit a b :
  Int64.min < b - a <= Int64.max ->
  exceeds threshold a b = (threshold <? b - a).
Proof.
  intros H. unfold exceeds, td_sub, Int64.wrap, of_i8, NaT.
  unfold Int64.min, Int64.max in *.
  assert (E : (b - a + 2 ^ 63) mod 2 ^ 64 - 2 ^ 63 = b - a).
  { rewrite Z.mod_small by lia. lia. }
  rewrite E. destruct (Z.eqb_spec (b - a) (- 2 ^ 63)); [lia | reflexivity].
Qed.

Lemma steps_fit_tail a ix : steps_fit (a :: ix) -> steps_fit ix.
Proof. destruct ix; simpl; tauto. Qed.

Lemma well_split_runs (data : Frame.t X) :
  steps_fit (Frame.index data) -> well_split threshold (runs threshold data).
Proof.
  induction data as [| r [| r' rest] IH]; intros Hf.
  - exact I.
  - simpl. repeat split; auto. discriminate.
  - rewrite runs_cons. destruct (runs_head r' rest) as [g [gs E]].
    rewrite E in *.
    assert (Hstep : Int64.min < fst r' - fst r <= Int64.max)
      by (cbn [Frame.index map steps_fit] in Hf; tauto).
    apply steps_fit_tail in Hf.
    destruct (IH Hf) as [_ [Hc [Hn Hw]]].
    rewrite (exceeds_fit _ _ Hstep).
    destruct (Z.ltb_spec threshold (fst r' - fst r)) as [Hgap | Hgap].
    + cbn [well_split]. repeat split; auto; try discriminate;
        try (simpl; lia).
    + cbn [well_split]. repeat split; auto; try discriminate;
        try (cbn [Frame.index map close] in *; split; auto; lia).
Qed.

Lemma close_tail p ix : close threshold (p :: ix) -> close threshold ix.
Proof. destruct ix; simpl; tauto. Qed.

Lemma close_adjacent ix pre a b post :
  close threshold ix -> ix = (pre ++ a :: b :: post)%list -> b - a <= threshold.
Proof.
  revert ix. induction pre as [| p pre IH]; intros ix Hc ->.
  - simpl in Hc. tauto.
  - apply close_tail in Hc. apply (IH _ Hc eq_refl).
Qed.

Lemma well_split_In gs (g : list (Frame.row X)) :
  well_split threshold gs -> In g gs -> g <> [] /\ close threshold (Frame.index g).
Proof.
  induction gs as [| g0 gs IH]; simpl; [tauto |].
  intros [Hn [Hc [_ Hw]]] [<- | Hin]; auto.
Qed.

Lemma well_split_gap gs pre (g1 g2 : list (Frame.row X)) post :
  well_split threshold gs -> gs = (pre ++ g1 :: g2 :: post)%list ->
  threshold < hd 0 (Frame.index g2) - last (Frame.index g1) 0.
Proof.
  revert gs. induction pre as [| p pre IH]; intros gs Hw ->.
  - simpl in Hw. tauto.
  - simpl in Hw. destruct Hw as [_ [_ [_ Hw]]]. apply (IH _ Hw eq_refl).
Qed.
End Runs.
End GrouperFacts.

Module GrouperTheorems.
Import Grouper GrouperFacts.

Lemma label_from_fst {X} n (l : list X) :
  map fst (label_from (Z.of_nat n) l) = map Z.of_nat (seq n (List.length l)).
Proof.
  revert n. induction l as [| x l IH]; intros n; simpl; auto.
  f_equal. rewrite <- IH. do 2 f_equal. lia.
Qed.

Lemma label_from_snd {X} k (l : list X) : map snd (label_from k l) = l.
Proof. revert k. induction l; intros k; simpl; congruence. Qed.

Lemma label_from_length {X} k (l : list X) :
  List.length (label_from k l) = List.length l.
Proof. revert k. induction l; intros k; simpl; auto. Qed.

Lemma sorted_app_order (R : Z -> Z -> Prop) l1 l2 a b :
  (forall x y z, R x y -> R y z -> R x z) ->
  Sorted R (l1 ++ l2) -> In a l1 -> In b l2 -> R a b.
Proof.
  intros Htr Hs. apply Sorted_StronglySorted in Hs; [| exact Htr].
  induction l1 as [| x l1 IH]; simpl in *; [tauto |].
  inversion Hs as [| ? ? Hs' Hall]; subst.
  intros [-> | Ha] Hb.
  - rewrite Forall_forall in Hall. apply Hall, in_or_app. now right.
  - now apply IH.
Qed.

Lemma index_concat {X} (gs : list (Frame.t X)) :
  Frame.index (List.concat gs) = List.concat (map Frame.index gs).
Proof. unfold Frame.index. apply concat_map. Qed.

Lemma runs_order {X} (R : Z -> Z -> Prop) (data : Frame.t X) gs pre g1 mid g2 post a b :
  (forall x y z, R x y -> R y z -> R x z) ->
  Sorted R (Frame.index data) ->
  List.concat gs = data ->
  gs = (pre ++ g1 :: mid ++ g2 :: post)%list ->
  In a (Frame.index g1) -> In b (Frame.index g2) -> R a b.
Proof.
  intros Htr Hs <- -> Ha Hb.
  rewrite index_concat, map_app in Hs. cbn [map] in Hs.
  rewrite map_app in Hs. cbn [map] in Hs.
  rewrite concat_app in Hs. cbn [List.concat] in Hs.
  rewrite concat_app in Hs. cbn [List.concat] in Hs.
  rewrite app_assoc in Hs.
  eapply (sorted_app_order R _ _ a b Htr Hs).
  - apply in_or_app. now right.
  - apply in_or_app. right. apply in_or_app. now left.
Qed.

Lemma runs_nonempty {X} threshold (data : Frame.t X) g :
  In g (runs threshold data) -> g <> [].
Proof.
  revert g. induction data as [| r [| r' rest] IH]; intros g.
  - simpl. tauto.
  - simpl. intros [<- | []]. discriminate.
  - rewrite runs_cons. destruct (runs_head threshold r' rest) as [g0 [gs E]].
    rewrite E in *.
    destruct (exceeds threshold (fst r) (fst r')).
    + intros [<- | H]; [discriminate | now apply IH].
    + intros [<- | H]; [discriminate | apply IH; now right].
Qed.

(** On time-ordered data whose first and last timestamp are no more than
    the largest [Timedelta] apart, every step fits. *)
Lemma sorted_steps_fit ix :
  Sorted Z.le ix -> last ix 0 - hd 0 ix <= Int64.max -> steps_fit ix.
Proof.
  intros Hs. apply Sorted_StronglySorted in Hs; [| intros x y z; lia].
  induction Hs as [| a ix Hs IH Hall]; [exact (fun _ => I) |].
  destruct ix as [| b ix]; [exact (fun _ => I) |].
  intros Hspan. cbn [steps_fit hd] in *.
  assert (Hab : a <= b) by (inversion Hall; assumption).
  assert (Hl : last (a :: b :: ix) 0 = last (b :: ix) 0) by reflexivity.
  rewrite Hl in Hspan.
  assert (Hb : b <= last (b :: ix) 0).
  { clear - Hs. inversion Hs as [| ? ? _ Hall']; subst.
    destruct ix as [| c ix]; [simpl; lia |].
    rewrite Forall_forall in Hall'. apply Hall'.
    change (last (b :: c :: ix) 0) with (last (c :: ix) 0).
    assert (Hne : c :: ix <> []) by discriminate.
    destruct (exists_last Hne) as [pre [z E]].
    rewrite E, last_last. apply in_or_app. right. now left. }
  split.
  - unfold Int64.min, Int64.max in *. lia.
  - apply IH. lia.
Qed.

(** C2, as amended. The runs of [consecutives], in order, make up the
    data again; their labels count up from 0; no run is empty; on
    time-ordered data an earlier run holds earlier timestamps (strictly
    earlier, hence no shared row, when timestamps do not repeat).  When
    every step between adjacent timestamps fits a 64-bit [Timedelta],
    adjacent timestamps inside a run are at most the threshold apart and
    the gap from the last row of a run to the first row of the next is
    above the threshold. *)
Theorem consecutives_partition {X} (data : Frame.t X) (threshold : Timedelta) :
  let grouped := consecutives data threshold in
  let rs := map snd grouped in
  List.concat rs = data
  /\ map fst grouped = map Z.of_nat (seq 0 (List.length grouped))
  /\ (forall g, In g rs -> g <> [])
  /\ (steps_fit (Frame.index data) ->
      forall g pre a b post,
        In g rs -> Frame.index g = (pre ++ a :: b :: post)%list ->
        b - a <= threshold)
  /\ (steps_fit (Frame.index data) ->
      forall pre g1 g2 post,
        rs = (pre ++ g1 :: g2 :: post)%list ->
        threshold < hd 0 (Frame.index g2) - last (Frame.index g1) 0)
  /\ (Sorted Z.le (Frame.index data) ->
      forall pre g1 mid g2 post a b,
        rs = (pre ++ g1 :: mid ++ g2 :: post)%list ->
        In a (Frame.index g1) -> In b (Frame.index g2) -> a <= b)
  /\ (Sorted Z.lt (Frame.index data) ->
      forall pre g1 mid g2 post a b,
        rs = (pre ++ g1 :: mid ++ g2 :: post)%list ->
        In a (Frame.index g1) -> In b (Frame.index g2) -> a < b).
Proof.
  intros grouped rs.
  assert (Ers : rs = runs threshold data).
  { unfold rs, grouped. now rewrite consecutives_runs, label_from_snd. }
  pose proof (concat_runs threshold data) as Hc.
  rewrite <- Ers in Hc.
  split; [exact Hc |].
  split.
  { unfold grouped. rewrite consecutives_runs, label_from_length.
    apply (label_from_fst 0). }
  split; [intros g Hg; rewrite Ers in Hg; now apply (runs_nonempty threshold data) |].
  split.
  { intros Hf g pre a b post Hg E.
    pose proof (well_split_runs threshold data Hf) as Hw. rewrite <- Ers in Hw.
    apply (close_adjacent threshold (Frame.index g) pre a b post); auto.
    now apply (well_split_In threshold rs g Hw). }
  split.
  { intros Hf pre g1 g2 post E.
    pose proof (well_split_runs threshold data Hf) as Hw. rewrite <- Ers in Hw.
    now apply (well_split_gap threshold rs pre g1 g2 post). }
  split.
  - intros Hs pre g1 mid g2 post a b E.
    apply (runs_order Z.le data rs pre g1 mid g2 post a b); auto.
    intros x y z; lia.
  - intros Hs pre g1 mid g2 post a b E.
    apply (runs_order Z.lt data rs pre g1 mid g2 post a b); auto.
    intros x y z; lia.
Qed.
End GrouperTheorems.

Module Float64Facts.
Import Float64.

Lemma log2_abs_lt m b : 0 <= b -> Z.abs m < 2 ^ b -> Z.log2 (Z.abs m) < b \/ m = 0.
Proof.
  intros Hb H. destruct (Z.eq_dec m 0) as [-> | Hm]; [now right | left].
  apply Z.log2_lt_pow2; lia.
Qed.

(** A number of at most 53 bits, in the range of the exponent, is a
    float64 as it is. *)
Lemma round_small m e :
  m <> 0 -> Z.abs m < 2 ^ 53 -> - 1074 <= e <= 970 ->
  round m e = Finite m e.
Proof.
  intros Hm Hb He. unfold round.
  assert (Hl : Z.log2 (Z.abs m) < 53) by (apply Z.log2_lt_pow2; lia).
  assert (Hs : Z.max (Z.log2 (Z.abs m) - 52) (- 1074 - e) <= 0) by lia.
  destruct (Z.ltb_spec 0 (Z.max (Z.log2 (Z.abs m) - 52) (- 1074 - e))); [lia |].
  destruct (Z.eqb_spec m 0); [contradiction |].
  destruct (Z.leb_spec 1024 (Z.log2 (Z.abs m) + e)); [lia | reflexivity].
Qed.

Lemma round_zero e : round 0 e = Finite 0 0.
Proof.
  unfold round. cbn [Z.abs]. change (Z.log2 0) with 0.
  destruct (0 <? Z.max (0 - 52) (- 1074 - e)).
  - unfold round_half_even. rewrite Zdiv_0_l, Zmod_0_l.
    destruct (0 <? 2 ^ (Z.max (0 - 52) (-1074 - e) - 1)); [reflexivity |].
    pose proof (Z.pow_nonneg 2 (Z.max (0 - 52) (-1074 - e) - 1) ltac:(lia)).
    destruct (Z.ltb_spec (2 ^ (Z.max (0 - 52) (-1074 - e) - 1)) 0); [lia |].
    reflexivity.
  - reflexivity.
Qed.

Lemma abs_div_pow2 m s :
  0 <= s -> (2 ^ s | m) -> Z.abs (m / 2 ^ s) * 2 ^ s = Z.abs m.
Proof.
  intros Hs [c ->]. rewrite Z.div_mul by (apply Z.pow_nonzero; lia).
  rewrite Z.abs_mul, (Z.abs_eq (2 ^ s)) by (apply Z.pow_nonneg; lia). reflexivity.
Qed.

(** A number whose bits above the lowest [k] number at most 53 is a
    float64 too: rounding only moves zero bits into the exponent. *)
Lemma round_exact m e k :
  m <> 0 -> 0 <= k -> (2 ^ k | m) -> Z.abs m < 2 ^ (53 + k) ->
  - 1074 <= e -> Z.log2 (Z.abs m) + e < 1024 ->
  exists s, 0 <= s <= k /\ (2 ^ s | m) /\ Z.abs (m / 2 ^ s) < 2 ^ 53
            /\ m / 2 ^ s <> 0
            /\ round m e = Finite (m / 2 ^ s) (e + s).
Proof.
  intros Hm Hk Hdiv Hb He Hov.
  assert (Hl : Z.log2 (Z.abs m) < 53 + k) by (apply Z.log2_lt_pow2; lia).
  unfold round.
  set (s := Z.max (Z.log2 (Z.abs m) - 52) (- 1074 - e)).
  destruct (Z.ltb_spec 0 s) as [Hs | Hs].
  - assert (Es : s = Z.log2 (Z.abs m) - 52) by lia.
    assert (Hsk : s <= k) by lia.
    assert (Hd : (2 ^ s | m)).
    { destruct Hdiv as [c ->]. exists (c * 2 ^ (k - s)).
      rewrite <- Z.mul_assoc, <- Z.pow_add_r by lia. do 2 f_equal. lia. }
    exists s. split; [lia |]. split; [exact Hd |].
    assert (Hq : round_half_even m s = m / 2 ^ s).
    { unfold round_half_even.
      assert (Hr : m mod 2 ^ s = 0)
        by (apply Z.mod_divide; [apply Z.pow_nonzero; lia | exact Hd]).
      rewrite Hr.
      assert (0 < 2 ^ (s - 1)) by (apply Z.pow_pos_nonneg; lia).
      destruct (Z.ltb_spec 0 (2 ^ (s - 1))); [reflexivity | lia]. }
    rewrite Hq.
    pose proof (abs_div_pow2 m s ltac:(lia) Hd) as Habs.
    assert (Hp : 0 < 2 ^ s) by (apply Z.pow_pos_nonneg; lia).
    assert (Hq0 : m / 2 ^ s <> 0).
    { intros E. rewrite E in Habs. simpl in Habs. lia. }
    assert (Hlog : Z.log2 (Z.abs (m / 2 ^ s)) = Z.log2 (Z.abs m) - s).
    { rewrite <- Habs. rewrite Z.log2_mul_pow2 by lia. lia. }
    assert (Hlt : Z.abs (m / 2 ^ s) < 2 ^ 53).
    { apply Z.log2_lt_pow2; lia. }
    split; [exact Hlt |]. split; [exact Hq0 |].
    destruct (Z.eqb_spec (m / 2 ^ s) 0); [contradiction |].
    rewrite Hlog.
    destruct (Z.leb_spec 1024 (Z.log2 (Z.abs m) - s + (e + s))); [lia | reflexivity].
  - exists 0. rewrite Z.pow_0_r, Z.div_1_r, Z.add_0_r.
    split; [lia |]. split; [apply Z.divide_1_l |].
    assert (Hlt : Z.abs m < 2 ^ 53) by (apply Z.log2_lt_pow2; lia).
    split; [exact Hlt |]. split; [exact Hm |].
    destruct (Z.eqb_spec m 0); [contradiction |].
    destruct (Z.leb_spec 1024 (Z.log2 (Z.abs m) + e)); [lia | reflexivity].
Qed.

Lemma cast_fits z :
  Int64.min < z < 2 ^ 63 ->
  (if (Int64.min <? z) && (z <? 2 ^ 63) then z else Int64.min) = z.
Proof.
  intros [H1 H2]. apply Z.ltb_lt in H1, H2. now rewrite H1, H2.
Qed.

Lemma log2_abs_bound m b : m <> 0 -> Z.abs m < 2 ^ b -> Z.log2 (Z.abs m) < b.
Proof. intros Hm H. apply Z.log2_lt_pow2; lia. Qed.

(** A count whose bits above the lowest [k] number at most 53 survives
    the passage through float64. *)
Lemma to_int64_of_int64 z k :
  0 <= k -> (2 ^ k | z) -> Z.abs z < 2 ^ (53 + k) -> Z.abs z < 2 ^ 63 ->
  to_int64 (of_int64 z) = z.
Proof.
  intros Hk Hd Hb Hr. unfold of_int64.
  destruct (Z.eq_dec z 0) as [-> | Hz]; [now rewrite round_zero |].
  assert (Hov : Z.log2 (Z.abs z) + 0 < 1024).
  { pose proof (log2_abs_bound z 63 Hz Hr). lia. }
  destruct (round_exact z 0 k Hz Hk Hd Hb ltac:(lia) Hov)
    as [s [Hs [Hds [_ [_ E]]]]].
  rewrite E, Z.add_0_l. unfold to_int64.
  destruct (Z.leb_spec 0 s); [| lia].
  assert (Ez : z / 2 ^ s * 2 ^ s = z).
  { destruct Hds as [c ->].
    now rewrite Z.div_mul by (apply Z.pow_nonzero; lia). }
  rewrite Ez. apply cast_fits. unfold Int64.min. lia.
Qed.
End Float64Facts.

Module TrapzFacts.
Import Grouper GrouperFacts GrouperTheorems Float64Facts.

Lemma wrap_small z : Int64.min <= z <= Int64.max -> Int64.wrap z = z.
Proof.
  unfold Int64.wrap, Int64.min, Int64.max. intros H.
  rewrite Z.mod_small by lia. lia.
Qed.

Lemma consecutives_pair {X} (r1 r2 : Frame.row X) threshold :
  exceeds threshold (fst r1) (fst r2) = false ->
  consecutives [r1; r2] threshold = [(0, [r1; r2])].
Proof.
  intros H. rewrite consecutives_runs, runs_cons. cbn [runs].
  now rewrite H.
Qed.

Lemma td_sub_hour t0 : td_sub (t0 + hour) t0 = hour.
Proof.
  unfold td_sub. replace (t0 + hour - t0) with hour by lia. reflexivity.
Qed.

Lemma exceeds_hour t0 offset :
  match offset with None => True | Some o => hour <= o end ->
  exceeds match offset with Some o => o | None => Timedelta_max end
          t0 (t0 + hour) = false.
Proof.
  intros H. unfold exceeds. rewrite td_sub_hour.
  change (of_i8 hour) with (Some hour). cbn [gt].
  destruct offset as [o |]; [apply Z.ltb_ge; exact H | reflexivity].
Qed.

Lemma np_trapz_pair y0 y1 x0 x1 :
  np_trapz [y0; y1] [x0; x1]
  = td_add 0 (td_div2 (td_mul (td_sub x1 x0) (Float64.add y1 y0))).
Proof. reflexivity. Qed.

Lemma td_add_0 d : Int64.min < d <= Int64.max -> td_add 0 d = d.
Proof.
  intros H. unfold td_add, NaT. cbn [Z.eqb orb].
  destruct (Z.eqb_spec d Int64.min); [lia |].
  rewrite Z.add_0_l. apply wrap_small. lia.
Qed.

Lemma hour_pow2 : hour = 2 ^ 13 * 439453125.
Proof. reflexivity. Qed.

(** A whole hour times a float64. *)
Lemma td_mul_hour m e :
  td_mul hour (Float64.Finite m e)
  = Float64.to_int64 (Float64.round (hour * m) e).
Proof. reflexivity. Qed.

Lemma td_mul_hour_whole m :
  Z.abs (hour * m) < 2 ^ 63 -> td_mul hour (Float64.Finite m 0) = hour * m.
Proof.
  intros H. rewrite td_mul_hour.
  apply (to_int64_of_int64 (hour * m) 13).
  - lia.
  - rewrite hour_pow2, <- Z.mul_assoc. apply Z.divide_factor_l.
  - change (2 ^ (53 + 13)) with 73786976294838206464.
    change (2 ^ 63) with 9223372036854775808 in H. lia.
  - exact H.
Qed.

(** Halving a count whose bits above the lowest [k] number at most 53. *)
Lemma td_div2_exact t k :
  1 <= k <= 64 -> (2 ^ k | t) -> Z.abs t < 2 ^ (53 + k) -> Z.abs t < 2 ^ 63 ->
  td_div2 t = t / 2.
Proof.
  intros Hk Hd Hb Hr. unfold td_div2, NaT, Int64.min.
  destruct (Z.eqb_spec t (- 2 ^ 63)) as [E | _]; [lia |].
  destruct (Z.eq_dec t 0) as [-> | Ht]; [reflexivity |].
  assert (Hov : Z.log2 (Z.abs t) + 0 < 1024).
  { pose proof (log2_abs_bound t 63 Ht Hr). lia. }
  unfold Float64.of_int64.
  destruct (round_exact t 0 k Ht ltac:(lia) Hd Hb ltac:(lia) Hov)
    as [s [Hs [Hds [Hlt [Hq0 E]]]]].
  rewrite E, Z.add_0_l. cbn [Float64.half].
  rewrite (round_small _ (s - 1) Hq0 Hlt) by lia.
  assert (H2 : (2 | t)).
  { destruct Hd as [c ->]. exists (c * 2 ^ (k - 1)).
    rewrite <- Z.mul_assoc. f_equal.
    rewrite <- (Z.pow_1_r 2) at 3. rewrite <- Z.pow_add_r by lia. f_equal. lia. }
  destruct H2 as [u Eu].
  assert (Ehalf : t / 2 = u) by (subst t; apply Z.div_mul; lia).
  unfold Float64.to_int64.
  assert (Ez : (if 0 <=? s - 1 then t / 2 ^ s * 2 ^ (s - 1)
                else Z.quot (t / 2 ^ s) (2 ^ (- (s - 1)))) = u).
  { destruct (Z.leb_spec 0 (s - 1)).
    - destruct Hds as [c Ec].
      assert (Hp : 2 ^ s = 2 ^ (s - 1) * 2).
      { rewrite <- (Z.pow_1_r 2) at 3. rewrite <- Z.pow_add_r by lia. f_equal. lia. }
      rewrite Ec, Z.div_mul by (apply Z.pow_nonzero; lia).
      assert (0 < 2 ^ (s - 1)) by (apply Z.pow_pos_nonneg; lia).
      nia.
    - assert (s = 0) by lia. subst s.
      rewrite Z.pow_0_r, Z.div_1_r. change (2 ^ (- (0 - 1))) with 2.
      rewrite Eu. apply Z.quot_mul. lia. }
  rewrite Ez, Ehalf. apply cast_fits. unfold Int64.min. lia.
Qed.

(** Halving a count below [2 ^ 53] that is not negative. *)
Lemma td_div2_small z : 0 <= z < 2 ^ 53 -> td_div2 z = z / 2.
Proof.
  intros H. unfold td_div2, NaT, Int64.min.
  destruct (Z.eqb_spec z (- 2 ^ 63)) as [E | _]; [lia |].
  destruct (Z.eq_dec z 0) as [-> | Hz]; [reflexivity |].
  unfold Float64.of_int64.
  rewrite (round_small z 0 Hz) by lia. cbn [Float64.half].
  rewrite (round_small z (0 - 1) Hz) by lia.
  unfold Float64.to_int64. cbn [Z.sub Z.add Z.opp Z.pos_sub Z.leb Z.compare].
  change (2 ^ (- (0 - 1))) with 2.
  rewrite Z.quot_div_nonneg by lia.
  assert (0 <= z / 2 < 2 ^ 53).
  { split; [apply Z.div_pos; lia |].
    apply Z.div_lt_upper_bound; lia. }
  apply cast_fits. unfold Int64.min.
  change (2 ^ 63) with 9223372036854775808.
  change (2 ^ 53) with 9007199254740992 in *. lia.
Qed.

Lemma add_whole v :
  Z.abs (2 * v) < 2 ^ 53 ->
  Float64.add (Float64.of_Z v) (Float64.of_Z v) = Float64.Finite (2 * v) 0.
Proof.
  intros H. unfold Float64.add, Float64.of_Z.
  change (Z.min 0 0) with 0. rewrite Z.sub_0_r, Z.pow_0_r, Z.mul_1_r.
  replace (v + v) with (2 * v) by lia.
  destruct (Z.eq_dec v 0) as [-> | Hv]; [reflexivity |].
  apply round_small; lia.
Qed.

(** One hour at a constant whole power [v]. *)
Lemma constant_hour_whole (v : Z) :
  Z.abs v <= 1281023 ->
  td_div2 (td_mul hour (Float64.add (Float64.of_Z v) (Float64.of_Z v))) = hour * v.
Proof.
  intros Hv.
  assert (Hr : Z.abs (hour * (2 * v)) < 2 ^ 63).
  { unfold hour. change (2 ^ 63) with 9223372036854775808. lia. }
  rewrite add_whole by (change (2 ^ 53) with 9007199254740992; lia).
  rewrite td_mul_hour_whole by exact Hr.
  rewrite (td_div2_exact (hour * (2 * v)) 14).
  - replace (hour * (2 * v)) with (hour * v * 2) by lia.
    apply Z.div_mul. lia.
  - lia.
  - rewrite hour_pow2. exists (439453125 * v).
    change (2 ^ 14) with (2 ^ 13 * 2). lia.
  - change (2 ^ (53 + 14)) with 147573952589676412928.
    change (2 ^ 63) with 9223372036854775808 in Hr. lia.
  - exact Hr.
Qed.

Lemma add_same m e :
  m <> 0 -> Z.abs (2 * m) < 2 ^ 53 -> - 1074 <= e <= 970 ->
  Float64.add (Float64.Finite m e) (Float64.Finite m e)
  = Float64.Finite (2 * m) e.
Proof.
  intros Hm Hb He. unfold Float64.add.
  rewrite Z.min_id, Z.sub_diag, Z.pow_0_r, Z.mul_1_r.
  replace (m + m) with (2 * m) by lia.
  apply round_small; lia.
Qed.

(** The cast of a positive float64 drops the fraction. *)
Lemma to_int64_round_floor m e k :
  0 < m -> 0 <= k -> (2 ^ k | m) -> m < 2 ^ (53 + k) ->
  - 1074 <= e <= 0 -> m / 2 ^ (- e) < 2 ^ 63 ->
  Float64.to_int64 (Float64.round m e) = m / 2 ^ (- e).
Proof.
  intros Hm Hk Hd Hb He Hr.
  assert (Hov : Z.log2 (Z.abs m) + e < 1024).
  { assert (Hp : 0 < 2 ^ (- e)) by (apply Z.pow_pos_nonneg; lia).
    assert (Hlt : m < 2 ^ (63 + - e)).
    { rewrite Z.pow_add_r by lia.
      pose proof (Z.div_mod m (2 ^ (- e)) ltac:(lia)).
      pose proof (Z.mod_pos_bound m (2 ^ (- e)) Hp). nia. }
    apply Z.log2_lt_pow2 in Hlt; [| lia].
    rewrite Z.abs_eq by lia. lia. }
  destruct (round_exact m e k ltac:(lia) Hk Hd ltac:(lia) ltac:(lia) Hov)
    as [s [Hs [Hds [_ [_ E]]]]].
  rewrite E. unfold Float64.to_int64.
  assert (Ps : 0 < 2 ^ s) by (apply Z.pow_pos_nonneg; lia).
  assert (Ez : (if 0 <=? e + s then m / 2 ^ s * 2 ^ (e + s)
                else Z.quot (m / 2 ^ s) (2 ^ (- (e + s)))) = m / 2 ^ (- e)).
  { destruct Hds as [c Ec]. rewrite Ec, Z.div_mul by lia.
    destruct (Z.leb_spec 0 (e + s)).
    - replace s with (e + s + - e) at 2 by lia.
      rewrite (Z.pow_add_r 2 (e + s) (- e)) by lia. rewrite Z.mul_assoc.
      rewrite Z.div_mul by (apply Z.pow_nonzero; lia). reflexivity.
    - assert (Hc : 0 <= c) by nia.
      rewrite Z.quot_div_nonneg
        by (try lia; apply Z.pow_pos_nonneg; lia).
      replace (- e) with (s + - (e + s)) by lia.
      rewrite (Z.pow_add_r 2 s (- (e + s))) by lia.
      rewrite (Z.mul_comm c), <- Z.div_div by (try lia; apply Z.pow_pos_nonneg; lia).
      rewrite (Z.mul_comm (2 ^ s)), Z.div_mul by lia. reflexivity. }
  rewrite Ez.
  assert (0 <= m / 2 ^ (- e)) by (apply Z.div_pos; [lia | apply Z.pow_pos_nonneg; lia]).
  apply cast_fits. unfold Int64.min. lia.
Qed.

(** One hour at a constant power [m * 2 ^ e] that is not negative. *)
Lemma constant_hour_floor m e :
  0 <= m < 2 ^ 24 -> - 1000 <= e <= 0 -> 2 * hour * m < 2 ^ 53 * 2 ^ (- e) ->
  td_div2 (td_mul hour (Float64.add (Float64.Finite m e) (Float64.Finite m e)))
  / hour
  = m / 2 ^ (- e).
Proof.
  intros Hm He Hr.
  destruct (Z.eq_dec m 0) as [-> | Hm0].
  { unfold Float64.add. rewrite Z.min_id, Z.sub_diag, Z.pow_0_r.
    cbn [Z.mul Z.add]. rewrite round_zero. reflexivity. }
  assert (Pe : 0 < 2 ^ (- e)) by (apply Z.pow_pos_nonneg; lia).
  rewrite add_same by (try lia; change (2 ^ 53) with 9007199254740992;
                       change (2 ^ 24) with 16777216 in Hm; lia).
  rewrite td_mul_hour.
  set (p := hour * (2 * m)).
  assert (Hp : 0 < p) by (unfold p, hour; lia).
  assert (Hz : p / 2 ^ (- e) < 2 ^ 53).
  { apply Z.div_lt_upper_bound; [lia |]. unfold p. lia. }
  rewrite (to_int64_round_floor p e 14).
  - rewrite td_div2_small
      by (split; [apply Z.div_pos; lia | exact Hz]).
    rewrite !Z.div_div by (try lia; unfold hour; lia).
    unfold p.
    replace (hour * (2 * m)) with (m * (2 * hour)) by lia.
    replace (2 ^ (- e) * 2 * hour) with (2 ^ (- e) * (2 * hour)) by lia.
    apply Z.div_mul_cancel_r; unfold hour; lia.
  - exact Hp.
  - lia.
  - unfold p. rewrite hour_pow2. exists (439453125 * m).
    change (2 ^ 14) with (2 ^ 13 * 2). lia.
  - unfold p, hour. change (2 ^ (53 + 14)) with 147573952589676412928.
    change (2 ^ 24) with 16777216 in Hm. lia.
  - lia.
  - change (2 ^ 63) with 9223372036854775808.
    change (2 ^ 53) with 9007199254740992 in Hz. lia.
Qed.

Lemma zip_with_sub_translate t0 l1 l2 :
  zip_with td_sub (map (Z.add t0) l1) (map (Z.add t0) l2) = zip_with td_sub l1 l2.
Proof.
  revert l2. induction l1 as [| a l1 IH]; intros [| b l2]; simpl; auto.
  rewrite IH. f_equal. unfold td_sub. f_equal. lia.
Qed.

Lemma removelast_map {X Y} (f : X -> Y) l :
  removelast (map f l) = map f (removelast l).
Proof.
  induction l as [| a [| b l] IH]; simpl in *; auto. now rewrite IH.
Qed.

Lemma np_diff_translate t0 ix : np_diff (map (Z.add t0) ix) = np_diff ix.
Proof.
  unfold np_diff. rewrite removelast_map.
  destruct ix as [| a ix]; [reflexivity |]. cbn [map tl].
  apply zip_with_sub_translate.
Qed.

Lemma index_translate {X} t0 (data : Frame.t X) :
  Frame.index (translate t0 data) = map (Z.add t0) (Frame.index data).
Proof. unfold Frame.index, translate. rewrite !map_map. reflexivity. Qed.

Lemma values_translate {X} t0 (data : Frame.t X) :
  Frame.values (translate t0 data) = Frame.values data.
Proof. unfold Frame.values, translate. rewrite map_map. reflexivity. Qed.

Lemma approx_kwh_translate t0 g : approx_kwh (translate t0 g) = approx_kwh g.
Proof.
  unfold approx_kwh, np_trapz.
  now rewrite index_translate, values_translate, np_diff_translate.
Qed.

Lemma exceeds_translate threshold t0 a b :
  exceeds threshold (t0 + a) (t0 + b) = exceeds threshold a b.
Proof.
  unfold exceeds, td_sub. now replace (t0 + b - (t0 + a)) with (b - a) by lia.
Qed.

Lemma runs_translate {X} threshold t0 (data : Frame.t X) :
  runs threshold (translate t0 data) = map (translate t0) (runs threshold data).
Proof.
  induction data as [| r [| r' rest] IH]; [reflexivity | reflexivity |].
  unfold translate in *. cbn [map] in *.
  rewrite !runs_cons, IH.
  destruct (runs threshold (r' :: rest)) as [| g gs]; [reflexivity |].
  cbn [fst map].
  rewrite exceeds_translate.
  destruct (exceeds threshold (fst r) (fst r')); reflexivity.
Qed.

Lemma trapz_runs data offset :
  trapz data offset
  = sum (map approx_kwh
             (runs match offset with Some o => o | None => Timedelta_max end data)).
Proof.
  unfold trapz. rewrite consecutives_runs. f_equal.
  generalize (runs match offset with Some o => o | None => Timedelta_max end data).
  intros gs. generalize 0.
  induction gs as [| g gs IH]; intros k; simpl; auto.
  now rewrite IH.
Qed.

(** The total does not depend on where the time axis starts. *)
Lemma trapz_translate t0 data offset :
  trapz (translate t0 data) offset = trapz data offset.
Proof.
  rewrite !trapz_runs, runs_translate, map_map. f_equal.
  apply map_ext. intros g. apply approx_kwh_translate.
Qed.

Lemma hourly_translate t0 n v : hourly t0 n v = translate t0 (hourly 0 n v).
Proof. unfold hourly, translate. rewrite map_map. reflexivity. Qed.

(** Two readings of [v] one hour apart, taken as one run. *)
Lemma trapz_pair t0 (v : Float64.t) offset :
  match offset with None => True | Some o => hour <= o end ->
  trapz [(t0, v); (t0 + hour, v)] offset
  = sum [approx_kwh [(t0, v); (t0 + hour, v)]].
Proof.
  intros Ho. unfold trapz.
  rewrite consecutives_pair by (cbn [fst]; now apply exceeds_hour).
  reflexivity.
Qed.

Lemma approx_kwh_pair t0 (v : Float64.t) :
  approx_kwh [(t0, v); (t0 + hour, v)]
  = let area := td_add 0 (td_div2 (td_mul hour (Float64.add v v))) in
    if area =? NaT then NaT else area / hour.
Proof.
  unfold approx_kwh. cbn [Frame.values Frame.index map fst snd].
  rewrite np_trapz_pair, td_sub_hour. reflexivity.
Qed.

(** C3, as amended. Two readings of a constant power [v] one hour apart,
    taken as one run, integrate to [v] for every whole [v] from -1281023
    to 1281023, and to [v] rounded down for every [v = m * 2 ^ e] with
    [0 <= m < 2 ^ 24] whose product with two hours in nanoseconds stays
    below [2 ^ 53]; five hourly readings of 2 give 8. *)
Theorem trapz_constant_hour :
  (forall t0 (v : Z) offset,
      match offset with None => True | Some o => hour <= o end ->
      Z.abs v <= 1281023 ->
      trapz [(t0, Float64.of_Z v); (t0 + hour, Float64.of_Z v)] offset = v)
  /\ (forall t0 (m e : Z) offset,
         match offset with None => True | Some o => hour <= o end ->
         0 <= m < 2 ^ 24 -> - 1000 <= e <= 0 ->
         2 * hour * m < 2 ^ 53 * 2 ^ (- e) ->
         trapz [(t0, Float64.Finite m e); (t0 + hour, Float64.Finite m e)] offset
         = m / 2 ^ (- e))
  /\ (forall t0, trapz (hourly t0 5 (Float64.of_Z 2)) None = 8)
  /\ (forall t0,
         List.length (consecutives (hourly t0 5 (Float64.of_Z 2)) (2 * hour))
         = 1%nat).
Proof.
  split; [| split; [| split]].
  - intros t0 v offset Ho Hv.
    rewrite trapz_pair, approx_kwh_pair by assumption.
    rewrite constant_hour_whole by assumption. cbv zeta.
    assert (Hr : Int64.min < hour * v <= Int64.max)
      by (unfold Int64.min, Int64.max, hour;
          change (2 ^ 63) with 9223372036854775808; lia).
    rewrite td_add_0 by exact Hr.
    unfold NaT. destruct (Z.eqb_spec (hour * v) Int64.min); [lia |].
    rewrite Z.mul_comm, Z.div_mul by discriminate.
    unfold sum. cbn [fold_right]. rewrite Z.add_0_r.
    apply wrap_small. unfold Int64.min, Int64.max.
    change (2 ^ 63) with 9223372036854775808. lia.
  - intros t0 m e offset Ho Hm He Hr.
    rewrite trapz_pair, approx_kwh_pair by assumption. cbv zeta.
    pose proof (constant_hour_floor m e Hm He Hr) as E.
    set (t := td_div2 (td_mul hour
                 (Float64.add (Float64.Finite m e) (Float64.Finite m e)))) in *.
    clearbody t.
    assert (Pe : 0 < 2 ^ (- e)) by (apply Z.pow_pos_nonneg; lia).
    assert (Hh : 0 < hour) by reflexivity.
    assert (Hq : 0 <= m / 2 ^ (- e) /\ 2 * hour * (m / 2 ^ (- e)) < 2 ^ 53).
    { split; [apply Z.div_pos; lia |].
      pose proof (Z.mul_div_le m (2 ^ (- e)) Pe).
      assert (2 * hour * (m / 2 ^ (- e)) * 2 ^ (- e) < 2 ^ 53 * 2 ^ (- e)) by nia.
      nia. }
    assert (Ht : 0 <= t < 2 ^ 53 + hour).
    { pose proof (Z.mod_pos_bound t hour Hh).
      pose proof (Z.div_mod t hour ltac:(lia)). nia. }
    change (2 ^ 53) with 9007199254740992 in Ht, Hq. unfold hour in Ht, Hq.
    rewrite td_add_0
      by (unfold Int64.min, Int64.max; change (2 ^ 63) with 9223372036854775808; lia).
    unfold NaT, Int64.min. destruct (Z.eqb_spec t (- 2 ^ 63)); [lia |].
    rewrite E. unfold sum. cbn [fold_right]. rewrite Z.add_0_r.
    apply wrap_small. unfold Int64.min, Int64.max.
    change (2 ^ 63) with 9223372036854775808. lia.
  - intros t0. rewrite hourly_translate, trapz_translate. reflexivity.
  - intros t0. rewrite hourly_translate, consecutives_runs, runs_translate.
    rewrite label_from_length, length_map. reflexivity.
Qed.

(** C10. Of no reading the total is 0, whatever the offset. *)
Theorem trapz_empty (offset : option Z) : trapz [] offset = 0.
Proof. destruct offset; reflexivity. Qed.
End TrapzFacts.

Lemma consecutives_partition_witness :
  Sorted Z.lt (Frame.index Sample.gapped)
  /\ Grouper.steps_fit (Frame.index Sample.gapped)
  /\ (forall pre g1 g2 post,
         map snd (Grouper.consecutives Sample.gapped 10)
         = (pre ++ g1 :: g2 :: post)%list ->
         10 < hd 0 (Frame.index g2) - last (Frame.index g1) 0)
  /\ forall pre g1 mid g2 post a b,
      map snd (Grouper.consecutives Sample.gapped 10)
      = (pre ++ g1 :: mid ++ g2 :: post)%list ->
      In a (Frame.index g1) -> In b (Frame.index g2) -> a < b.
Proof.
  assert (H : Sorted Z.lt (Frame.index Sample.gapped)).
  { repeat constructor. }
  assert (F : Grouper.steps_fit (Frame.index Sample.gapped)).
  { cbn. unfold Int64.min, Int64.max. lia. }
  split; [exact H |]. split; [exact F |]. split.
  - exact (proj1 (proj2 (proj2 (proj2 (proj2
             (GrouperTheorems.consecutives_partition Sample.gapped 10))))) F).
  - exact (proj2 (proj2 (proj2 (proj2 (proj2 (proj2
             (GrouperTheorems.consecutives_partition Sample.gapped 10)))))) H).
Defined.

(** C2 as stated fails on time-ordered data that spans more than the
    largest [Timedelta]: the difference of the two timestamps wraps around
    to a negative count, so the two readings stay in one run although they
    are three centuries apart. *)
Lemma consecutives_counterexample :
  Sorted Z.lt (Frame.index Sample.centuries)
  /\ Grouper.consecutives Sample.centuries Grouper.hour = [(0, Sample.centuries)]
  /\ Grouper.hour < 946684800000000000 - (-8520336000000000000).
Proof.
  split; [repeat constructor |]. split; reflexivity.
Qed.

Lemma trapz_constant_hour_witness :
  Grouper.trapz [(Sample.new_year_2020, Float64.of_Z 3);
                 (Sample.new_year_2020 + Grouper.hour, Float64.of_Z 3)] None = 3
  /\ Grouper.trapz [(Sample.new_year_2020, Float64.Finite 5 (-1));
                    (Sample.new_year_2020 + Grouper.hour, Float64.Finite 5 (-1))]
                   (Some (2 * Grouper.hour)) = 2.
Proof.
  split.
  - apply (proj1 TrapzFacts.trapz_constant_hour Sample.new_year_2020 3 None I).
    simpl. lia.
  - apply (proj1 (proj2 TrapzFacts.trapz_constant_hour) Sample.new_year_2020 5 (-1)
                 (Some (2 * Grouper.hour))).
    + vm_compute. discriminate.
    + change (2 ^ 24) with 16777216. lia.
    + lia.
    + vm_compute. reflexivity.
Defined.

(** C3 as stated fails in two ways.  A constant power of 1281024 over one
    hour makes the product of the time step and the sum of the two readings
    leave the 64-bit range: the area is NaT and the total is the least
    64-bit integer.  A constant power of -2.5 gives -3: whole hours are
    rounded down, not truncated. *)
Lemma trapz_constant_hour_counterexample :
  Grouper.trapz [(Sample.new_year_2020, Float64.of_Z 1281024);
                 (Sample.new_year_2020 + Grouper.hour, Float64.of_Z 1281024)] None
  = - 9223372036854775808
  /\ Grouper.trapz [(Sample.new_year_2020, Float64.Finite (-5) (-1));
                    (Sample.new_year_2020 + Grouper.hour, Float64.Finite (-5) (-1))]
                   None
     = -3.
Proof.
  split; reflexivity.
Qed.

Lemma intersect_unique_labels_witness :
  List.length (fst (Intersector.intersect Sample.energy Sample.temperature))
  = List.length (snd (Intersector.intersect Sample.energy Sample.temperature))
  /\ Intersector.intersect Sample.energy Sample.energy
     = (Sample.energy, Sample.energy)
  /\ Intersector.intersect Sample.single Sample.temperature = ([], []).
Proof.
  assert (Ha : NoDup (Frame.index Sample.energy)).
  { repeat constructor; simpl; intuition discriminate. }
  assert (Hb : NoDup (Frame.index Sample.temperature)).
  { repeat constructor; simpl; intuition discriminate. }
  destruct (proj1 (IntersectorFacts.intersect_unique_labels
                     Sample.energy Sample.temperature) Ha Hb)
    as [H1 [_ [_ H4]]].
  split; [exact H1 |]. split; [exact H4 |].
  apply (proj2 (IntersectorFacts.intersect_unique_labels
                  Sample.single Sample.temperature)).
  intros x [<- | []] H. simpl in H. intuition discriminate.
Defined.

(** C9 as stated fails when a label repeats in one frame: the two results
    differ in length. *)
Lemma intersect_counterexample :
  List.length (fst (Intersector.intersect Sample.repeated Sample.single))
  <> List.length (snd (Intersector.intersect Sample.repeated Sample.single)).
Proof.
  vm_compute. discriminate.
Qed.

(** The definitions run on the sample data. *)
Example consecutives_gapped :
  Grouper.consecutives Sample.gapped 10
  = [(0, [(0, Float64.of_Z 1); (5, Float64.of_Z 1)]);
     (1, [(100, Float64.of_Z 1); (101, Float64.of_Z 2)]);
     (2, [(300, Float64.of_Z 1)])].
Proof. reflexivity. Qed.

Example new_year_2020_calendar :
  Frame.weekday Sample.new_year_2020 = 2 /\ Frame.month Sample.new_year_2020 = 1.
Proof. split; reflexivity. Qed.

Example trapz_gapped :
  Grouper.trapz (Grouper.hourly 0 3 (Float64.Finite 7 (-1))
                 ++ Grouper.hourly (48 * Grouper.hour) 2 (Float64.of_Z 4))
                (Some (24 * Grouper.hour)) = 11.
Proof. reflexivity. Qed.

Example weekend_filter :
  time_filter Sample.pandas Sample.one_reading
              (mkKwds None None (Some [5; 6]) None None)
  = ([], Ok (Some (Frame.Rows []))).
Proof. reflexivity. Qed.

Module LogNormalFacts.
Import LogNormal.
Local Open Scope R_scope.

Lemma Rltb_true x y : Rltb x y = true <-> x < y.
Proof. unfold Rltb. destruct (Rlt_dec x y); split; auto; discriminate. Qed.

Lemma Rltb_false x y : Rltb x y = false <-> y <= x.
Proof.
  unfold Rltb. destruct (Rlt_dec x y); split; auto; try discriminate; lra.
Qed.

Lemma Reqb_true x y : Reqb x y = true <-> x = y.
Proof. unfold Reqb. destruct (Req_dec_T x y); split; auto; discriminate. Qed.

Lemma Reqb_false x y : Reqb x y = false <-> x <> y.
Proof.
  unfold Reqb. destruct (Req_dec_T x y); split; auto; try discriminate; tauto.
Qed.

Lemma insert_by_map {X Y} (f : X -> Y) ltb ltb' x l :
  (forall a b, ltb' (f a) (f b) = ltb a b) ->
  insert_by ltb' (f x) (map f l) = map f (insert_by ltb x l).
Proof.
  intros H. induction l as [| y l IH]; simpl; auto.
  rewrite H. destruct (ltb x y); simpl; congruence.
Qed.

Lemma sort_by_map {X Y} (f : X -> Y) ltb ltb' l :
  (forall a b, ltb' (f a) (f b) = ltb a b) ->
  sort_by ltb' (map f l) = map f (sort_by ltb l).
Proof.
  intros H. unfold sort_by.
  change (@nil Y) with (map f []). generalize (@nil X).
  induction l as [| x l IH]; intros acc; simpl; auto.
  rewrite (insert_by_map f ltb ltb') by assumption. apply IH.
Qed.

Lemma sort_by_length {X} (ltb : X -> X -> bool) l :
  List.length (sort_by ltb l) = List.length l.
Proof. apply Permutation_length, sort_by_perm. Qed.

Lemma dropna_Fin l : dropna (map Fin l) = map Fin l.
Proof. unfold dropna. induction l; simpl; congruence. Qed.

Lemma nth_map_Fin i l :
  (i < List.length l)%nat -> nth i (map Fin l) NaN = Fin (nth i l 0).
Proof.
  intros H. rewrite (nth_indep _ NaN (Fin 0)) by now rewrite length_map.
  apply map_nth.
Qed.

Lemma median_Fin l : l <> [] -> median (map Fin l) = Fin (real_median l).
Proof.
  intros Hl. unfold median, real_median.
  rewrite dropna_Fin, (sort_by_map Fin Rltb np_ltb) by reflexivity.
  rewrite length_map, sort_by_length.
  assert (Hn : (0 < List.length l)%nat) by (destruct l; simpl; [congruence | lia]).
  destruct (List.length l) as [| n] eqn:E; [lia |].
  assert (Hh : (S n / 2 < S n)%nat) by (apply Nat.div_lt; lia).
  destruct (Nat.odd (S n)).
  - apply nth_map_Fin. rewrite sort_by_length. lia.
  - rewrite !nth_map_Fin by (rewrite sort_by_length; lia). reflexivity.
Qed.

Lemma mad_Fin l : l <> [] -> mad (map Fin l) = Fin (real_mad l).
Proof.
  intros Hl. unfold mad, real_mad. rewrite median_Fin by assumption.
  rewrite map_map. cbn [np_sub np_neg np_add np_abs].
  rewrite <- (map_map (fun a => Rabs (a + - real_median l)) Fin).
  rewrite median_Fin by (destruct l; simpl; congruence).
  reflexivity.
Qed.
End LogNormalFacts.

Module FitTheorems.
Import LogNormal LogNormalFacts.
Local Open Scope R_scope.

Lemma fold_min_Fin xs x :
  fold_left (fun m a => if np_ltb a m then a else m) (map Fin xs) (Fin x)
  = Fin (fold_left (fun m a => if Rltb a m then a else m) xs x).
Proof.
  revert x. induction xs as [| y xs IH]; intros x; simpl; auto.
  destruct (Rltb y x); apply IH.
Qed.

Lemma fold_max_Fin xs x :
  fold_left (fun m a => if np_ltb m a then a else m) (map Fin xs) (Fin x)
  = Fin (fold_left (fun m a => if Rltb m a then a else m) xs x).
Proof.
  revert x. induction xs as [| y xs IH]; intros x; simpl; auto.
  destruct (Rltb x y); apply IH.
Qed.

Lemma np_min_Fin l : l <> [] -> np_min (map Fin l) = Fin (real_min l).
Proof.
  intros Hl. unfold np_min, real_min. rewrite dropna_Fin.
  destruct l as [| x xs]; [congruence |]. apply fold_min_Fin.
Qed.

Lemma np_max_Fin l : l <> [] -> np_max (map Fin l) = Fin (real_max l).
Proof.
  intros Hl. unfold np_max, real_max. rewrite dropna_Fin.
  destruct l as [| x xs]; [congruence |]. apply fold_max_Fin.
Qed.

(** After the masked assignment a reading that is not negative has a
    finite log value: the log of zero has become 0. *)
Lemma clean_log x :
  0 <= x ->
  (if isneginf (np_log x) then Fin 0 else np_log x) = Fin (spec_log x).
Proof.
  intros Hx. unfold np_log, spec_log.
  destruct (Rltb 0 x) eqn:Hpos.
  - apply Rltb_true in Hpos.
    assert (E : Reqb x 0 = false) by (apply Reqb_false; lra).
    now rewrite E.
  - apply Rltb_false in Hpos.
    assert (E : Reqb x 0 = true) by (apply Reqb_true; lra).
    now rewrite E.
Qed.

Lemma log_transform_values (series : list (Z * R)) :
  (forall r, In r series -> 0 <= snd r) ->
  Frame.values (log_transform series)
  = map Fin (map spec_log (Frame.values series)).
Proof.
  unfold Frame.values, log_transform. rewrite !map_map. cbn [fst snd].
  intros H. apply map_ext_in. intros r Hr. now apply clean_log, H.
Qed.

Lemma log_transform_no_neginf (series : list (Z * R)) :
  Forall (fun a => isneginf a = false) (Frame.values (log_transform series)).
Proof.
  unfold Frame.values, log_transform. rewrite !map_map. cbn [fst snd].
  apply Forall_forall. intros a Ha. apply in_map_iff in Ha.
  destruct Ha as [r [<- _]].
  destruct (np_log (snd r)); reflexivity.
Qed.

Section Fit.
Variable gaussian_kde : list npfloat -> outcome (R -> npfloat).
Variable minimize_scalar : (R -> npfloat) -> npfloat -> npfloat -> outcome npfloat.

Lemma lognorm_params_real (series : list (Z * R)) kde mu :
  series <> [] ->
  (forall r, In r series -> 0 <= snd r) ->
  let logs := map spec_log (Frame.values series) in
  gaussian_kde (map Fin logs) = Ok kde ->
  minimize_scalar (fun x => np_mul (Fin (-1)) (kde x))
                  (Fin (real_min logs)) (Fin (real_max logs)) = Ok (Fin mu) ->
  lognorm_params gaussian_kde minimize_scalar series
  = ([], Ok (Fin (1.4826 * real_mad logs), 0%Z, Fin (exp mu))).
Proof.
  intros Hne Hpos logs Hkde Hmin.
  assert (Hl : logs <> []).
  { unfold logs, Frame.values. destruct series; simpl; congruence. }
  pose proof (log_transform_values series Hpos) as E. fold logs in E.
  unfold lognorm_params. rewrite E, Hkde.
  rewrite mad_Fin, np_min_Fin, np_max_Fin by assumption.
  unfold lift, bind. rewrite Hmin. cbn [ret np_exp app np_mul].
  do 5 f_equal. apply Rmult_comm.
Qed.

(** C6. For a non-empty sample of readings that are not negative, on
    which the density estimate and the bounded search succeed:
    the log of a zero reading enters every later step as 0, never as
    negative infinity; the location is 0; the shape is 1.4826 times the
    median absolute deviation of the log values; the scale is [e] to the
    power of the mode the search returns. *)
Theorem lognorm_params_robust_fit (series : list (Z * R)) kde mu :
  series <> [] ->
  (forall r, In r series -> 0 <= snd r) ->
  let logs := map spec_log (Frame.values series) in
  gaussian_kde (map Fin logs) = Ok kde ->
  minimize_scalar (fun x => np_mul (Fin (-1)) (kde x))
                  (Fin (real_min logs)) (Fin (real_max logs)) = Ok (Fin mu) ->
  Frame.values (log_transform series) = map Fin logs
  /\ Forall (fun a => isneginf a = false) (Frame.values (log_transform series))
  /\ lognorm_params gaussian_kde minimize_scalar series
     = ([], Ok (Fin (1.4826 * real_mad logs), 0%Z, Fin (exp mu))).
Proof.
  intros Hne Hpos logs Hkde Hmin.
  split; [now apply log_transform_values |].
  split; [apply log_transform_no_neginf |].
  now apply (lognorm_params_real series kde mu).
Qed.
End Fit.
End FitTheorems.

Module QuantileFacts.
Import LogNormal LogNormalFacts.
Local Open Scope R_scope.

Lemma den_IZR n b :
  IZR (Z.of_nat n + 2 * b - 1) = INR n + 2 * IZR b - 1.
Proof.
  rewrite minus_IZR, plus_IZR, mult_IZR, <- INR_IZR_INZ. reflexivity.
Qed.

(** [np.linspace] from [buffer * q_step] to [1 - buffer * q_step] lists the
    quantiles of the ranks, lowest rank first. *)
Lemma linspace_rank_quantile n b :
  (Z.of_nat n + 2 * b - 1 <> 0)%Z ->
  let q_step := 1 / IZR (Z.of_nat n + 2 * b - 1) in
  linspace (IZR b * q_step) (1 - IZR b * q_step) n
  = map (rank_quantile n b) (seq 0 n).
Proof.
  intros Hden q_step.
  assert (HD : IZR (Z.of_nat n + 2 * b - 1) <> 0) by now apply not_0_IZR.
  pose proof (den_IZR n b) as ED.
  unfold linspace, rank_quantile, q_step.
  set (D := IZR (Z.of_nat n + 2 * b - 1)) in *.
  destruct n as [| [| m]].
  - reflexivity.
  - cbn [Nat.ltb Nat.leb seq map]. f_equal. simpl INR. field. exact HD.
  - assert (Hlt : (1 <? S (S m))%nat = true) by reflexivity.
    rewrite Hlt. cbv beta iota zeta.
    replace (S (S m) - 1)%nat with (S m) by lia.
    assert (EN : INR (S (S m)) = INR (S m) + 1) by (rewrite (S_INR (S m)); reflexivity).
    assert (Hdiv : INR (S m) <> 0) by (apply not_0_INR; lia).
    assert (ED' : D - 2 * IZR b = INR (S m)) by lra.
    replace (seq 0 (S (S m))) with (seq 0 (S m) ++ [S m])%list
      by (symmetry; apply (seq_S (S m) 0)).
    assert (Hstop : 1 - IZR b * (1 / D) = (IZR b + INR (S m)) / D).
    { rewrite <- ED'. field. exact HD. }
    destruct (Reqb _ 0); rewrite !map_map, !map_app; cbn [map];
      rewrite removelast_last; (f_equal; [| now rewrite Hstop]);
      apply map_ext; intros i; rewrite <- ED'; field;
      repeat split; rewrite ?ED'; assumption.
Qed.
End QuantileFacts.

Module QuantileTheorems.
Import LogNormal LogNormalFacts QuantileFacts.
Local Open Scope R_scope.

Lemma sort_values_length series :
  List.length (Frame.index (sort_values series)) = List.length series.
Proof.
  unfold Frame.index, sort_values. now rewrite length_map, sort_by_length.
Qed.

Lemma In_combine_nth {X Y} (l1 : list X) (l2 : list Y) i d1 d2 :
  (i < List.length l1)%nat -> (i < List.length l2)%nat ->
  In (nth i l1 d1, nth i l2 d2) (combine l1 l2).
Proof.
  revert l2 i. induction l1 as [| x l1 IH]; intros [| y l2] i H1 H2;
    simpl in *; try lia.
  destruct i as [| i]; [now left | right]. apply IH; lia.
Qed.

Lemma rank_quantile_nth n b i :
  (i < n)%nat -> nth i (map (rank_quantile n b) (seq 0 n)) 0 = rank_quantile n b i.
Proof.
  intros H.
  rewrite (nth_indep _ 0 (rank_quantile n b 0%nat)) by now rewrite length_map, length_seq.
  rewrite map_nth, seq_nth by assumption. reflexivity.
Qed.

(** A rank's quantile is strictly between 0 and 1. *)
Lemma rank_quantile_inside n b i :
  (i < n)%nat -> (1 <= b)%Z -> 0 < rank_quantile n b i < 1.
Proof.
  intros Hi Hb. unfold rank_quantile. rewrite den_IZR.
  assert (Hb' : 1 <= IZR b) by now apply IZR_le.
  assert (Hi' : INR i + 1 <= INR n).
  { rewrite <- S_INR. apply le_INR. lia. }
  assert (Hi0 : 0 <= INR i) by apply pos_INR.
  set (D := INR n + 2 * IZR b - 1).
  assert (HD : 0 < D) by (unfold D; lra).
  split.
  - apply Rdiv_lt_0_compat; lra.
  - apply (Rmult_lt_reg_r D); [exact HD |].
    unfold Rdiv. rewrite Rmult_assoc, Rinv_l by lra. unfold D. lra.
Qed.

Section Fit.
Variable gaussian_kde : list npfloat -> outcome (R -> npfloat).
Variable minimize_scalar : (R -> npfloat) -> npfloat -> npfloat -> outcome npfloat.
Variable ndtri : R -> R.

Lemma adjust_sample_ok series buffer params :
  (Z.of_nat (List.length series) + 2 * buffer - 1 <> 0)%Z ->
  result (lognorm_params gaussian_kde minimize_scalar series) = Ok params ->
  result (adjust_sample gaussian_kde minimize_scalar ndtri series buffer)
  = Ok (map (fun r => (fst r, lognorm_ppf ndtri (snd r) params))
            (quantiles series
                       (1 / IZR (Z.of_nat (List.length series) + 2 * buffer - 1))
                       buffer)).
Proof.
  intros Hden Hfit. unfold adjust_sample.
  erewrite result_bind_ok by exact Hfit.
  apply Z.eqb_neq in Hden. rewrite Hden. reflexivity.
Qed.
End Fit.
End QuantileTheorems.

Module SortFacts.

Section Sorting.
Context {X : Type}.
Variable ltb : X -> X -> bool.
Variable le : X -> X -> Prop.
Hypothesis ltb_le : forall x y, ltb x y = true -> le x y.
Hypothesis nltb_le : forall x y, ltb x y = false -> le y x.
Hypothesis le_trans : forall x y z, le x y -> le y z -> le x z.

Lemma insert_by_sorted x l :
  StronglySorted le l -> StronglySorted le (insert_by ltb x l).
Proof.
  induction 1 as [| y l Hs IH Hall]; simpl.
  - repeat constructor.
  - destruct (ltb x y) eqn:E.
    + constructor; [now constructor |].
      constructor; [now apply ltb_le |].
      apply ltb_le in E. revert Hall. apply Forall_impl. eauto.
    + constructor; [exact IH |].
      apply (Permutation_Forall (Permutation_sym (insert_by_perm ltb x l))).
      constructor; [now apply nltb_le | exact Hall].
Qed.

Lemma sort_by_sorted l : StronglySorted le (sort_by ltb l).
Proof.
  unfold sort_by.
  assert (G : forall acc, StronglySorted le acc ->
            StronglySorted le (fold_left (fun acc x => insert_by ltb x acc) l acc)).
  { induction l as [| x l IH]; intros acc Hacc; simpl; auto.
    apply IH, insert_by_sorted, Hacc. }
  apply G. constructor.
Qed.
End Sorting.

Lemma StronglySorted_nth {X} (R : X -> X -> Prop) l d p q :
  StronglySorted R l -> (p < q)%nat -> (q < List.length l)%nat ->
  R (nth p l d) (nth q l d).
Proof.
  intros Hs. revert p q. induction Hs as [| x l Hs IH Hall]; intros p q Hpq Hq.
  - simpl in Hq. lia.
  - destruct q as [| q]; [lia |]. simpl in Hq.
    destruct p as [| p]; simpl.
    + rewrite Forall_forall in Hall. apply Hall, nth_In. lia.
    + apply IH; lia.
Qed.




Lemma StronglySorted_le_NoDup_lt (l : list Z) :
  StronglySorted Z.le l -> NoDup l -> StronglySorted Z.lt l.
Proof.
  induction 1 as [| x l Hs IH Hall]; intros Hnd; constructor.
  - apply IH. now inversion Hnd.
  - inversion Hnd as [| ? ? Hx Hnd']; subst.
    rewrite Forall_forall in *. intros y Hy.
    specialize (Hall y Hy). assert (x <> y) by congruence. lia.
Qed.
End SortFacts.

Module AdjustFacts.
Import LogNormal LogNormalFacts QuantileFacts QuantileTheorems SortFacts.
Local Open Scope R_scope.

Lemma sort_index_sorted {A} (data : list (Z * A)) :
  StronglySorted (fun a b => (fst a <= fst b)%Z) (Frame.sort_index data).
Proof.
  apply (sort_by_sorted Frame.label_ltb).
  - intros x y H. apply Z.ltb_lt in H. lia.
  - intros x y H. apply Z.ltb_ge in H. lia.
  - intros x y z. lia.
Qed.

Lemma sort_values_sorted series :
  StronglySorted (fun a b => snd a <= snd b) (sort_values series).
Proof.
  apply (sort_by_sorted value_ltb).
  - intros x y H. apply Rltb_true in H. lra.
  - intros x y H. apply Rltb_false in H. lra.
  - intros x y z. lra.
Qed.

Lemma StronglySorted_map {X Y} (f : X -> Y) (R : Y -> Y -> Prop) l :
  StronglySorted (fun a b => R (f a) (f b)) l -> StronglySorted R (map f l).
Proof.
  induction 1 as [| x l Hs IH Hall]; simpl; constructor; auto.
  rewrite Forall_forall in *. intros y Hy.
  apply in_map_iff in Hy. destruct Hy as [z [<- Hz]]. auto.
Qed.

Lemma index_combine {Y} (l1 : list Z) (l2 : list Y) :
  List.length l1 = List.length l2 -> Frame.index (combine l1 l2) = l1.
Proof.
  unfold Frame.index. revert l2.
  induction l1 as [| a l1 IH]; intros [| b l2] H; simpl in *; try lia; auto.
  f_equal. apply IH. lia.
Qed.



Section Fit.
Variable ndtri : R -> R.
Hypothesis ndtri_increasing :
  forall p q, 0 < p -> p < q -> q < 1 -> ndtri p < ndtri q.

End Fit.
End AdjustFacts.

Module AdjustTheorems.
Import LogNormal LogNormalFacts QuantileFacts QuantileTheorems SortFacts AdjustFacts.
Local Open Scope R_scope.



Section Fit.
Variable gaussian_kde : list npfloat -> outcome (R -> npfloat).
Variable minimize_scalar : (R -> npfloat) -> npfloat -> npfloat -> outcome npfloat.
Variable ndtri : R -> R.

End Fit.
End AdjustTheorems.

Module RankTheorems.
Import LogNormal LogNormalFacts QuantileFacts QuantileTheorems SortFacts AdjustFacts.
Local Open Scope R_scope.

Section Fit.
Variable gaussian_kde : list npfloat -> outcome (R -> npfloat).
Variable minimize_scalar : (R -> npfloat) -> npfloat -> npfloat -> outcome npfloat.
Variable ndtri : R -> R.

(** C4. For a sample of [n >= 2] readings and a buffer [b >= 1], there
    is a ranking of the sample, the sample in increasing order of its
    readings, such that the quantiles series of [adjust_sample], kept in
    label order, pairs the label of the reading of rank [i] with
    [(b + i) / (n + 2 b - 1)]; every quantile lies strictly between 0
    and 1; and the adjusted value of a label is the inverse distribution
    function at its quantile.  Readings that are equal may take each
    other's rank. *)
Theorem quantile_assignment (series : list (Z * R)) (buffer : Z) :
  (2 <= List.length series)%nat -> (1 <= buffer)%Z ->
  let n := List.length series in
  let q_step := 1 / IZR (Z.of_nat n + 2 * buffer - 1) in
  let qs := quantiles series q_step buffer in
  exists ranked,
    Permutation ranked series
    /\ StronglySorted (fun r r' => snd r <= snd r') ranked
    /\ Permutation qs (combine (Frame.index ranked)
                               (map (rank_quantile n buffer) (seq 0 n)))
    /\ StronglySorted Z.le (Frame.index qs)
    /\ (forall i, (i < n)%nat ->
                  In (nth i (Frame.index ranked) 0%Z, rank_quantile n buffer i) qs)
    /\ (forall r, In r qs -> 0 < snd r < 1)
    /\ (forall params,
           result (lognorm_params gaussian_kde minimize_scalar series) = Ok params ->
           result (adjust_sample gaussian_kde minimize_scalar ndtri series buffer)
           = Ok (map (fun r => (fst r, lognorm_ppf ndtri (snd r) params)) qs)).
Proof.
  intros Hn Hb n q_step qs.
  set (ranked := sort_values series).
  assert (Hden : (Z.of_nat n + 2 * buffer - 1 <> 0)%Z) by (unfold n; lia).
  assert (E : qs = Frame.sort_index
                     (combine (Frame.index ranked)
                              (map (rank_quantile n buffer) (seq 0 n)))).
  { unfold qs, quantiles, q_step, ranked. fold n.
    now rewrite (linspace_rank_quantile n buffer Hden). }
  exists ranked.
  split; [apply sort_by_perm |].
  split; [apply sort_values_sorted |].
  split; [rewrite E; apply sort_by_perm |].
  split.
  { rewrite E. apply (StronglySorted_map fst Z.le), sort_index_sorted. }
  split; [| split].
  - intros i Hi. rewrite E.
    apply (Permutation_in _ (Permutation_sym (sort_by_perm _ _))).
    rewrite <- (rank_quantile_nth n buffer i Hi).
    apply In_combine_nth.
    + unfold ranked. now rewrite sort_values_length.
    + now rewrite length_map, length_seq.
  - intros r Hr. rewrite E in Hr.
    apply (Permutation_in _ (sort_by_perm _ _)) in Hr.
    destruct r as [l q]. apply in_combine_r in Hr.
    apply in_map_iff in Hr. destruct Hr as [i [<- Hi]].
    apply in_seq in Hi. apply rank_quantile_inside; [lia | exact Hb].
  - intros params Hfit. now apply adjust_sample_ok.
Qed.
End Fit.
End RankTheorems.

Module FitSamples.
Import LogNormal LogNormalFacts FitTheorems QuantileFacts QuantileTheorems
       SortFacts AdjustFacts AdjustTheorems RankTheorems.
Local Open Scope R_scope.

Ltac eval_ltb :=
  repeat match goal with
    | |- context [Rltb ?a ?b] =>
        first [ rewrite (proj2 (Rltb_true a b)) by lra
              | rewrite (proj2 (Rltb_false a b)) by lra ]
    end.

Ltac eval_sort :=
  unfold sort_by; repeat (cbn [fold_left insert_by]; eval_ltb).

Lemma spec_log_1 : spec_log 1 = 0.
Proof.
  unfold spec_log. rewrite (proj2 (Reqb_false 1 0)) by lra. apply ln_1.
Qed.

Lemma spec_log_exp x : spec_log (exp x) = x.
Proof.
  unfold spec_log. pose proof (exp_pos x).
  rewrite (proj2 (Reqb_false (exp x) 0)) by lra. apply ln_exp.
Qed.

Lemma readings_logs : map spec_log (Frame.values Sample.readings) = [0; 1; 2].
Proof.
  cbn [Sample.readings Frame.values map snd].
  now rewrite spec_log_1, !spec_log_exp.
Qed.

Lemma readings_not_negative r : In r Sample.readings -> 0 <= snd r.
Proof.
  intros [<- | [<- | [<- | []]]]; cbn [snd]; try lra; apply Rlt_le, exp_pos.
Qed.

Lemma readings_mad : real_mad [0; 1; 2] = 1.
Proof.
  unfold real_mad.
  assert (M : real_median [0; 1; 2] = 1).
  { unfold real_median. eval_sort. reflexivity. }
  rewrite M. cbn [map].
  replace (Rabs (0 - 1)) with 1 by (rewrite Rabs_left by lra; lra).
  replace (Rabs (1 - 1)) with 0 by (rewrite Rabs_pos_eq by lra; lra).
  replace (Rabs (2 - 1)) with 1 by (rewrite Rabs_pos_eq by lra; lra).
  unfold real_median. eval_sort. reflexivity.
Qed.

Lemma readings_fit :
  lognorm_params Sample.flat_kde Sample.lower_bound Sample.readings
  = ([], Ok (Fin (1.4826 * 1), 0%Z, Fin (exp (real_min [0; 1; 2])))).
Proof.
  pose proof (lognorm_params_real Sample.flat_kde Sample.lower_bound
                Sample.readings (fun _ => Fin 1)
                (real_min (map spec_log (Frame.values Sample.readings)))
                ltac:(discriminate) readings_not_negative eq_refl eq_refl) as E.
  cbv zeta in E. rewrite readings_logs, readings_mad in E. exact E.
Qed.

Lemma lognorm_params_robust_fit_witness :
  lognorm_params Sample.flat_kde Sample.lower_bound Sample.readings
  = ([], Ok (Fin (1.4826 * real_mad (map spec_log (Frame.values Sample.readings))),
             0%Z,
             Fin (exp (real_min (map spec_log (Frame.values Sample.readings)))))).
Proof.
  apply (proj2 (proj2 (lognorm_params_robust_fit
                         Sample.flat_kde Sample.lower_bound Sample.readings
                         (fun _ => Fin 1)
                         (real_min (map spec_log (Frame.values Sample.readings)))
                         ltac:(discriminate) readings_not_negative
                         eq_refl eq_refl))).
Defined.

Lemma quantile_assignment_witness :
  exists ranked,
    Permutation ranked Sample.readings
    /\ StronglySorted (fun r r' => snd r <= snd r') ranked
    /\ In (nth 2 (Frame.index ranked) 0%Z, rank_quantile 3 1 2)
          (quantiles Sample.readings
                     (1 / IZR (Z.of_nat (List.length Sample.readings) + 2 * 1 - 1)) 1)
    /\ Forall (fun r => 0 < snd r < 1)
              (quantiles Sample.readings
                         (1 / IZR (Z.of_nat (List.length Sample.readings) + 2 * 1 - 1)) 1).
Proof.
  destruct (quantile_assignment
              Sample.flat_kde Sample.lower_bound Sample.centred
              Sample.readings 1%Z ltac:(simpl; lia) ltac:(lia))
    as [ranked [Hperm [Hsorted [_ [_ [Hrank [Hin _]]]]]]].
  exists ranked. split; [exact Hperm |]. split; [exact Hsorted |]. split.
  - apply (Hrank 2%nat). simpl. lia.
  - apply Forall_forall. exact Hin.
Defined.





Lemma mostly_equal_not_negative r : In r Sample.mostly_equal -> 0 <= snd r.
Proof. intros [<- | [<- | [<- | [<- | []]]]]; cbn [snd]; lra. Qed.

Lemma mostly_equal_mad :
  real_mad (map spec_log (Frame.values Sample.mostly_equal)) = 0.
Proof.
  cbn [Sample.mostly_equal Frame.values map snd]. rewrite spec_log_1.
  assert (E2 : spec_log 2 = ln 2).
  { unfold spec_log. now rewrite (proj2 (Reqb_false 2 0)) by lra. }
  rewrite E2.
  assert (H2 : 0 < ln 2) by (pose proof ln_lt_2; lra).
  set (L2 := ln 2) in *.
  unfold real_mad.
  assert (M : real_median [0; 0; 0; L2] = 0).
  { unfold real_median. eval_sort.
    cbn [List.length Nat.odd Nat.even negb Nat.div Nat.divmod fst Nat.sub nth].
    lra. }
  rewrite M. cbn [map].
  replace (Rabs (0 - 0)) with 0 by (rewrite Rabs_pos_eq by lra; lra).
  replace (Rabs (L2 - 0)) with L2 by (rewrite Rabs_pos_eq by lra; lra).
  exact M.
Qed.

Lemma nth_all_nan (l : list (Z * npfloat)) i :
  Forall (fun r => snd r = NaN) l -> snd (nth i l (0%Z, NaN)) = NaN.
Proof.
  intros H. revert i. induction H as [| r l Hr H IH]; intros [| i]; simpl; auto.
Qed.

(** The positive shape in the amended C5 is needed: when more than half
    of the readings are equal the deviation is 0, the inverse distribution
    function is undefined, and every adjusted value is NaN. *)
Lemma degenerate_fit_not_rank_preserving :
  exists adjusted,
    result (adjust_sample Sample.flat_kde Sample.lower_bound Sample.centred
                          Sample.mostly_equal 1) = Ok adjusted
    /\ snd (nth 0 Sample.mostly_equal (0%Z, 0)) < snd (nth 3 Sample.mostly_equal (0%Z, 0))
    /\ np_ltb (snd (nth 0 adjusted (0%Z, NaN)))
              (snd (nth 3 adjusted (0%Z, NaN))) = false.
Proof.
  pose proof (lognorm_params_real Sample.flat_kde Sample.lower_bound
                Sample.mostly_equal (fun _ => Fin 1)
                (real_min (map spec_log (Frame.values Sample.mostly_equal)))
                ltac:(discriminate) mostly_equal_not_negative eq_refl eq_refl) as Efit.
  cbv zeta in Efit. rewrite mostly_equal_mad in Efit.
  eexists. split.
  { apply (adjust_sample_ok Sample.flat_kde Sample.lower_bound Sample.centred
             Sample.mostly_equal 1%Z
             (Fin (1.4826 * 0), 0%Z,
              Fin (exp (real_min (map spec_log (Frame.values Sample.mostly_equal)))))).
    - simpl. lia.
    - now rewrite Efit. }
  split; [cbn [Sample.mostly_equal nth snd]; lra |].
  rewrite nth_all_nan; [reflexivity |].
  apply Forall_forall. intros r Hr. apply in_map_iff in Hr.
  destruct Hr as [q [<- _]]. cbn [snd]. unfold lognorm_ppf. cbn [np_ltb].
  now rewrite (proj2 (Rltb_false 0 (1.4826 * 0))) by lra.
Qed.
End FitSamples.

Section MissingLabel.
Context {A : Type}.
Variable pd : Pandas.

Lemma missing_label_prints (data : Frame.t A) (l : Label) :
  key_error pd (Frame.index data) l = true ->
  range_token_df pd data (TLabel l) = ([not_in_range l], Ok None).
Proof.
  intros Hk. unfold range_token_df, getitem. rewrite Hk. reflexivity.
Qed.

(** C1, as amended. A label whose lookup raises [KeyError] prints one
    line and yields [None], not an empty frame.  In a token list whose
    other tokens neither raise nor answer with one value, and of which one
    gives rows, the union is built from the tokens that gave rows: it is
    in timestamp order and holds their rows. *)
Theorem missing_label_is_skipped (data : Frame.t A) (l : Label) :
  key_error pd (Frame.index data) l = true ->
  range_token_df pd data (TLabel l) = ([not_in_range l], Ok None)
  /\ data_in_range pd data (One (TLabel l)) = ([not_in_range l], Ok None)
  /\ forall pre post,
      forallb (tame pd data) (pre ++ post) = true ->
      resolved pd data (pre ++ post) <> [] ->
      exists lines out,
        data_in_range pd data (Many (pre ++ TLabel l :: post))
        = (lines, Ok (Some (Frame.Rows out)))
        /\ In (not_in_range l) lines
        /\ StronglySorted Z.le (Frame.index out)
        /\ Permutation out (List.concat (resolved pd data (pre ++ post))).
Proof.
  intros Hk. pose proof (missing_label_prints data l Hk) as E.
  split; [exact E |]. split; [exact E |].
  intros pre post Htame Hres.
  assert (Tl : tame pd data (TLabel l) = true) by (unfold tame; now rewrite E).
  assert (Hall : forallb (tame pd data) (pre ++ TLabel l :: post) = true).
  { rewrite forallb_app in *. cbn [forallb]. rewrite Tl.
    apply andb_true_iff in Htame. destruct Htame as [-> ->]. reflexivity. }
  rewrite (data_in_range_many pd data _ Hall).
  assert (R : resolved pd data (pre ++ TLabel l :: post)
              = resolved pd data (pre ++ post)).
  { unfold resolved. rewrite !map_app, !somes_app. cbn [map].
    unfold token_frame at 2. rewrite E. reflexivity. }
  rewrite R.
  destruct (resolved pd data (pre ++ post)) as [| f fs] eqn:Ef; [congruence |].
  eexists. eexists. split; [reflexivity |]. split; [| split].
  - apply in_flat_map. exists (TLabel l). split.
    + apply in_elt.
    + rewrite E. now left.
  - apply (AdjustFacts.StronglySorted_map fst Z.le), AdjustFacts.sort_index_sorted.
  - apply sort_by_perm.
Qed.
End MissingLabel.

Lemma missing_label_is_skipped_witness :
  key_error Sample.pandas (Frame.index Sample.one_reading) Sample.label_2021 = true /\
  exists lines out,
    data_in_range Sample.pandas Sample.one_reading
      (Many ([Sample.whole_range] ++ TLabel Sample.label_2021 :: []))
    = (lines, Ok (Some (Frame.Rows out)))
    /\ In (not_in_range Sample.label_2021) lines
    /\ StronglySorted Z.le (Frame.index out)
    /\ Permutation out
         (List.concat (resolved Sample.pandas Sample.one_reading
                                ([Sample.whole_range] ++ []))).
Proof.
  split; [reflexivity |].
  apply (proj2 (proj2 (missing_label_is_skipped Sample.pandas Sample.one_reading
                         Sample.label_2021 eq_refl))
               [Sample.whole_range] []).
  - reflexivity.
  - discriminate.
Defined.

(** C1 as stated fails: a label after the data's last timestamp selects no
    row, its lookup yields [None] rather than an empty frame, a list of only
    such labels raises [ValueError], and a filter chain that includes it
    alone raises [AttributeError]. *)
Lemma missing_label_counterexample :
  rows_between Sample.one_reading (Some (AtLabel Sample.label_2021))
               (Some (AtLabel Sample.label_2021)) = []
  /\ result (range_token_df Sample.pandas Sample.one_reading
               (TLabel Sample.label_2021)) <> Ok (Some (Frame.Rows []))
  /\ result (data_in_range Sample.pandas Sample.one_reading
               (Many [TLabel Sample.label_2021])) = Raise ValueError
  /\ result (time_filter Sample.pandas Sample.one_reading Sample.only_2021)
     = Raise AttributeError.
Proof.
  repeat split; try reflexivity. discriminate.
Qed.

(** Beside a missing label, a token that answers with one value stops the
    union: on a Series with one row per day, a list of the label of that
    day and a missing label raises [TypeError]. *)
Example one_value_stops_the_union :
  data_in_range Sample.daily_series Sample.one_reading
    (Many [TLabel Sample.day_2020_01_01; TLabel Sample.label_2021])
  = ([not_in_range Sample.label_2021], Raise TypeError).
Proof. reflexivity. Qed.

(** * Further properties of the code *)

Lemma existsb_filter_nil_aux {X} (p : X -> bool) l :
  filter p l = [] -> existsb p l = false.
Proof.
  induction l as [| x l IH]; simpl; [reflexivity |].
  destruct (p x); simpl; [discriminate | exact IH].
Qed.

Lemma mapM_raise {X Y} (f : X -> M Y) xs e :
  result (mapM f xs) = Raise e -> exists x, In x xs /\ result (f x) = Raise e.
Proof.
  induction xs as [| x xs IH]; [discriminate |].
  cbn [mapM]. rewrite result_bind.
  destruct (result (f x)) as [y | e'] eqn:Ef.
  - rewrite result_bind.
    destruct (result (mapM f xs)) as [ys | e''] eqn:Em; [discriminate |].
    intros E. inversion E; subst. destruct (IH eq_refl) as [x' [Hin Hx']].
    exists x'. split; [now right | exact Hx'].
  - intros E. inversion E; subst. exists x. split; [now left | exact Ef].
Qed.

Section ResolverFacts.
Context {A : Type}.
Variable pd : Pandas.

Lemma slice_increasing (data : Frame.t A) start stop :
  Frame.is_monotonic_increasing (Frame.index data) = true ->
  slice pd data start stop
  = Ok (Frame.select (token_covers (TPair start stop)) data).
Proof. intros H. unfold slice. rewrite H. reflexivity. Qed.

Lemma gives_exclusive (data : Frame.t A) tok :
  (gives_rows pd data tok = true /\ gives_value pd data tok = false
   /\ gives_none pd data tok = false)
  \/ (gives_rows pd data tok = false /\ gives_value pd data tok = true
      /\ gives_none pd data tok = false)
  \/ (gives_rows pd data tok = false /\ gives_value pd data tok = false
      /\ gives_none pd data tok = true).
Proof.
  destruct tok as [l | a b]; cbn [gives_rows gives_value gives_none]; [| tauto].
  destruct (key_error pd (Frame.index data) l);
    destruct (one_value pd (Frame.index data) l);
    destruct (no_row data l); cbn; tauto.
Qed.

(** On an index in increasing order a token's lookup gives rows, gives one
    value, or prints its line and gives [None]; it does not raise. *)
Lemma range_token_df_cases (data : Frame.t A) tok :
  Frame.is_monotonic_increasing (Frame.index data) = true ->
  (gives_rows pd data tok = true
   /\ range_token_df pd data tok
      = ([], Ok (Some (Frame.Rows (Frame.select (token_covers tok) data)))))
  \/ (gives_value pd data tok = true
      /\ exists v, range_token_df pd data tok = ([], Ok (Some (Frame.Value v))))
  \/ (gives_none pd data tok = true
      /\ exists l, tok = TLabel l
                   /\ range_token_df pd data tok = ([not_in_range l], Ok None)).
Proof.
  intros Hinc. destruct tok as [l | a b].
  - cbn [gives_rows gives_value gives_none range_token_df]. unfold getitem, no_row.
    destruct (key_error pd (Frame.index data) l); cbn [negb andb orb].
    + right. right. split; [reflexivity |]. exists l. split; reflexivity.
    + destruct (one_value pd (Frame.index data) l); cbn [negb andb orb].
      * destruct (rows_between data (Some (AtLabel l)) (Some (AtLabel l)))
          as [| r rest].
        -- right. right. split; [reflexivity |]. exists l. split; reflexivity.
        -- right. left. split; [reflexivity |]. exists (snd r). reflexivity.
      * left. split; reflexivity.
  - left. split; [reflexivity |]. cbn [range_token_df].
    rewrite (slice_increasing data a b Hinc). reflexivity.
Qed.

Lemma range_token_df_increasing (data : Frame.t A) tok :
  Frame.is_monotonic_increasing (Frame.index data) = true ->
  range_token_df pd data tok
  = (diagnostics pd data [tok], Ok (token_result pd data tok)).
Proof.
  intros Hinc. unfold token_result, diagnostics. cbn [flat_map]. rewrite app_nil_r.
  destruct (gives_exclusive data tok) as [[Hr [Hv Hn]] | [[Hr [Hv Hn]] | [Hr [Hv Hn]]]];
    destruct (range_token_df_cases data tok Hinc)
      as [[Hr' E] | [[Hv' [v E]] | [Hn' [l [El E]]]]]; try congruence;
    rewrite E; cbn [result snd].
  - destruct tok; rewrite ?Hn; reflexivity.
  - destruct tok; rewrite ?Hn; reflexivity.
  - subst tok. rewrite Hn. reflexivity.
Qed.

Lemma mapM_increasing (data : Frame.t A) tokens :
  Frame.is_monotonic_increasing (Frame.index data) = true ->
  mapM (range_token_df pd data) tokens
  = (diagnostics pd data tokens, Ok (map (token_result pd data) tokens)).
Proof.
  intros Hinc. induction tokens as [| tok tokens IH]; [reflexivity |].
  cbn [mapM]. rewrite (range_token_df_increasing data tok Hinc), IH.
  unfold diagnostics. cbn [bind flat_map ret map]. now rewrite !app_nil_r.
Qed.

(** What [pd.concat] receives from a token list, on an index in increasing
    order. *)
Lemma token_results (data : Frame.t A) tokens :
  Frame.is_monotonic_increasing (Frame.index data) = true ->
  let kept := Frame.somes (map (token_result pd data) tokens) in
  (kept = [] <-> existsb (gives_value pd data) tokens = false
                 /\ filter (gives_rows pd data) tokens = [])
  /\ Frame.frames kept
     = if existsb (gives_value pd data) tokens then None
       else Some (map (fun tok => Frame.select (token_covers tok) data)
                      (filter (gives_rows pd data) tokens)).
Proof.
  intros Hinc kept. unfold kept. clear kept.
  induction tokens as [| tok tokens [IH1 IH2]]; [cbn; tauto |].
  cbn [map existsb filter].
  destruct (gives_exclusive data tok) as [[Hr [Hv Hn]] | [[Hr [Hv Hn]] | [Hr [Hv Hn]]]];
    destruct (range_token_df_cases data tok Hinc)
      as [[Hr' E] | [[Hv' [v E]] | [Hn' [l [El E]]]]]; try congruence;
    unfold token_result at 1 3; rewrite E; cbn [result snd Frame.somes Frame.frames];
    rewrite Hr, Hv; cbn [orb].
  - split; [split; [discriminate | intros [_ H]; discriminate] |].
    rewrite IH2. destruct (existsb (gives_value pd data) tokens); reflexivity.
  - split; [split; [discriminate | intros [H _]; discriminate] | reflexivity].
  - split; [exact IH1 | exact IH2].
Qed.

Lemma concat_token_results (data : Frame.t A) tokens :
  Frame.is_monotonic_increasing (Frame.index data) = true ->
  Frame.concat (map (token_result pd data) tokens)
  = if existsb (gives_value pd data) tokens then raise TypeError
    else match filter (gives_rows pd data) tokens with
         | [] => raise ValueError
         | _ :: _ =>
             ret (List.concat (map (fun tok => Frame.select (token_covers tok) data)
                                   (filter (gives_rows pd data) tokens)))
         end.
Proof.
  intros Hinc. destruct (token_results data tokens Hinc) as [H1 H2].
  unfold Frame.concat.
  destruct (Frame.somes (map (token_result pd data) tokens)) as [| k kept] eqn:Ek.
  - destruct (proj1 H1 eq_refl) as [-> ->]. reflexivity.
  - rewrite H2.
    destruct (existsb (gives_value pd data) tokens) eqn:Ev; [reflexivity |].
    destruct (filter (gives_rows pd data) tokens) as [| t ts] eqn:Ef; [| reflexivity].
    assert (C : k :: kept = []) by (apply H1; auto). discriminate.
Qed.

(** [data_in_range] on a token list, on an index in increasing order. *)
Lemma data_in_range_increasing (data : Frame.t A) tokens :
  Frame.is_monotonic_increasing (Frame.index data) = true ->
  data_in_range pd data (Many tokens)
  = (diagnostics pd data tokens,
     if existsb (gives_value pd data) tokens then Raise TypeError
     else match filter (gives_rows pd data) tokens with
          | [] => Raise ValueError
          | _ :: _ =>
              Ok (Some (Frame.Rows
                          (Frame.sort_index
                             (List.concat
                                (map (fun tok => Frame.select (token_covers tok) data)
                                     (filter (gives_rows pd data) tokens))))))
          end).
Proof.
  intros Hinc. cbn [data_in_range].
  rewrite (mapM_increasing data tokens Hinc). cbn [bind].
  rewrite (concat_token_results data tokens Hinc).
  destruct (existsb (gives_value pd data) tokens).
  - cbn. now rewrite app_nil_r.
  - destruct (filter (gives_rows pd data) tokens); cbn; now rewrite ?app_nil_r.
Qed.

Lemma data_in_range_rows_aux (data : Frame.t A) r out :
  Frame.is_monotonic_increasing (Frame.index data) = true ->
  result (data_in_range pd data r) = Ok (Some (Frame.Rows out)) ->
  forall row,
    In row out <->
    In row data
    /\ exists tok, In tok (tokens_of r)
                   /\ gives_rows pd data tok = true
                   /\ token_covers tok (fst row) = true.
Proof.
  intros Hinc H row. destruct r as [tok | tokens].
  - cbn [data_in_range tokens_of] in *.
    destruct (range_token_df_cases data tok Hinc)
      as [[Hr E] | [[Hv [v E]] | [Hn [l [El E]]]]];
      rewrite E in H; cbn [result snd] in H; inversion H; subst out.
    unfold Frame.select. rewrite filter_In. split.
    + intros [Hd Hc]. split; auto. exists tok. repeat split; auto. now left.
    + intros [Hd [tok' [[<- | []] [_ Hc]]]]. auto.
  - rewrite (data_in_range_increasing data tokens Hinc) in H.
    cbn [result snd tokens_of] in *.
    destruct (existsb (gives_value pd data) tokens); [discriminate |].
    assert (E : out = Frame.sort_index
                        (List.concat
                           (map (fun tok => Frame.select (token_covers tok) data)
                                (filter (gives_rows pd data) tokens)))).
    { destruct (filter (gives_rows pd data) tokens); [discriminate | congruence]. }
    subst out. split.
    + intros Hin.
      apply (Permutation_in _ (sort_by_perm _ _)) in Hin.
      apply in_concat in Hin. destruct Hin as [g [Hg Hrow]].
      apply in_map_iff in Hg. destruct Hg as [tok [<- Htok]].
      apply filter_In in Htok. destruct Htok as [Htok Hres].
      unfold Frame.select in Hrow. apply filter_In in Hrow.
      destruct Hrow as [Hd Hc]. split; auto. exists tok. auto.
    + intros [Hd [tok [Htok [Hres Hc]]]].
      apply (Permutation_in _ (Permutation_sym (sort_by_perm _ _))).
      apply in_concat. exists (Frame.select (token_covers tok) data). split.
      * apply in_map_iff. exists tok. split; auto. apply filter_In. auto.
      * unfold Frame.select. apply filter_In. auto.
Qed.

(** X1. On an index in increasing order, when a date range resolves to a
    frame its rows are exactly the rows of the data that some token of the
    range covers, counting only tokens whose lookup gives rows. *)
Theorem data_in_range_rows (data : Frame.t A) r out :
  Frame.is_monotonic_increasing (Frame.index data) = true ->
  result (data_in_range pd data r) = Ok (Some (Frame.Rows out)) ->
  forall row,
    In row out <->
    In row data
    /\ exists tok, In tok (tokens_of r)
                   /\ gives_rows pd data tok = true
                   /\ token_covers tok (fst row) = true.
Proof. apply data_in_range_rows_aux. Qed.

(** X2. On an index in increasing order, a token list in which no token
    gives one value and some token gives rows yields the rows of those
    tokens in timestamp order; a row covered by several tokens occurs once
    for each of them. *)
Theorem data_in_range_union_sorted (data : Frame.t A) tokens :
  Frame.is_monotonic_increasing (Frame.index data) = true ->
  existsb (gives_value pd data) tokens = false ->
  existsb (gives_rows pd data) tokens = true ->
  exists out,
    result (data_in_range pd data (Many tokens)) = Ok (Some (Frame.Rows out))
    /\ StronglySorted Z.le (Frame.index out)
    /\ Permutation out
         (flat_map (fun tok => Frame.select (token_covers tok) data)
                   (filter (gives_rows pd data) tokens)).
Proof.
  intros Hinc Hv Hr. rewrite (data_in_range_increasing data tokens Hinc), Hv.
  cbn [result snd].
  destruct (filter (gives_rows pd data) tokens) as [| t ts] eqn:Ef.
  - apply existsb_exists in Hr. destruct Hr as [tok [Hin Ht]].
    assert (C : In tok (filter (gives_rows pd data) tokens))
      by (apply filter_In; auto).
    rewrite Ef in C. destruct C.
  - eexists. split; [reflexivity |]. split.
    + apply (AdjustFacts.StronglySorted_map fst Z.le), AdjustFacts.sort_index_sorted.
    + rewrite flat_map_concat_map. apply sort_by_perm.
Qed.

Lemma range_token_df_raise (data : Frame.t A) tok e :
  result (range_token_df pd data tok) = Raise e ->
  e = KeyError
  /\ Frame.is_monotonic_increasing (Frame.index data) = false
  /\ exists start stop, tok = TPair start stop /\ timed start || timed stop = true.
Proof.
  destruct tok as [l | a b]; cbn [range_token_df].
  - unfold getitem.
    destruct (key_error pd (Frame.index data) l); [discriminate |].
    destruct (one_value pd (Frame.index data) l); [| discriminate].
    destruct (rows_between data (Some (AtLabel l)) (Some (AtLabel l))); discriminate.
  - unfold slice.
    destruct (Frame.is_monotonic_increasing (Frame.index data)); [discriminate |].
    destruct (timed a || timed b) eqn:Et; cbn [andb]; [| discriminate].
    destruct (slice_error pd (Frame.index data) a b); [| discriminate].
    cbn. intros E. inversion E. repeat split. exists a, b. auto.
Qed.

(** X3. On an index in increasing order, resolving a date range raises only
    for a token list: [TypeError] when some token gives one value, and
    otherwise [ValueError] when no token gives rows.  On any index, a
    [KeyError] comes out only when the index is not in increasing order and
    some [(start, end)] pair has a datetime bound. *)
Theorem data_in_range_failure (data : Frame.t A) r :
  (Frame.is_monotonic_increasing (Frame.index data) = true ->
   forall e,
     result (data_in_range pd data r) = Raise e <->
     exists tokens,
       r = Many tokens
       /\ ((e = TypeError /\ existsb (gives_value pd data) tokens = true)
           \/ (e = ValueError /\ existsb (gives_value pd data) tokens = false
               /\ existsb (gives_rows pd data) tokens = false)))
  /\ (result (data_in_range pd data r) = Raise KeyError ->
      Frame.is_monotonic_increasing (Frame.index data) = false
      /\ exists start stop,
          In (TPair start stop) (tokens_of r) /\ timed start || timed stop = true).
Proof.
  split.
  - intros Hinc e. destruct r as [tok | tokens].
    + cbn [data_in_range]. split.
      * destruct (range_token_df_cases data tok Hinc)
          as [[Hr E] | [[Hv [v E]] | [Hn [l [El E]]]]]; rewrite E; discriminate.
      * intros [tokens [E _]]. discriminate.
    + rewrite (data_in_range_increasing data tokens Hinc). cbn [result snd].
      destruct (existsb (gives_value pd data) tokens) eqn:Ev.
      * split.
        -- intros E. inversion E. exists tokens. split; auto.
        -- intros [tokens' [E [[-> _] | [_ [H _]]]]]; [reflexivity |].
           inversion E; subst. congruence.
      * destruct (filter (gives_rows pd data) tokens) as [| t ts] eqn:Ef.
        -- assert (Er : existsb (gives_rows pd data) tokens = false)
             by (apply existsb_filter_nil_aux; exact Ef).
           split.
           ++ intros E. inversion E. exists tokens. split; auto.
           ++ intros [tokens' [E [[_ H] | [-> _]]]]; [| reflexivity].
              inversion E; subst. congruence.
        -- split; [discriminate |].
           intros [tokens' [E [[_ H] | [_ [_ H]]]]]; inversion E; subst; [congruence |].
           assert (Hin : In t (filter (gives_rows pd data) tokens'))
             by (rewrite Ef; now left).
           apply filter_In in Hin. destruct Hin as [Hin Ht].
           assert (existsb (gives_rows pd data) tokens' = true)
             by (apply existsb_exists; eauto).
           congruence.
  - destruct r as [tok | tokens]; cbn [data_in_range tokens_of].
    + intros H. destruct (range_token_df_raise data tok KeyError H)
        as [_ [Hinc [start [stop [-> Ht]]]]].
      split; [exact Hinc |]. exists start, stop. split; [now left | exact Ht].
    + rewrite result_bind.
      destruct (result (mapM (range_token_df pd data) tokens)) as [found | e] eqn:Em.
      * rewrite result_bind. unfold Frame.concat.
        destruct (Frame.somes found); [discriminate |].
        destruct (Frame.frames (s :: l)); discriminate.
      * intros E. inversion E; subst.
        destruct (mapM_raise _ _ _ Em) as [tok [Hin Ht]].
        destruct (range_token_df_raise data tok KeyError Ht)
          as [_ [Hinc [start [stop [-> Htm]]]]].
        split; [exact Hinc |]. exists start, stop. auto.
Qed.

(** X4. On an index in increasing order a date range prints one line for
    each label whose lookup finds nothing, in the order of its tokens, and
    nothing else, whether or not the call then raises. *)
Theorem data_in_range_diagnostics (data : Frame.t A) r :
  Frame.is_monotonic_increasing (Frame.index data) = true ->
  printed (data_in_range pd data r) = diagnostics pd data (tokens_of r).
Proof.
  intros Hinc. destruct r as [tok | tokens].
  - cbn [data_in_range tokens_of].
    now rewrite (range_token_df_increasing data tok Hinc).
  - now rewrite (data_in_range_increasing data tokens Hinc).
Qed.
End ResolverFacts.

Lemma between_time_in_window {A} (data : Frame.t A) w :
  Frame.between_time data w = Frame.select (in_window w) data.
Proof. destruct w as [s e]. reflexivity. Qed.

Section FilterFacts.
Context {A : Type}.
Variable pd : Pandas.

Lemma times_stage_some (sel : Frame.t A) kw :
  times kw <> Some (Windows []) ->
  result (match times kw with
          | Some (Windows []) => raise IndexError
          | Some (Windows ws) =>
              parts <- mapM (fun subrange =>
                               df <- Frame.attr (Some (Frame.Rows sel)) ;;
                               ret (Some (Frame.Rows (Frame.between_time df subrange))))
                            ws ;;
              df <- Frame.concat parts ;;
              ret (Some (Frame.Rows (Frame.sort_index df)))
          | Some (Window w) =>
              df <- Frame.attr (Some (Frame.Rows sel)) ;;
              ret (Some (Frame.Rows (Frame.between_time df w)))
          | None => ret (Some (Frame.Rows sel))
          end)
  = Ok (Some (Frame.Rows
                (match times kw with
                 | None => sel
                 | Some (Window w) => Frame.between_time sel w
                 | Some (Windows ws) =>
                     Frame.sort_index (List.concat (map (Frame.between_time sel) ws))
                 end))).
Proof.
  intros Hne. destruct (times kw) as [[w | [| w ws]] |]; try reflexivity.
  - congruence.
  - rewrite mapM_between_time.
    erewrite result_bind_ok by reflexivity.
    rewrite concat_rows.
    rewrite (somes_map_Some (Frame.between_time sel)). reflexivity.
Qed.

(** [time_filter] as a function of what its [include] and [blacklist]
    ranges resolve to. *)
Lemma time_filter_result (data : Frame.t A) kw :
  result (time_filter pd data kw)
  = match included pd data kw with
    | Ok o => after_include o kw (excluded pd data kw)
    | Raise e => Raise e
    end.
Proof.
  unfold time_filter, included.
  set (inc := match include kw with
              | Some r => data_in_range pd data r
              | None => ret (Some (Frame.Rows data))
              end).
  assert (Einc : match include kw with
                 | Some r => result (data_in_range pd data r)
                 | None => Ok (Some (Frame.Rows data))
                 end = result inc).
  { unfold inc. destruct (include kw); reflexivity. }
  rewrite Einc. rewrite result_bind.
  destruct (result inc) as [[[sel | v] |] | e]; [| | | reflexivity].
  - (* the include stage produced a frame *)
    unfold after_include.
    destruct (times kw) as [[w | [| w ws]] |] eqn:Etm.
    1,3,4: pose proof (times_stage_some sel kw) as Hts; rewrite Etm in Hts;
      erewrite result_bind_ok by (apply Hts; discriminate);
      unfold excluded, pipeline; rewrite Etm;
      destruct (daysofweek kw) as [days |]; destruct (months kw) as [ms |];
      destruct (blacklist kw) as [r |];
      repeat first [ erewrite result_bind_ok by reflexivity
                   | rewrite result_bind ];
      try reflexivity;
      destruct (result (data_in_range pd data r)) as [[[b | v] |] | e];
      reflexivity.
    reflexivity.
  - (* a lone label gave one value *)
    unfold after_include.
    destruct (times kw) as [[w | [| w ws]] |]; try reflexivity.
    destruct (daysofweek kw) as [days |]; destruct (months kw) as [ms |];
      destruct (blacklist kw) as [r |]; reflexivity.
  - (* a lone label's lookup failed *)
    unfold after_include.
    destruct (times kw) as [[w | [| w ws]] |]; try reflexivity.
    destruct (daysofweek kw) as [days |]; destruct (months kw) as [ms |];
      destruct (blacklist kw) as [r |]; reflexivity.
Qed.

Lemma select_In (p : Z -> bool) (data : Frame.t A) row :
  In row (Frame.select p data) <-> In row data /\ p (fst row) = true.
Proof. unfold Frame.select. apply filter_In. Qed.

Lemma pipeline_rows (sel : Frame.t A) kw bl row :
  In row (pipeline sel kw bl) <-> In row sel /\ passes kw bl (fst row) = true.
Proof.
  unfold pipeline, passes.
  assert (T : forall r, In r (match times kw with
                              | None => sel
                              | Some (Window w) => Frame.between_time sel w
                              | Some (Windows ws) =>
                                  Frame.sort_index
                                    (List.concat (map (Frame.between_time sel) ws))
                              end)
                        <-> In r sel /\ times_pass (times kw) (fst r) = true).
  { intros r. destruct (times kw) as [[w | ws] |]; cbn [times_pass].
    - rewrite between_time_in_window. apply select_In.
    - split.
      + intros H. apply (Permutation_in _ (sort_by_perm _ _)) in H.
        apply in_concat in H. destruct H as [g [Hg Hr]].
        apply in_map_iff in Hg. destruct Hg as [w [<- Hw]].
        rewrite between_time_in_window in Hr. apply select_In in Hr.
        split; [tauto |]. apply existsb_exists. exists w. tauto.
      + intros [Hr Hw]. apply existsb_exists in Hw. destruct Hw as [w [Hw Hin]].
        apply (Permutation_in _ (Permutation_sym (sort_by_perm _ _))).
        apply in_concat. exists (Frame.between_time sel w). split.
        * now apply in_map.
        * rewrite between_time_in_window. apply select_In. auto.
    - tauto. }
  set (t := match times kw with
            | None => sel
            | Some (Window w) => Frame.between_time sel w
            | Some (Windows ws) =>
                Frame.sort_index (List.concat (map (Frame.between_time sel) ws))
            end) in *.
  unfold Frame.drop.
  destruct (daysofweek kw) as [days |]; destruct (months kw) as [ms |];
    destruct bl as [labels |]; cbn [days_pass months_pass];
    rewrite ?select_In, T, ?andb_true_iff; tauto.
Qed.

Lemma sorted_select (p : Z -> bool) (data : Frame.t A) :
  StronglySorted Z.le (Frame.index data) ->
  StronglySorted Z.le (Frame.index (Frame.select p data)).
Proof.
  unfold Frame.index, Frame.select.
  induction data as [| r data IH]; simpl; intros H; [constructor |].
  inversion H as [| ? ? Hs Hall]; subst.
  destruct (p (fst r)); simpl; auto. constructor; auto.
  rewrite Forall_forall in *. intros x Hx. apply Hall.
  apply in_map_iff in Hx. destruct Hx as [r' [<- Hr']].
  apply filter_In in Hr'. apply in_map. tauto.
Qed.

Lemma sorted_sort_index (data : Frame.t A) :
  StronglySorted Z.le (Frame.index (Frame.sort_index data)).
Proof.
  apply (AdjustFacts.StronglySorted_map fst Z.le), AdjustFacts.sort_index_sorted.
Qed.

Lemma pipeline_sorted (sel : Frame.t A) kw bl :
  StronglySorted Z.le (Frame.index sel) ->
  StronglySorted Z.le (Frame.index (pipeline sel kw bl)).
Proof.
  intros H. unfold pipeline, Frame.drop.
  assert (T : StronglySorted Z.le
                (Frame.index (match times kw with
                              | None => sel
                              | Some (Window w) => Frame.between_time sel w
                              | Some (Windows ws) =>
                                  Frame.sort_index
                                    (List.concat (map (Frame.between_time sel) ws))
                              end))).
  { destruct (times kw) as [[w | ws] |]; auto.
    - rewrite between_time_in_window. now apply sorted_select.
    - apply sorted_sort_index. }
  destruct (daysofweek kw); destruct (months kw); destruct bl;
    repeat apply sorted_select; exact T.
Qed.

Lemma sorted_increasing ix :
  StronglySorted Z.le ix -> Frame.is_monotonic_increasing ix = true.
Proof.
  induction 1 as [| a ix Hs IH Hall]; [reflexivity |].
  destruct ix as [| b ix]; [reflexivity |].
  change (Frame.is_monotonic_increasing (a :: b :: ix))
    with ((a <=? b) && Frame.is_monotonic_increasing (b :: ix)).
  rewrite IH. inversion Hall; subst.
  apply andb_true_iff. split; [now apply Z.leb_le | reflexivity].
Qed.

Lemma included_sorted (data sel : Frame.t A) kw :
  StronglySorted Z.le (Frame.index data) ->
  included pd data kw = Ok (Some (Frame.Rows sel)) ->
  StronglySorted Z.le (Frame.index sel).
Proof.
  intros Hs. pose proof (sorted_increasing _ Hs) as Hinc.
  unfold included. destruct (include kw) as [[tok | tokens] |].
  - cbn [data_in_range].
    destruct (range_token_df_cases pd data tok Hinc)
      as [[Hr E] | [[Hv [v E]] | [Hn [l [El E]]]]];
      rewrite E; cbn [result snd]; intros H; inversion H.
    now apply sorted_select.
  - rewrite (data_in_range_increasing pd data tokens Hinc). cbn [result snd].
    destruct (existsb (gives_value pd data) tokens); [discriminate |].
    destruct (filter (gives_rows pd data) tokens); intros E; inversion E.
    apply sorted_sort_index.
  - intros E. inversion E. now subst.
Qed.

(** X5. When the include range (if given) resolves to a frame, the
    blacklist (if given) resolves, and [times] is not an empty list,
    [time_filter] returns exactly the included rows that pass the time
    windows, the weekdays, the months, and whose label the resolved
    blacklist does not hold. *)
Theorem time_filter_keeps_exactly (data sel : Frame.t A) kw bl :
  included pd data kw = Ok (Some (Frame.Rows sel)) ->
  excluded pd data kw = Ok bl ->
  times kw <> Some (Windows []) ->
  exists out,
    result (time_filter pd data kw) = Ok (Some (Frame.Rows out))
    /\ forall row,
        In row out <-> In row sel /\ passes kw bl (fst row) = true.
Proof.
  intros Hi He Ht. exists (pipeline sel kw bl). split.
  - rewrite time_filter_result, Hi, He. unfold after_include.
    destruct (times kw) as [[w | [| w ws]] |]; congruence.
  - intros row. apply pipeline_rows.
Qed.

(** X6. On data in timestamp order, whatever [time_filter] returns is in
    timestamp order. *)
Theorem time_filter_sorted (data out : Frame.t A) kw :
  StronglySorted Z.le (Frame.index data) ->
  result (time_filter pd data kw) = Ok (Some (Frame.Rows out)) ->
  StronglySorted Z.le (Frame.index out).
Proof.
  intros Hs. rewrite time_filter_result.
  destruct (included pd data kw) as [[[sel | v] |] | e] eqn:Hi; [| | | discriminate].
  - unfold after_include.
    destruct (excluded pd data kw) as [bl | e];
      destruct (times kw) as [[w | [| w ws]] |]; intros E; inversion E;
      apply pipeline_sorted; eapply included_sorted; eauto.
  - unfold after_include.
    destruct (times kw) as [[w | [| w ws]] |]; try discriminate.
    destruct (daysofweek kw); destruct (months kw); destruct (blacklist kw);
      discriminate.
  - unfold after_include.
    destruct (times kw) as [[w | [| w ws]] |]; try discriminate.
    destruct (daysofweek kw); destruct (months kw); destruct (blacklist kw);
      discriminate.
Qed.
End FilterFacts.

Section FilterFailures.
Context {A : Type}.
Variable pd : Pandas.

(** The four ways a date range resolves on an index in increasing order. *)
Lemma data_in_range_cases (data : Frame.t A) r :
  Frame.is_monotonic_increasing (Frame.index data) = true ->
  (exists f, result (data_in_range pd data r) = Ok (Some (Frame.Rows f)))
  \/ ((result (data_in_range pd data r) = Ok None
       \/ exists v, result (data_in_range pd data r) = Ok (Some (Frame.Value v)))
      /\ exists l, r = One (TLabel l) /\ gives_rows pd data (TLabel l) = false)
  \/ (result (data_in_range pd data r) = Raise ValueError
      /\ exists tokens,
          r = Many tokens
          /\ existsb (gives_value pd data) tokens = false
          /\ existsb (gives_rows pd data) tokens = false)
  \/ (result (data_in_range pd data r) = Raise TypeError
      /\ exists tokens,
          r = Many tokens /\ existsb (gives_value pd data) tokens = true).
Proof.
  intros Hinc. destruct r as [tok | tokens].
  - cbn [data_in_range].
    destruct (gives_exclusive pd data tok) as [[Hr [Hv Hn]] | [[Hr [Hv Hn]] | [Hr [Hv Hn]]]];
      destruct (range_token_df_cases pd data tok Hinc)
        as [[Hr' E] | [[Hv' [v E]] | [Hn' [l [El E]]]]]; try congruence;
      rewrite E; cbn [result snd].
    + left. eauto.
    + right. left. split; [right; eauto |].
      destruct tok as [l | a b]; [eauto | discriminate].
    + right. left. split; [now left |]. subst tok. eauto.
  - rewrite (data_in_range_increasing pd data tokens Hinc). cbn [result snd].
    destruct (existsb (gives_value pd data) tokens) eqn:Ev.
    + right. right. right. eauto.
    + destruct (filter (gives_rows pd data) tokens) eqn:Ef.
      * right. right. left. split; [reflexivity |]. exists tokens.
        repeat split; auto. now apply existsb_filter_nil_aux.
      * left. eauto.
Qed.

(** X7. On an index in increasing order [time_filter] raises in four ways
    only: [IndexError] when [times] is an empty list; [TypeError] when the
    include or the blacklist is a token list in which some token gives one
    value; [ValueError] when it is a token list in which no token gives
    anything; [AttributeError] when it is a lone label that does not give
    rows.  A failed lookup never surfaces as a [KeyError]. *)
Theorem time_filter_failures (data : Frame.t A) kw e :
  Frame.is_monotonic_increasing (Frame.index data) = true ->
  result (time_filter pd data kw) = Raise e ->
  (e = IndexError /\ times kw = Some (Windows []))
  \/ (e = ValueError
      /\ exists tokens,
          (include kw = Some (Many tokens) \/ blacklist kw = Some (Many tokens))
          /\ existsb (gives_value pd data) tokens = false
          /\ existsb (gives_rows pd data) tokens = false)
  \/ (e = TypeError
      /\ exists tokens,
          (include kw = Some (Many tokens) \/ blacklist kw = Some (Many tokens))
          /\ existsb (gives_value pd data) tokens = true)
  \/ (e = AttributeError
      /\ exists l,
          (include kw = Some (One (TLabel l)) \/ blacklist kw = Some (One (TLabel l)))
          /\ gives_rows pd data (TLabel l) = false).
Proof.
  intros Hinc. rewrite time_filter_result.
  assert (Bl : forall e,
             excluded pd data kw = Raise e ->
             (e = ValueError
              /\ exists tokens,
                  blacklist kw = Some (Many tokens)
                  /\ existsb (gives_value pd data) tokens = false
                  /\ existsb (gives_rows pd data) tokens = false)
             \/ (e = TypeError
                 /\ exists tokens,
                     blacklist kw = Some (Many tokens)
                     /\ existsb (gives_value pd data) tokens = true)
             \/ (e = AttributeError
                 /\ exists l, blacklist kw = Some (One (TLabel l))
                              /\ gives_rows pd data (TLabel l) = false)).
  { intros e0. unfold excluded. destruct (blacklist kw) as [r |]; [| discriminate].
    destruct (data_in_range_cases data r Hinc)
      as [[f Hf] | [[[Hn | [v Hv]] [l [-> Hl]]] | [[Hv [tokens [-> Ht]]] | [Ht [tokens [-> Hty]]]]]].
    - rewrite Hf. discriminate.
    - rewrite Hn. intros E. inversion E. right. right. eauto.
    - rewrite Hv. intros E. inversion E. right. right. eauto.
    - rewrite Hv. intros E. inversion E. left. eauto.
    - rewrite Ht. intros E. inversion E. right. left. eauto. }
  assert (Stage : forall o : option (Frame.Selected A),
             (match o with Some (Frame.Rows _) => False | _ => True end) ->
             after_include o kw (excluded pd data kw) = Raise e ->
             (e = IndexError /\ times kw = Some (Windows [])) \/ e = AttributeError).
  { intros o Ho. unfold after_include.
    destruct o as [[sel | v] |]; [destruct Ho | |];
      (destruct (times kw) as [[w | [| w ws]] |];
       [ intros E; inversion E; now right
       | intros E; inversion E; now left
       | intros E; inversion E; now right
       | destruct (daysofweek kw); destruct (months kw); destruct (blacklist kw);
         try discriminate; intros E; inversion E; now right ]). }
  assert (Stage' : forall sel : Frame.t A,
             after_include (Some (Frame.Rows sel)) kw (excluded pd data kw) = Raise e ->
             (e = IndexError /\ times kw = Some (Windows []))
             \/ excluded pd data kw = Raise e).
  { intros sel. unfold after_include.
    destruct (times kw) as [[w | [| w ws]] |];
      try (intros E; inversion E; now left);
      destruct (excluded pd data kw) as [bl | e0]; try discriminate;
      intros E; right; inversion E; reflexivity. }
  unfold included. destruct (include kw) as [r |] eqn:Ei.
  - destruct (data_in_range_cases data r Hinc)
      as [[f Hf] | [[[Hn | [v Hv]] [l [-> Hl]]] | [[Hv [tokens [-> Ht]]] | [Ht [tokens [-> Hty]]]]]].
    + rewrite Hf. intros E. destruct (Stage' f E) as [H | H]; [now left |].
      destruct (Bl e H) as [[-> [ts [Hb Hx]]] | [[-> [ts [Hb Hx]]] | [-> [l [Hb Hx]]]]].
      * right. left. split; auto. exists ts. auto.
      * right. right. left. split; auto. exists ts. auto.
      * right. right. right. split; auto. exists l. auto.
    + rewrite Hn. intros E. destruct (Stage None I E) as [H | ->]; [now left |].
      right. right. right. split; auto. exists l. auto.
    + rewrite Hv. intros E.
      destruct (Stage (Some (Frame.Value v)) I E) as [H | ->]; [now left |].
      right. right. right. split; auto. exists l. auto.
    + rewrite Hv. intros E. inversion E. right. left. split; auto.
      exists tokens. auto.
    + rewrite Ht. intros E. inversion E. right. right. left. split; auto.
      exists tokens. auto.
  - intros E. destruct (Stage' data E) as [H | H]; [now left |].
    destruct (Bl e H) as [[-> [ts [Hb Hx]]] | [[-> [ts [Hb Hx]]] | [-> [l [Hb Hx]]]]].
    + right. left. split; auto. exists ts. auto.
    + right. right. left. split; auto. exists ts. auto.
    + right. right. right. split; auto. exists l. auto.
Qed.
End FilterFailures.

Module RunFacts.
Import Grouper GrouperFacts GrouperTheorems TrapzFacts.

Lemma trapz_threshold data offset :
  trapz data offset = sum (map approx_kwh (runs (threshold_of offset) data)).
Proof. apply trapz_runs. Qed.

Lemma runs_length {X} threshold (data : Frame.t X) :
  data <> [] ->
  List.length (runs threshold data) = S (gaps_above threshold (Frame.index data)).
Proof.
  induction data as [| r [| r' rest] IH]; intros Hne; [congruence | reflexivity |].
  rewrite runs_cons. specialize (IH ltac:(discriminate)).
  destruct (runs_head threshold r' rest) as [g [gs E]]. rewrite E in *.
  unfold gaps_above in *. cbn [Frame.index map] in *.
  rewrite np_diff_cons. cbn [filter].
  fold (exceeds threshold (fst r) (fst r')).
  destruct (exceeds threshold (fst r) (fst r')); cbn [List.length] in *; lia.
Qed.

Lemma not_gt d threshold : d <= threshold -> gt (of_i8 d) threshold = false.
Proof.
  intros H. unfold of_i8. destruct (d =? NaT); [reflexivity |].
  cbn [gt]. now apply Z.ltb_ge.
Qed.

Lemma runs_single {X} threshold (data : Frame.t X) :
  data <> [] ->
  Forall (fun d => d <= threshold) (np_diff (Frame.index data)) ->
  runs threshold data = [data].
Proof.
  induction data as [| r [| r' rest] IH]; intros Hne Hc; [congruence | reflexivity |].
  rewrite runs_cons.
  cbn [Frame.index map] in Hc. rewrite np_diff_cons in Hc.
  inversion Hc as [| ? ? Hgap Hrest]; subst.
  rewrite IH by (auto; discriminate).
  unfold exceeds. now rewrite (not_gt _ _ Hgap).
Qed.

Lemma runs_isolated {X} threshold (data : Frame.t X) :
  apart threshold (Frame.index data) ->
  runs threshold data = map (fun r => [r]) data.
Proof.
  induction data as [| r [| r' rest] IH]; intros H; [reflexivity | reflexivity |].
  rewrite runs_cons. cbn [Frame.index map apart] in H.
  destruct H as [Hgap [Hfit Hrest]].
  rewrite IH by exact Hrest. cbn [map].
  rewrite (exceeds_fit threshold _ _ Hfit).
  destruct (Z.ltb_spec threshold (fst r' - fst r)); [reflexivity | lia].
Qed.

Lemma runs_app {X} threshold (a b : Frame.t X) :
  a <> [] -> b <> [] ->
  exceeds threshold (last (Frame.index a) 0) (hd 0 (Frame.index b)) = true ->
  runs threshold (a ++ b) = (runs threshold a ++ runs threshold b)%list.
Proof.
  intros Ha Hb. destruct b as [| rb b]; [congruence |]. clear Hb.
  induction a as [| r [| r' rest] IH]; intros Hgap; [congruence | |].
  - cbn [app]. rewrite runs_cons.
    destruct (runs_head threshold rb b) as [g [gs E]]. rewrite E.
    cbn [Frame.index map hd last] in Hgap. now rewrite Hgap.
  - change ((r :: r' :: rest) ++ rb :: b)%list
      with (r :: r' :: (rest ++ rb :: b))%list.
    rewrite !runs_cons.
    change (r' :: (rest ++ rb :: b))%list with ((r' :: rest) ++ rb :: b)%list.
    rewrite IH.
    + destruct (runs_head threshold r' rest) as [g [gs E]]. rewrite E.
      destruct (exceeds threshold (fst r) (fst r')); reflexivity.
    + discriminate.
    + exact Hgap.
Qed.

Lemma wrap_mod z : Int64.wrap z mod 2 ^ 64 = z mod 2 ^ 64.
Proof.
  unfold Int64.wrap.
  rewrite <- (Zminus_mod_idemp_l ((z + 2 ^ 63) mod 2 ^ 64)).
  rewrite Z.mod_mod by discriminate.
  rewrite Zminus_mod_idemp_l. f_equal. lia.
Qed.

Lemma wrap_eq x y : x mod 2 ^ 64 = y mod 2 ^ 64 -> Int64.wrap x = Int64.wrap y.
Proof.
  intros H. unfold Int64.wrap.
  rewrite <- (Zplus_mod_idemp_l x), <- (Zplus_mod_idemp_l y), H. reflexivity.
Qed.

(** [Series.sum()] of two parts is the 64-bit sum of the parts' sums. *)
Lemma sum_app l1 l2 : sum (l1 ++ l2) = Int64.wrap (sum l1 + sum l2).
Proof.
  unfold sum. apply wrap_eq.
  rewrite <- (Zplus_mod_idemp_l (Int64.wrap _)), <- (Zplus_mod_idemp_r (Int64.wrap _)).
  rewrite !wrap_mod.
  rewrite Zplus_mod_idemp_l, Zplus_mod_idemp_r. f_equal.
  induction l1 as [| x l1 IH]; simpl; lia.
Qed.

Lemma hourly_cons t0 n v : hourly t0 (S n) v = (t0, v) :: hourly (t0 + hour) n v.
Proof.
  unfold hourly. cbn [seq map]. f_equal.
  - f_equal. lia.
  - rewrite <- seq_shift, map_map. apply map_ext. intros i.
    f_equal. rewrite Nat2Z.inj_succ. lia.
Qed.

Lemma hourly_steps t0 n v :
  np_diff (Frame.index (hourly t0 (S n) v)) = repeat hour n.
Proof.
  revert t0. induction n as [| n IH]; intros t0; [reflexivity |].
  rewrite hourly_cons. specialize (IH (t0 + hour)).
  rewrite hourly_cons in *. cbn [Frame.index map fst] in *.
  rewrite np_diff_cons, IH, td_sub_hour. reflexivity.
Qed.

Lemma hourly_values t0 n v : Frame.values (hourly t0 n v) = repeat v n.
Proof.
  unfold Frame.values, hourly. rewrite map_map. cbn [snd].
  generalize 0%nat. induction n as [| n IH]; intros k; simpl; [reflexivity |].
  now rewrite IH.
Qed.

Lemma removelast_repeat {X} (x : X) n : removelast (repeat x (S n)) = repeat x n.
Proof.
  induction n as [| n IH]; [reflexivity |].
  change (repeat x (S (S n))) with (x :: repeat x (S n)).
  cbn [removelast]. now rewrite IH.
Qed.

Lemma zip_with_repeat {X Y W} (f : X -> Y -> W) x y n :
  zip_with f (repeat x n) (repeat y n) = repeat (f x y) n.
Proof. induction n as [| n IH]; simpl; congruence. Qed.

(** The 64-bit sum of [n] equal steps that stay in range. *)
Lemma td_sum_repeat c n acc :
  Z.abs acc + Z.of_nat n * Z.abs c <= Int64.max ->
  fold_left td_add (repeat c n) acc = acc + Z.of_nat n * c.
Proof.
  revert acc. induction n as [| n IH]; intros acc H; [simpl; lia |].
  cbn [repeat fold_left].
  rewrite Nat2Z.inj_succ in *.
  assert (E : td_add acc c = acc + c).
  { unfold td_add, NaT, Int64.min, Int64.max in *.
    destruct (Z.eqb_spec acc (- 2 ^ 63)); [lia |].
    destruct (Z.eqb_spec c (- 2 ^ 63)); [lia |].
    cbn [orb]. apply wrap_small. unfold Int64.min, Int64.max. lia. }
  rewrite E, IH by lia. lia.
Qed.

Lemma np_trapz_hourly t0 n (v : Z) :
  Z.abs v <= 1281023 -> Z.of_nat n * Z.abs v <= 2562047 ->
  np_trapz (Frame.values (hourly t0 (S n) (Float64.of_Z v)))
           (Frame.index (hourly t0 (S n) (Float64.of_Z v)))
  = Z.of_nat n * (hour * v).
Proof.
  intros Hv Hn. unfold np_trapz.
  rewrite hourly_steps, hourly_values.
  change (tl (repeat (Float64.of_Z v) (S n))) with (repeat (Float64.of_Z v) n).
  rewrite removelast_repeat.
  rewrite !zip_with_repeat, constant_hour_whole by exact Hv.
  unfold td_sum. rewrite td_sum_repeat; [lia |].
  unfold Int64.max, hour. change (2 ^ 63) with 9223372036854775808.
  rewrite Z.abs_mul. cbn [Z.abs]. lia.
Qed.
End RunFacts.

Module RunTheorems.
Import Grouper GrouperFacts GrouperTheorems TrapzFacts RunFacts.

(** X8. Readings with data give one run more than there are successive
    timestamp differences, as computed in 64 bits, above the threshold;
    when no difference is above it, the only run, labelled 0, is the whole
    data; no data gives no run. *)
Theorem consecutives_run_count {X} (data : Frame.t X) threshold :
  (data <> [] ->
   List.length (consecutives data threshold)
   = S (gaps_above threshold (Frame.index data)))
  /\ (data <> [] ->
      Forall (fun d => d <= threshold) (np_diff (Frame.index data)) ->
      consecutives data threshold = [(0, data)])
  /\ consecutives (@nil (Z * X)) threshold = [].
Proof.
  split; [| split]; [| | reflexivity].
  - intros H. rewrite consecutives_runs, label_from_length.
    now apply runs_length.
  - intros H Hc. rewrite consecutives_runs, runs_single; auto.
Qed.

(** X9. A gap above the threshold contributes nothing: when the first
    reading of [b] comes more than the threshold after the last reading of
    [a], by a step that fits a [Timedelta], the total of [a] followed by
    [b] is the 64-bit sum of their totals. *)
Theorem trapz_additive_across_gap (a b : Frame.t Float64.t) offset :
  a <> [] -> b <> [] ->
  threshold_of offset < hd 0 (Frame.index b) - last (Frame.index a) 0 ->
  Int64.min < hd 0 (Frame.index b) - last (Frame.index a) 0 <= Int64.max ->
  trapz (a ++ b) offset = Int64.wrap (trapz a offset + trapz b offset).
Proof.
  intros Ha Hb Hgap Hfit.
  assert (He : exceeds (threshold_of offset) (last (Frame.index a) 0)
                       (hd 0 (Frame.index b)) = true).
  { rewrite (exceeds_fit _ _ _ Hfit). now apply Z.ltb_lt. }
  rewrite !trapz_threshold, runs_app, map_app, sum_app by assumption.
  reflexivity.
Qed.

(** X10. Readings that are all more than the threshold apart, by steps
    that fit a [Timedelta], total 0: a run of one reading has no area. *)
Theorem trapz_isolated (data : Frame.t Float64.t) offset :
  apart (threshold_of offset) (Frame.index data) ->
  trapz data offset = 0.
Proof.
  intros H. rewrite trapz_threshold, runs_isolated by assumption.
  rewrite map_map. unfold sum.
  assert (E : fold_right Z.add 0 (map (fun x => approx_kwh [x]) data) = 0).
  { clear H. induction data as [| r data IH]; [reflexivity |].
    cbn [map fold_right]. rewrite IH. reflexivity. }
  rewrite E. reflexivity.
Qed.

(** X12. [n + 1] hourly readings of a constant whole power [v], taken as
    one run, total [n * v], wherever the series starts, as long as [v] is
    between -1281023 and 1281023 and [n * |v|] is at most 2562047, so that
    no product or sum leaves the 64-bit range. *)
Theorem trapz_hourly_whole t0 n (v : Z) offset :
  hour <= threshold_of offset ->
  Z.abs v <= 1281023 -> Z.of_nat n * Z.abs v <= 2562047 ->
  trapz (hourly t0 (S n) (Float64.of_Z v)) offset = Z.of_nat n * v.
Proof.
  intros H Hv Hn. rewrite trapz_threshold, runs_single.
  - cbn [map]. unfold sum, approx_kwh. cbn [fold_right].
    rewrite np_trapz_hourly by assumption.
    assert (Hr : Z.abs (Z.of_nat n * (hour * v)) <= 9223369200000000000).
    { rewrite !Z.abs_mul. unfold hour. cbn [Z.abs].
      rewrite (Z.abs_eq (Z.of_nat n)) by lia. lia. }
    unfold NaT, Int64.min.
    destruct (Z.eqb_spec (Z.of_nat n * (hour * v)) (- 2 ^ 63));
      [change (2 ^ 63) with 9223372036854775808 in *; lia |].
    replace (Z.of_nat n * (hour * v)) with (Z.of_nat n * v * hour) by lia.
    rewrite Z.div_mul by discriminate. rewrite Z.add_0_r.
    apply wrap_small. unfold Int64.min, Int64.max.
    change (2 ^ 63) with 9223372036854775808.
    assert (Z.abs (Z.of_nat n * v) <= 2562047)
      by (rewrite Z.abs_mul, (Z.abs_eq (Z.of_nat n)) by lia; lia).
    lia.
  - rewrite hourly_cons. discriminate.
  - rewrite hourly_steps. apply Forall_forall. intros d Hd.
    apply repeat_spec in Hd. subst. exact H.
Qed.

(** X13. The total depends on the timestamps only through their
    differences: moving every timestamp by the same amount leaves it as it
    is. *)
Theorem trapz_time_origin t0 (data : Frame.t Float64.t) offset :
  trapz (translate t0 data) offset = trapz data offset.
Proof. apply trapz_translate. Qed.
End RunTheorems.

Module IntersectorTheorems.
Import Intersector IntersectorFacts.

Lemma unique_In x ix : In x (unique ix) <-> In x ix.
Proof.
  induction ix as [| y ix IH]; simpl; [tauto |].
  rewrite filter_In, IH, negb_true_iff, Z.eqb_neq.
  destruct (Z.eq_dec y x); intuition congruence.
Qed.

Lemma intersection_In x ix1 ix2 :
  In x (intersection ix1 ix2) <-> In x ix1 /\ In x ix2.
Proof.
  unfold intersection. rewrite unique_In, filter_In, mem_In. tauto.
Qed.

Lemma loc_In {A} (data : Frame.t A) ixs row :
  In row (loc data ixs) <-> In row data /\ In (fst row) ixs.
Proof.
  unfold loc. rewrite in_flat_map. split.
  - intros [x [Hx Hr]]. unfold Frame.select in Hr. apply filter_In in Hr.
    destruct Hr as [Hr E]. apply Z.eqb_eq in E. subst. auto.
  - intros [Hr Hx]. exists (fst row). split; auto.
    unfold Frame.select. apply filter_In. split; auto. apply Z.eqb_refl.
Qed.

Lemma unique_NoDup_any ix : NoDup (unique ix).
Proof.
  induction ix as [| x ix IH]; simpl; constructor.
  - rewrite filter_In, negb_true_iff, Z.eqb_neq. tauto.
  - now apply NoDup_filter.
Qed.

Lemma select_one {A} (data : Frame.t A) x :
  NoDup (Frame.index data) -> In x (Frame.index data) ->
  exists v, Frame.select (Z.eqb x) data = [(x, v)].
Proof.
  induction data as [| [l v] data IH]; simpl; intros Hnd Hin; [tauto |].
  inversion Hnd as [| ? ? Hl Hnd']; subst.
  unfold Frame.select in *. simpl.
  destruct (Z.eqb_spec x l) as [-> | Hne].
  - exists v. f_equal. fold (Frame.select (Z.eqb l) data).
    now apply select_absent.
  - apply IH; auto. destruct Hin; congruence.
Qed.

Lemma loc_index {A} (data : Frame.t A) ixs :
  NoDup (Frame.index data) ->
  (forall x, In x ixs -> In x (Frame.index data)) ->
  Frame.index (loc data ixs) = ixs.
Proof.
  intros Hnd. unfold loc, Frame.index.
  induction ixs as [| x ixs IH]; intros H; [reflexivity |].
  cbn [flat_map]. rewrite map_app, IH by (intros; apply H; now right).
  destruct (select_one data x Hnd (H x (or_introl eq_refl))) as [v E].
  rewrite E. reflexivity.
Qed.

Lemma NoDup_rows {A} (data : Frame.t A) :
  NoDup (Frame.index data) -> NoDup data.
Proof. apply NoDup_map_inv. Qed.

Section Pair.
Context {A B : Type}.

Lemma intersect_rows_aux (a : Frame.t A) (b : Frame.t B) :
  (forall row, In row (fst (intersect a b))
               <-> In row a /\ In (fst row) (Frame.index b))
  /\ (forall row, In row (snd (intersect a b))
                  <-> In row b /\ In (fst row) (Frame.index a)).
Proof.
  unfold intersect. cbn [fst snd]. split; intros row;
    rewrite loc_In, intersection_In.
  - split; [tauto |]. intros [Hr Hb]. repeat split; auto.
    unfold Frame.index. now apply in_map.
  - split; [tauto |]. intros [Hr Ha]. repeat split; auto.
    unfold Frame.index. now apply in_map.
Qed.

(** X14. The first result of [intersect] holds exactly the rows of the
    first frame whose label the second frame holds too, and the second
    result exactly the rows of the second frame whose label the first frame
    holds; this needs no uniqueness of labels. *)
Theorem intersect_rows (a : Frame.t A) (b : Frame.t B) :
  (forall row, In row (fst (intersect a b))
               <-> In row a /\ In (fst row) (Frame.index b))
  /\ (forall row, In row (snd (intersect a b))
                  <-> In row b /\ In (fst row) (Frame.index a)).
Proof. apply intersect_rows_aux. Qed.

Lemma intersect_index (a : Frame.t A) (b : Frame.t B) :
  NoDup (Frame.index a) -> NoDup (Frame.index b) ->
  Frame.index (fst (intersect a b)) = intersection (Frame.index a) (Frame.index b)
  /\ Frame.index (snd (intersect a b)) = intersection (Frame.index a) (Frame.index b).
Proof.
  intros Ha Hb. unfold intersect. cbn [fst snd].
  split; apply loc_index; auto; intros x Hx; apply intersection_In in Hx; tauto.
Qed.

(** X15. On frames without repeated labels the two results are aligned:
    they carry the same labels in the same order, which is the order of the
    first frame. *)
Theorem intersect_aligned (a : Frame.t A) (b : Frame.t B) :
  NoDup (Frame.index a) -> NoDup (Frame.index b) ->
  Frame.index (fst (intersect a b)) = Frame.index (snd (intersect a b))
  /\ Frame.index (fst (intersect a b))
     = filter (fun x => Frame.mem x (Frame.index b)) (Frame.index a).
Proof.
  intros Ha Hb. destruct (intersect_index a b Ha Hb) as [E1 E2].
  split; [congruence |]. rewrite E1. unfold intersection.
  apply unique_NoDup. now apply NoDup_filter.
Qed.
End Pair.

(** X16. On frames without repeated labels, intersecting the two results
    again changes nothing. *)
Theorem intersect_idempotent {A B} (a : Frame.t A) (b : Frame.t B) :
  NoDup (Frame.index a) -> NoDup (Frame.index b) ->
  intersect (fst (intersect a b)) (snd (intersect a b)) = intersect a b.
Proof.
  intros Ha Hb. destruct (intersect_index a b Ha Hb) as [E1 E2].
  set (a' := fst (intersect a b)) in *. set (b' := snd (intersect a b)) in *.
  set (ixs := intersection (Frame.index a) (Frame.index b)) in *.
  assert (Hix : NoDup ixs) by apply unique_NoDup_any.
  unfold intersect at 1. rewrite E1, E2.
  assert (Es : intersection ixs ixs = ixs).
  { unfold intersection. rewrite filter_all by (intros x; apply mem_In).
    now apply unique_NoDup. }
  rewrite Es.
  assert (La : loc a' ixs = a').
  { rewrite <- E1 at 1.
    rewrite <- (filter_all (fun _ => true) (Frame.index a')) by reflexivity.
    rewrite loc_filter_index by (rewrite E1; exact Hix).
    now apply filter_all. }
  assert (Lb : loc b' ixs = b').
  { rewrite <- E2 at 1.
    rewrite <- (filter_all (fun _ => true) (Frame.index b')) by reflexivity.
    rewrite loc_filter_index by (rewrite E2; exact Hix).
    now apply filter_all. }
  rewrite La, Lb. symmetry. apply surjective_pairing.
Qed.

(** X17. On frames without repeated labels, swapping the arguments swaps
    the results up to the order of their rows. *)
Theorem intersect_swap {A B} (a : Frame.t A) (b : Frame.t B) :
  NoDup (Frame.index a) -> NoDup (Frame.index b) ->
  Permutation (fst (intersect b a)) (snd (intersect a b))
  /\ Permutation (snd (intersect b a)) (fst (intersect a b)).
Proof.
  intros Ha Hb.
  destruct (intersect_index a b Ha Hb) as [E1 E2].
  destruct (intersect_index b a Hb Ha) as [F1 F2].
  assert (N : forall ix1 ix2, NoDup (intersection ix1 ix2))
    by (intros; apply unique_NoDup_any).
  split; apply NoDup_Permutation.
  - apply NoDup_rows. rewrite F1. apply N.
  - apply NoDup_rows. rewrite E2. apply N.
  - intros row. rewrite (proj1 (intersect_rows_aux b a) row),
      (proj2 (intersect_rows_aux a b) row). tauto.
  - apply NoDup_rows. rewrite F2. apply N.
  - apply NoDup_rows. rewrite E1. apply N.
  - intros row. rewrite (proj2 (intersect_rows_aux b a) row),
      (proj1 (intersect_rows_aux a b) row). tauto.
Qed.
End IntersectorTheorems.

Module FitFacts.
Import LogNormal LogNormalFacts FitTheorems QuantileFacts QuantileTheorems
       SortFacts AdjustFacts AdjustTheorems Variation.
Local Open Scope R_scope.

Lemma sorted_nth_In (l : list R) i :
  (i < List.length l)%nat -> In (nth i (sort_by Rltb l) 0) l.
Proof.
  intros H. apply (Permutation_in _ (sort_by_perm Rltb l)).
  apply nth_In. now rewrite sort_by_length.
Qed.

Lemma real_median_nonneg l :
  Forall (fun a => 0 <= a) l -> 0 <= real_median l.
Proof.
  intros H. rewrite Forall_forall in H. unfold real_median.
  rewrite sort_by_length.
  destruct l as [| x l'] eqn:El.
  - simpl. lra.
  - rewrite <- El in *.
    assert (Hn : (0 < List.length l)%nat) by (subst l; simpl; lia).
    assert (Hh : (List.length l / 2 < List.length l)%nat) by (apply Nat.div_lt; lia).
    destruct (Nat.odd (List.length l)).
    + apply H, sorted_nth_In. lia.
    + assert (0 <= nth (List.length l / 2 - 1) (sort_by Rltb l) 0)
        by (apply H, sorted_nth_In; lia).
      assert (0 <= nth (List.length l / 2) (sort_by Rltb l) 0)
        by (apply H, sorted_nth_In; lia).
      lra.
Qed.

Lemma real_mad_nonneg l : 0 <= real_mad l.
Proof.
  unfold real_mad. apply real_median_nonneg.
  apply Forall_forall. intros a Ha. apply in_map_iff in Ha.
  destruct Ha as [b [<- _]]. apply Rabs_pos.
Qed.

Lemma log_transform_zeros_to_ones series :
  log_transform (zeros_to_ones series) = log_transform series.
Proof.
  unfold log_transform, zeros_to_ones. rewrite !map_map. cbn [fst snd].
  apply map_ext. intros [l x]. cbn [fst snd]. f_equal.
  destruct (Reqb x 0) eqn:E; [| reflexivity].
  apply Reqb_true in E. subst x.
  unfold np_log.
  rewrite (proj2 (Rltb_true 0 1)) by lra.
  rewrite (proj2 (Rltb_false 0 0)) by lra.
  rewrite (proj2 (Reqb_true 0 0)) by reflexivity.
  cbn [isneginf]. now rewrite ln_1.
Qed.

Section Fit.
Variable gaussian_kde : list npfloat -> outcome (R -> npfloat).
Variable minimize_scalar : (R -> npfloat) -> npfloat -> npfloat -> outcome npfloat.
Variable ndtri : R -> R.

(** Whatever the density estimate and the search do, a fit that returns
    has the shape computed from the log values alone. *)
Lemma lognorm_params_shape series shape loc scale :
  result (lognorm_params gaussian_kde minimize_scalar series) = Ok (shape, loc, scale) ->
  shape = np_mul (mad (Frame.values (log_transform series))) (Fin 1.4826)
  /\ loc = 0%Z
  /\ exists est_mu, scale = np_exp est_mu.
Proof.
  unfold lognorm_params, lift.
  destruct (gaussian_kde (Frame.values (log_transform series))) as [kde | e];
    [| discriminate].
  cbn [bind app].
  destruct (minimize_scalar _ _ _) as [est_mu | e]; [| discriminate].
  cbn [bind ret app result snd]. intros E. inversion E. eauto.
Qed.
End Fit.
End FitFacts.

Module FitExtras.
Import LogNormal LogNormalFacts FitTheorems QuantileFacts QuantileTheorems
       SortFacts AdjustFacts AdjustTheorems Variation FitFacts.
Local Open Scope R_scope.

Lemma dropna_idem l : dropna (dropna l) = dropna l.
Proof.
  unfold dropna. induction l as [| a l IH]; simpl; auto.
  destruct (isnan a) eqn:E; simpl; rewrite ?E; simpl; congruence.
Qed.

Lemma median_dropna x y : dropna x = dropna y -> median x = median y.
Proof. intros E. unfold median. now rewrite E. Qed.

Lemma dropna_deviations m l :
  dropna (map (fun a => np_abs (np_sub a m)) l)
  = dropna (map (fun a => np_abs (np_sub a m)) (dropna l)).
Proof.
  unfold dropna. induction l as [| a l IH]; [reflexivity |].
  destruct a; cbn [map filter isnan negb].
  - destruct m; cbn [np_sub np_neg np_add np_abs isnan negb]; exact IH.
  - destruct (negb (isnan (np_abs (np_sub NegInf m)))); now rewrite IH.
  - destruct (negb (isnan (np_abs (np_sub PosInf m)))); now rewrite IH.
  - destruct (negb (isnan (np_abs (np_sub (Fin r) m)))); now rewrite IH.
Qed.

(** X18. NaN entries do not take part in [mad]: the deviation of a sample
    is the deviation of the sample without them. *)
Theorem mad_ignores_nan (data : list npfloat) : mad data = mad (dropna data).
Proof.
  unfold mad.
  assert (Em : median (dropna data) = median data)
    by (apply median_dropna, dropna_idem).
  rewrite Em. apply median_dropna, dropna_deviations.
Qed.

Section Fit.
Variable gaussian_kde : list npfloat -> outcome (R -> npfloat).
Variable minimize_scalar : (R -> npfloat) -> npfloat -> npfloat -> outcome npfloat.
Variable ndtri : R -> R.

(** X19. The fit cannot tell a reading of 0 from a reading of 1: replacing
    every 0 by 1 gives the same parameters, the same failure included. *)
Theorem lognorm_params_zero_as_one (series : list (Z * R)) :
  lognorm_params gaussian_kde minimize_scalar (zeros_to_ones series)
  = lognorm_params gaussian_kde minimize_scalar series.
Proof.
  unfold lognorm_params. now rewrite log_transform_zeros_to_ones.
Qed.

(** X20. A fit that returns has location 0 and a scale that is never
    negative; for a non-empty sample of readings that are not negative its
    shape is a finite number that is not negative. *)
Theorem lognorm_params_ranges (series : list (Z * R)) shape loc scale :
  result (lognorm_params gaussian_kde minimize_scalar series)
  = Ok (shape, loc, scale) ->
  loc = 0%Z
  /\ scale <> NegInf
  /\ (forall c, scale = Fin c -> 0 <= c)
  /\ (series <> [] -> (forall r, In r series -> 0 <= snd r) ->
      exists s, shape = Fin s /\ 0 <= s).
Proof.
  intros H.
  destruct (lognorm_params_shape gaussian_kde minimize_scalar series _ _ _ H)
    as [Es [El [mu Ec]]].
  split; [exact El |]. split; [| split].
  - subst scale. destruct mu; discriminate.
  - intros c E. subst scale. destruct mu; inversion E; subst; try lra.
    apply Rlt_le, exp_pos.
  - intros Hne Hpos. rewrite (log_transform_values series Hpos) in Es.
    rewrite mad_Fin in Es
      by (unfold Frame.values; destruct series; simpl; congruence).
    cbn [np_mul] in Es. eexists. split; [exact Es |].
    pose proof (real_mad_nonneg (map spec_log (Frame.values series))). lra.
Qed.

End Fit.
End FitExtras.

Module AdjustExtras.
Import LogNormal LogNormalFacts FitTheorems QuantileFacts QuantileTheorems
       SortFacts AdjustFacts AdjustTheorems FitFacts.
Local Open Scope R_scope.

Lemma values_combine {X Y} (l1 : list X) (l2 : list Y) :
  List.length l1 = List.length l2 -> map snd (combine l1 l2) = l2.
Proof.
  revert l2. induction l1 as [| a l1 IH]; intros [| b l2] H; simpl in *;
    try lia; auto.
  f_equal. apply IH. lia.
Qed.

Lemma quantiles_ranked series buffer :
  (Z.of_nat (List.length series) + 2 * buffer - 1 <> 0)%Z ->
  quantiles series (1 / IZR (Z.of_nat (List.length series) + 2 * buffer - 1)) buffer
  = Frame.sort_index
      (combine (Frame.index (sort_values series))
               (map (rank_quantile (List.length series) buffer)
                    (seq 0 (List.length series)))).
Proof.
  intros Hden. unfold quantiles.
  now rewrite (linspace_rank_quantile (List.length series) buffer Hden).
Qed.

Section Fit.
Variable gaussian_kde : list npfloat -> outcome (R -> npfloat).
Variable minimize_scalar : (R -> npfloat) -> npfloat -> npfloat -> outcome npfloat.
Variable ndtri : R -> R.

(** X23. When the fit returns and [size + 2 buffer - 1] is not 0, the
    adjusted series is in label order, carries the labels of the sample,
    and its values are the inverse distribution function at the quantiles of
    the ranks: the readings decide only which label gets which of these
    values. *)
Theorem adjust_sample_values (series : list (Z * R)) buffer params :
  (Z.of_nat (List.length series) + 2 * buffer - 1 <> 0)%Z ->
  result (lognorm_params gaussian_kde minimize_scalar series) = Ok params ->
  exists adjusted,
    result (adjust_sample gaussian_kde minimize_scalar ndtri series buffer)
    = Ok adjusted
    /\ StronglySorted Z.le (Frame.index adjusted)
    /\ Permutation (Frame.index adjusted) (Frame.index series)
    /\ Permutation (Frame.values adjusted)
         (map (fun i => lognorm_ppf ndtri
                          (rank_quantile (List.length series) buffer i) params)
              (seq 0 (List.length series))).
Proof.
  intros Hden Hfit.
  rewrite (adjust_sample_ok _ _ ndtri series buffer params Hden Hfit).
  rewrite (quantiles_ranked series buffer Hden).
  set (n := List.length series).
  set (C := combine (Frame.index (sort_values series))
                    (map (rank_quantile n buffer) (seq 0 n))).
  assert (Hlen : List.length (Frame.index (sort_values series))
                 = List.length (map (rank_quantile n buffer) (seq 0 n))).
  { rewrite sort_values_length, length_map, length_seq. reflexivity. }
  eexists. split; [reflexivity |].
  unfold Frame.index, Frame.values. rewrite !map_map. cbn [fst snd].
  split; [| split].
  - apply (StronglySorted_map fst Z.le), sort_index_sorted.
  - transitivity (map fst C).
    + apply Permutation_map, sort_by_perm.
    + fold (Frame.index C). unfold C. rewrite index_combine by exact Hlen.
      apply Permutation_map, sort_by_perm.
  - rewrite <- (map_map snd (fun q => lognorm_ppf ndtri q params)).
    rewrite <- (map_map (rank_quantile n buffer)
                        (fun q => lognorm_ppf ndtri q params)).
    apply Permutation_map.
    transitivity (map snd C).
    + apply Permutation_map, sort_by_perm.
    + unfold C. now rewrite values_combine.
Qed.

(** X24. A fit that raises makes [adjust_sample] raise the same error; when
    the fit returns, [adjust_sample] raises exactly when
    [size + 2 buffer - 1] is 0, then a [ZeroDivisionError], and otherwise
    returns as many values as there are readings. *)
Theorem adjust_sample_outcome (series : list (Z * R)) buffer :
  (forall e,
      result (lognorm_params gaussian_kde minimize_scalar series) = Raise e ->
      result (adjust_sample gaussian_kde minimize_scalar ndtri series buffer)
      = Raise e)
  /\ (forall params,
         result (lognorm_params gaussian_kde minimize_scalar series) = Ok params ->
         ((Z.of_nat (List.length series) + 2 * buffer - 1 = 0)%Z ->
          result (adjust_sample gaussian_kde minimize_scalar ndtri series buffer)
          = Raise ZeroDivisionError)
         /\ ((Z.of_nat (List.length series) + 2 * buffer - 1 <> 0)%Z ->
             exists adjusted,
               result (adjust_sample gaussian_kde minimize_scalar ndtri series buffer)
               = Ok adjusted
               /\ List.length adjusted = List.length series)).
Proof.
  split.
  - intros e H. unfold adjust_sample. now apply result_bind_raise.
  - intros params H. split.
    + intros Hden. unfold adjust_sample.
      erewrite result_bind_ok by exact H.
      apply Z.eqb_eq in Hden. now rewrite Hden.
    + intros Hden.
      rewrite (adjust_sample_ok _ _ ndtri series buffer params Hden H).
      eexists. split; [reflexivity |].
      rewrite length_map, (quantiles_ranked series buffer Hden).
      unfold Frame.sort_index. rewrite sort_by_length, length_combine.
      rewrite sort_values_length, length_map, length_seq. apply Nat.min_id.
Qed.

(** With a buffer of 0 the labels of the first and the last rank get the
    location and plus infinity. *)
Lemma buffer_zero_ends (series : list (Z * R)) s loc c :
  (2 <= List.length series)%nat ->
  result (lognorm_params gaussian_kde minimize_scalar series)
  = Ok (Fin s, loc, Fin c) ->
  0 < s -> 0 < c ->
  exists adjusted,
    result (adjust_sample gaussian_kde minimize_scalar ndtri series 0) = Ok adjusted
    /\ In (nth 0 (Frame.index (sort_values series)) 0%Z, Fin (IZR loc)) adjusted
    /\ In (nth (List.length series - 1) (Frame.index (sort_values series)) 0%Z,
           PosInf) adjusted.
Proof.
  intros Hn Hfit Hs Hc.
  assert (Hden : (Z.of_nat (List.length series) + 2 * 0 - 1 <> 0)%Z) by lia.
  rewrite (adjust_sample_ok _ _ ndtri series 0%Z _ Hden Hfit).
  rewrite (quantiles_ranked series 0%Z Hden).
  set (n := List.length series) in *.
  set (g := fun r : Z * R => (fst r, lognorm_ppf ndtri (snd r) (Fin s, loc, Fin c))).
  assert (rank : forall i, (i < n)%nat ->
            In (g (nth i (Frame.index (sort_values series)) 0%Z,
                   rank_quantile n 0 i))
               (map g (Frame.sort_index
                         (combine (Frame.index (sort_values series))
                                  (map (rank_quantile n 0) (seq 0 n)))))).
  { intros i Hi. apply in_map.
    apply (Permutation_in _ (Permutation_sym (sort_by_perm _ _))).
    rewrite <- (rank_quantile_nth n 0 i Hi).
    apply In_combine_nth.
    - now rewrite sort_values_length.
    - now rewrite length_map, length_seq. }
  assert (E0s : Rltb 0 s = true) by now apply Rltb_true.
  assert (E0c : Rltb 0 c = true) by now apply Rltb_true.
  assert (Q0 : rank_quantile n 0 0 = 0).
  { unfold rank_quantile. simpl INR. unfold Rdiv. now rewrite Rplus_0_l, Rmult_0_l. }
  assert (Q1 : rank_quantile n 0 (n - 1) = 1).
  { unfold rank_quantile. rewrite den_IZR, minus_INR by lia. simpl INR.
    assert (2 <= INR n) by (apply (le_INR 2); lia).
    field. lra. }
  eexists. split; [reflexivity |]. split.
  - pose proof (rank 0%nat ltac:(lia)) as H. unfold g at 1 in H.
    cbn [fst snd] in H. rewrite Q0 in H.
    unfold lognorm_ppf in H. cbn [np_ltb] in H. rewrite E0s, E0c in H.
    rewrite (proj2 (Rltb_false 0 0)) in H by lra.
    rewrite (proj2 (Reqb_true 0 0)) in H by reflexivity.
    cbn [andb np_mul np_add] in H.
    replace (0 * c + IZR loc) with (IZR loc) in H by lra. exact H.
  - pose proof (rank (n - 1)%nat ltac:(lia)) as H. unfold g at 1 in H.
    cbn [fst snd] in H. rewrite Q1 in H.
    unfold lognorm_ppf in H. cbn [np_ltb] in H. rewrite E0s, E0c in H.
    rewrite (proj2 (Rltb_true 0 1)) in H by lra.
    rewrite (proj2 (Rltb_false 1 1)) in H by lra.
    rewrite (proj2 (Reqb_false 1 0)) in H by lra.
    rewrite (proj2 (Reqb_true 1 1)) in H by reflexivity.
    cbn [andb np_mul np_add signed] in H. unfold signed in H.
    rewrite E0c in H. exact H.
Qed.
(** X25. With a buffer of 0 the end quantiles are 0 and 1: for two or more
    readings and a positive finite shape and scale, the label of a smallest
    reading of the sample gets the location and the label of a largest
    reading gets plus infinity. *)
Theorem adjust_sample_buffer_zero (series : list (Z * R)) s loc c :
  (2 <= List.length series)%nat ->
  result (lognorm_params gaussian_kde minimize_scalar series)
  = Ok (Fin s, loc, Fin c) ->
  0 < s -> 0 < c ->
  exists adjusted lowest highest,
    result (adjust_sample gaussian_kde minimize_scalar ndtri series 0) = Ok adjusted
    /\ In lowest series /\ (forall r, In r series -> snd lowest <= snd r)
    /\ In highest series /\ (forall r, In r series -> snd r <= snd highest)
    /\ In (fst lowest, Fin (IZR loc)) adjusted
    /\ In (fst highest, PosInf) adjusted.
Proof.
  intros Hn Hfit Hs Hc.
  set (ranked := sort_values series).
  assert (Hlen : List.length ranked = List.length series)
    by apply sort_by_length.
  assert (Hperm : Permutation ranked series) by apply sort_by_perm.
  assert (Hsorted : StronglySorted (fun a b => snd a <= snd b) ranked)
    by apply sort_values_sorted.
  assert (Hrank : forall r, In r series ->
            exists i, (i < List.length series)%nat /\ nth i ranked (0%Z, 0) = r).
  { intros r Hr. apply (Permutation_in _ (Permutation_sym Hperm)) in Hr.
    destruct (In_nth _ _ (0%Z, 0) Hr) as [i [Hi E]]. exists i. split; [lia | exact E]. }
  destruct (buffer_zero_ends series s loc c Hn Hfit Hs Hc)
    as [adjusted [E [H0 H1]]].
  exists adjusted, (nth 0 ranked (0%Z, 0)),
    (nth (List.length series - 1) ranked (0%Z, 0)).
  split; [exact E |].
  split; [| split; [| split; [| split]]].
  - apply (Permutation_in _ Hperm), nth_In. lia.
  - intros r Hr. destruct (Hrank r Hr) as [i [Hi <-]].
    destruct i as [| i]; [apply Rle_refl |].
    apply (StronglySorted_nth _ ranked (0%Z, 0) 0 (S i) Hsorted); lia.
  - apply (Permutation_in _ Hperm), nth_In. lia.
  - intros r Hr. destruct (Hrank r Hr) as [i [Hi <-]].
    destruct (Nat.eq_dec i (List.length series - 1)) as [-> | Hne];
      [apply Rle_refl |].
    apply (StronglySorted_nth _ ranked (0%Z, 0) i (List.length series - 1) Hsorted);
      lia.
  - unfold ranked. rewrite <- !(map_nth fst). cbn [fst]. split; assumption.
Qed.
End Fit.
End AdjustExtras.

Module UnstackFacts.
Import Unstack Intersector IntersectorFacts IntersectorTheorems SortFacts.

Lemma key_eqb_eq k k' : key_eqb k k' = true <-> k = k'.
Proof.
  destruct k as [a b], k' as [a' b']. unfold key_eqb. simpl.
  rewrite andb_true_iff, !Z.eqb_eq. split; [intros [-> ->] | intros E; inversion E]; auto.
Qed.

Lemma key_eqb_refl k : key_eqb k k = true.
Proof. now apply key_eqb_eq. Qed.

Lemma has_duplicates_NoDup keys : has_duplicates keys = false <-> NoDup keys.
Proof.
  induction keys as [| k keys IH]; simpl.
  - split; [constructor | reflexivity].
  - rewrite orb_false_iff, IH. split.
    + intros [Hk Hnd]. constructor; auto. intros Hin.
      assert (E : existsb (key_eqb k) keys = true)
        by (apply existsb_exists; exists k; split; [exact Hin | apply key_eqb_refl]).
      congruence.
    + intros Hnd. inversion Hnd as [| ? ? Hk Hnd']; subst. split; auto.
      destruct (existsb (key_eqb k) keys) eqn:E; auto.
      apply existsb_exists in E. destruct E as [k' [Hin E]].
      apply key_eqb_eq in E. subst. contradiction.
Qed.

Lemma lookup_In {A} k (stacked : list ((Z * Z) * A)) v :
  lookup k stacked = Some v -> In (k, v) stacked.
Proof.
  induction stacked as [| [k' v'] rest IH]; simpl; [discriminate |].
  destruct (key_eqb k k') eqn:E.
  - apply key_eqb_eq in E. intros [= ->]. subst. now left.
  - auto.
Qed.

Lemma In_lookup {A} k (stacked : list ((Z * Z) * A)) v :
  NoDup (map fst stacked) -> In (k, v) stacked -> lookup k stacked = Some v.
Proof.
  induction stacked as [| [k' v'] rest IH]; simpl; [tauto |].
  intros Hnd [E | Hin].
  - inversion E; subst. now rewrite key_eqb_refl.
  - inversion Hnd as [| ? ? Hk Hnd']; subst.
    destruct (key_eqb k k') eqn:E.
    + apply key_eqb_eq in E. subst. exfalso. apply Hk.
      apply in_map_iff. exists (k', v). auto.
    + auto.
Qed.

Lemma filter_sorted {X} (R : X -> X -> Prop) p l :
  StronglySorted R l -> StronglySorted R (filter p l).
Proof.
  induction 1 as [| x l Hs IH Hall]; simpl; [constructor |].
  destruct (p x); auto. constructor; auto.
  rewrite Forall_forall in *. intros y Hy. apply filter_In in Hy. apply Hall, Hy.
Qed.

Lemma unique_sorted l : StronglySorted Z.le l -> StronglySorted Z.le (unique l).
Proof.
  induction 1 as [| x l Hs IH Hall]; simpl; constructor.
  - now apply filter_sorted.
  - rewrite Forall_forall in *. intros y Hy. apply filter_In in Hy.
    apply Hall, unique_In, Hy.
Qed.

Lemma level_In x l : In x (level l) <-> In x l.
Proof.
  unfold level. rewrite unique_In. split; intros H.
  - apply (Permutation_in _ (sort_by_perm Z.ltb l)), H.
  - apply (Permutation_in _ (Permutation_sym (sort_by_perm Z.ltb l))), H.
Qed.

Lemma level_sorted l : StronglySorted Z.lt (level l).
Proof.
  unfold level. apply StronglySorted_le_NoDup_lt; [| apply unique_NoDup_any].
  apply unique_sorted.
  apply (sort_by_sorted Z.ltb Z.le); intros; try apply Z.ltb_lt in H;
    try apply Z.ltb_ge in H; lia.
Qed.

Lemma position_In x axis : In x axis -> exists i, position x axis = Some i.
Proof.
  induction axis as [| y axis IH]; simpl; [tauto |].
  intros H. destruct (x =? y) eqn:E; [now exists 0%nat |].
  apply Z.eqb_neq in E. destruct H as [H | H]; [congruence |].
  destruct (IH H) as [i ->]. now exists (S i).
Qed.

Lemma position_Some x axis i : position x axis = Some i -> In x axis.
Proof.
  revert i. induction axis as [| y axis IH]; simpl; [discriminate |].
  intros i. destruct (x =? y) eqn:E.
  - apply Z.eqb_eq in E. auto.
  - destruct (position x axis); [| discriminate]. eauto.
Qed.

Lemma nth_position {Y} x axis i (f : Z -> Y) d :
  position x axis = Some i -> nth i (map f axis) d = f x.
Proof.
  revert i. induction axis as [| y axis IH]; simpl; [discriminate |].
  intros i. destruct (x =? y) eqn:E.
  - apply Z.eqb_eq in E. intros [= <-]. now subst.
  - destruct (position x axis) as [n |]; [| discriminate].
    intros [= <-]. now apply IH.
Qed.

(** The cells of a table built from stacked readings, read by labels. *)
Lemma cell_lookup {A} (stacked : list ((Z * Z) * A)) ts ds t d :
  In t ts -> In d ds ->
  cell (mkTable ts ds (map (fun t => map (fun d => lookup (t, d) stacked) ds) ts)) t d
  = lookup (t, d) stacked.
Proof.
  intros Ht Hd. unfold cell. simpl.
  destruct (position_In _ _ Ht) as [i Hi], (position_In _ _ Hd) as [j Hj].
  rewrite Hi, Hj.
  rewrite (nth_position t ts i (fun t => map (fun d => lookup (t, d) stacked) ds) [] Hi).
  apply (nth_position d ds j (fun d => lookup (t, d) stacked) None Hj).
Qed.

Lemma cell_Some {A} (table : Table A) t d v :
  cell table t d = Some v -> In t (table_index table) /\ In d (table_columns table).
Proof.
  unfold cell.
  destruct (position t (table_index table)) eqn:Ei; [| discriminate].
  destruct (position d (table_columns table)) eqn:Ej; [| discriminate].
  intros _. split; eapply position_Some; eauto.
Qed.

Lemma stacked_keys {A} (series : Frame.t A) :
  map fst (map (fun r => (key (fst r), snd r)) series) = map key (Frame.index series).
Proof. unfold Frame.index. rewrite !map_map. reflexivity. Qed.

Lemma unstack_result {A} (series : Frame.t A) :
  result (unstack_by_time series)
  = let stacked := map (fun r => (key (fst r), snd r)) series in
    if has_duplicates (map key (Frame.index series)) then Raise ValueError
    else Ok (mkTable (level (map fst (map key (Frame.index series))))
                     (level (map snd (map key (Frame.index series))))
                     (map (fun t => map (fun d => lookup (t, d) stacked)
                                        (level (map snd (map key (Frame.index series)))))
                          (level (map fst (map key (Frame.index series)))))).
Proof.
  unfold unstack_by_time. rewrite stacked_keys. cbv zeta.
  destruct (has_duplicates _); reflexivity.
Qed.
End UnstackFacts.

Module UnstackTheorems.
Import Unstack UnstackFacts.

(** X26. [unstack_by_time] raises exactly when two readings share a date
    and a time of day (to the microsecond), and then it raises
    [ValueError]; otherwise it returns a table and prints nothing. *)
Theorem unstack_by_time_failure {A} (series : Frame.t A) :
  printed (unstack_by_time series) = []
  /\ (NoDup (map key (Frame.index series)) ->
      exists table, result (unstack_by_time series) = Ok table)
  /\ (~ NoDup (map key (Frame.index series)) ->
      result (unstack_by_time series) = Raise ValueError).
Proof.
  split; [| split].
  - unfold unstack_by_time. destruct (has_duplicates _); reflexivity.
  - intros Hnd. rewrite unstack_result. cbv zeta.
    apply has_duplicates_NoDup in Hnd. rewrite Hnd. eauto.
  - intros Hnd. rewrite unstack_result. cbv zeta.
    destruct (has_duplicates _) eqn:E; auto.
    apply has_duplicates_NoDup in E. contradiction.
Qed.

(** X27. Unstacking loses and invents nothing: in the table returned, the
    cell at time of day [t] and date [d] holds [v] exactly when the
    series has the reading [v] at a timestamp of that date and time. *)
Theorem unstack_by_time_cells {A} (series : Frame.t A) table t d v :
  result (unstack_by_time series) = Ok table ->
  (cell table t d = Some v
   <-> exists ts, In (ts, v) series /\ key ts = (t, d)).
Proof.
  rewrite unstack_result. cbv zeta.
  destruct (has_duplicates _) eqn:E; [discriminate |].
  apply has_duplicates_NoDup in E. intros [= <-].
  set (stacked := map (fun r => (key (fst r), snd r)) series).
  assert (Hin : forall k w, In (k, w) stacked <-> exists ts, In (ts, w) series /\ key ts = k).
  { intros k w. unfold stacked. rewrite in_map_iff. split.
    - intros [[ts w'] [Eq Hr]]. simpl in Eq. inversion Eq; subst. eauto.
    - intros [ts [Hr <-]]. exists (ts, w). auto. }
  assert (Hnd : NoDup (map fst stacked)) by (unfold stacked; now rewrite stacked_keys).
  split.
  - intros Hc. pose proof (cell_Some _ _ _ _ Hc) as [Ht Hd]. simpl in Ht, Hd.
    rewrite (cell_lookup stacked _ _ t d Ht Hd) in Hc.
    apply Hin, lookup_In, Hc.
  - intros [ts [Hr Ek]].
    assert (Ht : In t (level (map fst (map key (Frame.index series))))).
    { apply level_In, in_map_iff. exists (t, d). split; auto.
      apply in_map_iff. exists ts. split; auto.
      apply in_map_iff. exists (ts, v). auto. }
    assert (Hd : In d (level (map snd (map key (Frame.index series))))).
    { apply level_In, in_map_iff. exists (t, d). split; auto.
      apply in_map_iff. exists ts. split; auto.
      apply in_map_iff. exists (ts, v). auto. }
    rewrite (cell_lookup stacked _ _ t d Ht Hd).
    apply In_lookup; auto. apply Hin. eauto.
Qed.

(** X28. The table returned is rectangular with one row per time of day
    and one column per date that occur in the series, each once and in
    increasing order. *)
Theorem unstack_by_time_shape {A} (series : Frame.t A) table :
  result (unstack_by_time series) = Ok table ->
  StronglySorted Z.lt (table_index table)
  /\ StronglySorted Z.lt (table_columns table)
  /\ (forall t, In t (table_index table)
                <-> exists ts, In ts (Frame.index series) /\ Frame.time_micros ts = t)
  /\ (forall d, In d (table_columns table)
                <-> exists ts, In ts (Frame.index series) /\ Frame.days_since_epoch ts = d)
  /\ List.length (table_cells table) = List.length (table_index table)
  /\ Forall (fun cells => List.length cells = List.length (table_columns table))
            (table_cells table).
Proof.
  rewrite unstack_result. cbv zeta.
  destruct (has_duplicates _); [discriminate |]. intros [= <-]. simpl.
  repeat split; try apply level_sorted.
  - intros H. apply (proj1 (level_In _ _)) in H. rewrite map_map in H.
    apply in_map_iff in H. destruct H as [ts [E H]].
    exists ts. split; [exact H | exact E].
  - intros [ts [H E]]. apply level_In. rewrite map_map.
    apply in_map_iff. exists ts. split; [exact E | exact H].
  - intros H. apply (proj1 (level_In _ _)) in H. rewrite map_map in H.
    apply in_map_iff in H. destruct H as [ts [E H]].
    exists ts. split; [exact H | exact E].
  - intros [ts [H E]]. apply level_In. rewrite map_map.
    apply in_map_iff. exists ts. split; [exact E | exact H].
  - now rewrite length_map.
  - apply Forall_forall. intros cells H. apply in_map_iff in H.
    destruct H as [t [<- _]]. now rewrite length_map.
Qed.
End UnstackTheorems.

Section ScriptFacts.
Context {A : Type}.
Variable pd : Pandas.
Import Script.

Lemma event_tokens_In s e ranges :
  In (s, e) ranges -> In (TPair (Some (AtTime s)) (Some (AtTime e))) (event_tokens ranges).
Proof.
  intros H. unfold event_tokens. apply in_map_iff. exists (s, e). auto.
Qed.

Lemma school_blacklist_In s e no_school half_days :
  In (s, e) (no_school ++ half_days) ->
  In (TPair (Some (AtTime s)) (Some (AtTime e)))
     (event_tokens no_school ++ event_tokens half_days ++ extra_days).
Proof.
  intros H. apply in_app_or in H. rewrite !in_app_iff.
  destruct H as [H | H]; [left | right; left]; now apply event_tokens_In.
Qed.

Lemma mem_weekdays d : Frame.mem d [0; 1; 2; 3; 4] = true -> 0 <= d <= 4.
Proof.
  intros H. apply mem_In in H. simpl in H. lia.
Qed.

Lemma event_tokens_no_value (data : Frame.t A) ranges :
  existsb (gives_value pd data) (event_tokens ranges) = false.
Proof.
  induction ranges as [| r ranges IH]; [reflexivity | exact IH].
Qed.

Lemma label_key_error (data : Frame.t A) l :
  key_error pd (Frame.index data) l = true ->
  range_token_df pd data (TLabel l) = ([not_in_range l], Ok None).
Proof.
  intros H. unfold range_token_df, getitem. rewrite H. reflexivity.
Qed.

(** X29. On energy data in increasing time order, when the two calendars
    list at least one event and none of the four extra days is answered
    with one value, the script's [df_school] is built without an error,
    and each of its rows is a row of the data from 2 September 2016 to
    16 June 2017, between 07:40 and 14:20, on a Monday to Friday, outside
    every calendar event and outside each of the four extra days whose
    lookup gives rows. *)
Theorem df_school_rows (df_energy : Frame.t A) (no_school half_days : list (Z * Z)) :
  Frame.is_monotonic_increasing (Frame.index df_energy) = true ->
  no_school ++ half_days <> [] ->
  existsb (gives_value pd df_energy) extra_days = false ->
  exists out,
    result (df_school pd df_energy no_school half_days) = Ok (Some (Frame.Rows out))
    /\ forall row,
        In row out ->
        In row df_energy
        /\ period_start day_2016_09_02 <= fst row <= period_end day_2017_06_16
        /\ hhmm 7 40 <= Frame.time_micros (fst row) <= hhmm 14 20
        /\ 0 <= Frame.weekday (fst row) <= 4
        /\ (forall s e, In (s, e) (no_school ++ half_days) -> ~ (s <= fst row <= e))
        /\ (forall l, In (TLabel l) extra_days ->
                      gives_rows pd df_energy (TLabel l) = true ->
                      ~ (period_start l <= fst row <= period_end l)).
Proof.
  intros Hinc Hne Hval.
  set (bl := event_tokens no_school ++ event_tokens half_days ++ extra_days).
  assert (Hpair : exists s e, In (s, e) (no_school ++ half_days)).
  { destruct (no_school ++ half_days) as [| [s e] rest]; [congruence |].
    exists s, e. now left. }
  destruct Hpair as [s0 [e0 H0]].
  pose proof (school_blacklist_In _ _ _ _ H0) as Hin0. fold bl in Hin0.
  assert (Hnv : existsb (gives_value pd df_energy) bl = false).
  { unfold bl. rewrite !existsb_app, !event_tokens_no_value, Hval. reflexivity. }
  assert (Hb : exists b, result (data_in_range pd df_energy (Many bl))
                         = Ok (Some (Frame.Rows b))).
  { rewrite (data_in_range_increasing pd df_energy bl Hinc). cbn [result snd].
    rewrite Hnv.
    destruct (filter (gives_rows pd df_energy) bl) as [| t ts] eqn:Ef; [| eauto].
    assert (Hf : In (TPair (Some (AtTime s0)) (Some (AtTime e0)))
                    (filter (gives_rows pd df_energy) bl))
      by (apply filter_In; split; [exact Hin0 | reflexivity]).
    rewrite Ef in Hf. destruct Hf. }
  destruct Hb as [b Hb].
  pose proof (data_in_range_rows_aux pd df_energy (Many bl) b Hinc Hb) as Hrows.
  set (span := TPair (Some (AtLabel day_2016_09_02)) (Some (AtLabel day_2017_06_16))).
  assert (Hi : result (data_in_range pd df_energy (One span))
               = Ok (Some (Frame.Rows (Frame.select (token_covers span) df_energy)))).
  { cbn [data_in_range]. unfold span, range_token_df.
    rewrite (slice_increasing pd df_energy _ _ Hinc). reflexivity. }
  eexists. split.
  - unfold df_school. rewrite time_filter_result. unfold included, excluded.
    cbn [include blacklist]. fold bl. fold span. rewrite Hi, Hb.
    cbn [after_include times]. reflexivity.
  - intros row Hrow. apply pipeline_rows in Hrow. destruct Hrow as [Hsel Hp].
    apply select_In in Hsel. destruct Hsel as [Hd Hcov].
    unfold passes in Hp. cbn [times daysofweek months times_pass days_pass months_pass] in Hp.
    rewrite !andb_true_iff in Hp. destruct Hp as [[[Hw Hdays] _] Hbl].
    apply negb_true_iff in Hbl.
    assert (Hnot : forall tok, In tok bl ->
                   gives_rows pd df_energy tok = true ->
                   token_covers tok (fst row) = false).
    { intros tok Htok Hres. destruct (token_covers tok (fst row)) eqn:Ec; auto.
      assert (Hm : Frame.mem (fst row) (Frame.index b) = true).
      { apply mem_In. unfold Frame.index. apply in_map. apply Hrows.
        split; auto. exists tok. auto. }
      congruence. }
    split; [exact Hd |]. split; [| split; [| split; [| split]]].
    + unfold span in Hcov. cbn [token_covers lower upper] in Hcov.
      apply andb_true_iff in Hcov. lia.
    + unfold in_window in Hw. cbn [fst snd] in Hw.
      assert (E : (hhmm 7 40 <=? hhmm 14 20) = true) by reflexivity.
      rewrite E in Hw. apply andb_true_iff in Hw. lia.
    + now apply mem_weekdays.
    + intros s e Hse [H1 H2].
      pose proof (Hnot _ (school_blacklist_In _ _ _ _ Hse) eq_refl) as Hc.
      cbn [token_covers lower upper] in Hc. apply andb_false_iff in Hc. lia.
    + intros l Hl Hk [H1 H2].
      assert (Hlin : In (TLabel l) bl) by (unfold bl; rewrite !in_app_iff; auto).
      pose proof (Hnot _ Hlin Hk) as Hc.
      cbn [token_covers] in Hc. apply andb_false_iff in Hc. lia.
Qed.

(** X30. With both calendars empty, [df_school] depends on the four extra
    days alone: when the lookup of each of them fails, building it raises
    [ValueError]. *)
Theorem df_school_without_calendars (df_energy : Frame.t A) :
  (forall l, In (TLabel l) extra_days -> key_error pd (Frame.index df_energy) l = true) ->
  result (df_school pd df_energy [] []) = Raise ValueError.
Proof.
  intros H. unfold df_school. rewrite time_filter_result.
  unfold included, excluded. cbn [include blacklist].
  assert (Ei : exists sel,
             result (data_in_range pd df_energy
                       (One (TPair (Some (AtLabel day_2016_09_02))
                                   (Some (AtLabel day_2017_06_16)))))
             = Ok (Some (Frame.Rows sel))).
  { cbn [data_in_range range_token_df]. unfold slice. cbn [timed orb andb].
    destruct (Frame.is_monotonic_increasing _); eexists; reflexivity. }
  destruct Ei as [sel Ei]. rewrite Ei.
  cbn [after_include times event_tokens map app].
  assert (E : result (data_in_range pd df_energy (Many extra_days))
              = Raise ValueError).
  { unfold data_in_range, extra_days. cbn [mapM].
    rewrite !label_key_error by (apply H; unfold extra_days; simpl; auto).
    reflexivity. }
  rewrite E. reflexivity.
Qed.
End ScriptFacts.

Lemma data_in_range_rows_witness :
  In (Sample.new_year_2020, 5) Sample.one_reading
  <-> In (Sample.new_year_2020, 5) Sample.one_reading
      /\ exists tok,
          In tok (tokens_of (Many [TLabel Sample.label_2021; Sample.whole_range]))
          /\ gives_rows Sample.pandas Sample.one_reading tok = true
          /\ token_covers tok (fst (Sample.new_year_2020, 5)) = true.
Proof.
  apply (data_in_range_rows Sample.pandas Sample.one_reading
           (Many [TLabel Sample.label_2021; Sample.whole_range])
           Sample.one_reading eq_refl eq_refl (Sample.new_year_2020, 5)).
Defined.

Lemma data_in_range_union_sorted_witness :
  exists out,
    result (data_in_range Sample.pandas Sample.one_reading
              (Many [TLabel Sample.label_2021; Sample.whole_range]))
    = Ok (Some (Frame.Rows out))
    /\ StronglySorted Z.le (Frame.index out)
    /\ Permutation out
         (flat_map (fun tok => Frame.select (token_covers tok) Sample.one_reading)
                   (filter (gives_rows Sample.pandas Sample.one_reading)
                           [TLabel Sample.label_2021; Sample.whole_range])).
Proof.
  apply (data_in_range_union_sorted Sample.pandas Sample.one_reading
           [TLabel Sample.label_2021; Sample.whole_range] eq_refl eq_refl eq_refl).
Defined.

Lemma data_in_range_failure_witness :
  result (data_in_range Sample.daily_series Sample.one_reading
            (Many [TLabel Sample.day_2020_01_01; Sample.whole_range]))
  = Raise TypeError.
Proof.
  apply (proj2 (proj1 (data_in_range_failure Sample.daily_series Sample.one_reading
                         (Many [TLabel Sample.day_2020_01_01; Sample.whole_range]))
                      eq_refl TypeError)).
  exists [TLabel Sample.day_2020_01_01; Sample.whole_range].
  split; [reflexivity |]. left. split; reflexivity.
Defined.

Lemma data_in_range_diagnostics_witness :
  printed (data_in_range Sample.pandas Sample.one_reading
             (Many [TLabel Sample.label_2021; Sample.whole_range]))
  = diagnostics Sample.pandas Sample.one_reading
      (tokens_of (Many [TLabel Sample.label_2021; Sample.whole_range])).
Proof.
  apply (data_in_range_diagnostics Sample.pandas Sample.one_reading
           (Many [TLabel Sample.label_2021; Sample.whole_range]) eq_refl).
Defined.

Lemma time_filter_keeps_exactly_witness :
  exists out,
    result (time_filter Sample.pandas Fixture.school_week Fixture.weekdays)
    = Ok (Some (Frame.Rows out))
    /\ forall row,
        In row out
        <-> In row Fixture.school_week
            /\ passes Fixture.weekdays None (fst row) = true.
Proof.
  apply (time_filter_keeps_exactly Sample.pandas Fixture.school_week
           Fixture.school_week Fixture.weekdays None eq_refl eq_refl).
  discriminate.
Defined.

Lemma time_filter_sorted_witness :
  StronglySorted Z.le
    (Frame.index [(1473062400000000000, 10); (1473148800000000000, 20)]).
Proof.
  apply (time_filter_sorted Sample.pandas Fixture.school_week
           [(1473062400000000000, 10); (1473148800000000000, 20)]
           Fixture.weekdays).
  - repeat constructor; discriminate.
  - reflexivity.
Defined.

Lemma time_filter_failures_witness :
  (AttributeError = IndexError /\ times Fixture.one_day_weekdays = Some (Windows []))
  \/ (AttributeError = ValueError
      /\ exists tokens,
          (include Fixture.one_day_weekdays = Some (Many tokens)
           \/ blacklist Fixture.one_day_weekdays = Some (Many tokens))
          /\ existsb (gives_value Sample.daily_series Sample.one_reading) tokens = false
          /\ existsb (gives_rows Sample.daily_series Sample.one_reading) tokens = false)
  \/ (AttributeError = TypeError
      /\ exists tokens,
          (include Fixture.one_day_weekdays = Some (Many tokens)
           \/ blacklist Fixture.one_day_weekdays = Some (Many tokens))
          /\ existsb (gives_value Sample.daily_series Sample.one_reading) tokens = true)
  \/ (AttributeError = AttributeError
      /\ exists l,
          (include Fixture.one_day_weekdays = Some (One (TLabel l))
           \/ blacklist Fixture.one_day_weekdays = Some (One (TLabel l)))
          /\ gives_rows Sample.daily_series Sample.one_reading (TLabel l) = false).
Proof.
  apply (time_filter_failures Sample.daily_series Sample.one_reading
           Fixture.one_day_weekdays AttributeError eq_refl eq_refl).
Defined.

Lemma consecutives_run_count_witness :
  List.length (Grouper.consecutives Sample.gapped 10)
  = S (gaps_above 10 (Frame.index Sample.gapped)).
Proof.
  apply (proj1 (RunTheorems.consecutives_run_count Sample.gapped 10)).
  discriminate.
Defined.

Lemma trapz_additive_across_gap_witness :
  Grouper.trapz (Fixture.morning ++ Fixture.evening) (Some 10)
  = Int64.wrap (Grouper.trapz Fixture.morning (Some 10)
                + Grouper.trapz Fixture.evening (Some 10)).
Proof.
  apply (RunTheorems.trapz_additive_across_gap Fixture.morning Fixture.evening (Some 10)).
  - discriminate.
  - discriminate.
  - reflexivity.
  - split; [reflexivity | discriminate].
Defined.

Lemma trapz_isolated_witness : Grouper.trapz Sample.gapped (Some 0) = 0.
Proof.
  apply (RunTheorems.trapz_isolated Sample.gapped (Some 0)).
  cbv. repeat split; discriminate.
Defined.

Lemma trapz_hourly_whole_witness :
  Grouper.trapz (Grouper.hourly Sample.new_year_2020 4 (Float64.of_Z 7))
                (Some Grouper.hour) = Z.of_nat 3 * 7.
Proof.
  apply (RunTheorems.trapz_hourly_whole Sample.new_year_2020 3 7 (Some Grouper.hour)).
  - apply Z.le_refl.
  - discriminate.
  - discriminate.
Defined.

Lemma intersect_aligned_witness :
  Frame.index (fst (Intersector.intersect Sample.energy Sample.temperature))
  = Frame.index (snd (Intersector.intersect Sample.energy Sample.temperature))
  /\ Frame.index (fst (Intersector.intersect Sample.energy Sample.temperature))
     = filter (fun x => Frame.mem x (Frame.index Sample.temperature))
              (Frame.index Sample.energy).
Proof.
  apply (IntersectorTheorems.intersect_aligned Sample.energy Sample.temperature).
  - repeat constructor; simpl; intuition discriminate.
  - repeat constructor; simpl; intuition discriminate.
Defined.

Lemma intersect_idempotent_witness :
  Intersector.intersect
    (fst (Intersector.intersect Sample.energy Sample.temperature))
    (snd (Intersector.intersect Sample.energy Sample.temperature))
  = Intersector.intersect Sample.energy Sample.temperature.
Proof.
  apply (IntersectorTheorems.intersect_idempotent Sample.energy Sample.temperature).
  - repeat constructor; simpl; intuition discriminate.
  - repeat constructor; simpl; intuition discriminate.
Defined.

Lemma intersect_swap_witness :
  Permutation (fst (Intersector.intersect Sample.temperature Sample.energy))
              (snd (Intersector.intersect Sample.energy Sample.temperature))
  /\ Permutation (snd (Intersector.intersect Sample.temperature Sample.energy))
                 (fst (Intersector.intersect Sample.energy Sample.temperature)).
Proof.
  apply (IntersectorTheorems.intersect_swap Sample.energy Sample.temperature).
  - repeat constructor; simpl; intuition discriminate.
  - repeat constructor; simpl; intuition discriminate.
Defined.

Lemma unstack_by_time_failure_witness :
  result (Unstack.unstack_by_time Fixture.same_microsecond) = Raise ValueError.
Proof.
  apply (proj2 (proj2 (UnstackTheorems.unstack_by_time_failure Fixture.same_microsecond))).
  intros H. inversion H as [| ? ? Hin _]; subst. apply Hin. left. reflexivity.
Defined.

Lemma unstack_by_time_cells_witness :
  Unstack.cell Fixture.two_days_table 3600000000 0 = Some 2
  <-> exists ts, In (ts, 2) Fixture.two_days /\ Unstack.key ts = (3600000000, 0).
Proof.
  apply (UnstackTheorems.unstack_by_time_cells Fixture.two_days
           Fixture.two_days_table 3600000000 0 2).
  reflexivity.
Defined.

Lemma unstack_by_time_shape_witness :
  StronglySorted Z.lt (Unstack.table_index Fixture.two_days_table)
  /\ StronglySorted Z.lt (Unstack.table_columns Fixture.two_days_table)
  /\ (forall t, In t (Unstack.table_index Fixture.two_days_table)
                <-> exists ts, In ts (Frame.index Fixture.two_days)
                               /\ Frame.time_micros ts = t)
  /\ (forall d, In d (Unstack.table_columns Fixture.two_days_table)
                <-> exists ts, In ts (Frame.index Fixture.two_days)
                               /\ Frame.days_since_epoch ts = d)
  /\ List.length (Unstack.table_cells Fixture.two_days_table)
     = List.length (Unstack.table_index Fixture.two_days_table)
  /\ Forall (fun cells => List.length cells
                          = List.length (Unstack.table_columns Fixture.two_days_table))
            (Unstack.table_cells Fixture.two_days_table).
Proof.
  apply (UnstackTheorems.unstack_by_time_shape Fixture.two_days Fixture.two_days_table).
  reflexivity.
Defined.

Lemma df_school_rows_witness :
  exists out,
    result (Script.df_school Sample.pandas Fixture.school_week Fixture.labor_day [])
    = Ok (Some (Frame.Rows out))
    /\ forall row,
        In row out ->
        In row Fixture.school_week
        /\ period_start Script.day_2016_09_02 <= fst row
           <= period_end Script.day_2017_06_16
        /\ hhmm 7 40 <= Frame.time_micros (fst row) <= hhmm 14 20
        /\ 0 <= Frame.weekday (fst row) <= 4
        /\ (forall s e, In (s, e) (Fixture.labor_day ++ []) -> ~ (s <= fst row <= e))
        /\ (forall l, In (TLabel l) Script.extra_days ->
                      gives_rows Sample.pandas Fixture.school_week (TLabel l) = true ->
                      ~ (period_start l <= fst row <= period_end l)).
Proof.
  apply (df_school_rows Sample.pandas Fixture.school_week Fixture.labor_day []
           eq_refl).
  - discriminate.
  - reflexivity.
Defined.

Lemma df_school_without_calendars_witness :
  result (Script.df_school Sample.pandas Sample.one_reading [] []) = Raise ValueError.
Proof.
  apply (df_school_without_calendars Sample.pandas Sample.one_reading).
  intros l [E | [E | [E | [E | []]]]]; inversion E; reflexivity.
Defined.

Module FitWitnesses.
Import LogNormal LogNormalFacts FitTheorems QuantileFacts QuantileTheorems
       SortFacts AdjustFacts AdjustTheorems FitSamples Variation.
Local Open Scope R_scope.

Lemma readings_result :
  result (lognorm_params Sample.flat_kde Sample.lower_bound Sample.readings)
  = Ok (Fin (1.4826 * 1), 0%Z, Fin (exp (real_min [0; 1; 2]))).
Proof. now rewrite readings_fit. Qed.

Lemma lognorm_params_ranges_witness :
  exists s, Fin (1.4826 * 1) = Fin s /\ 0 <= s.
Proof.
  apply (proj2 (proj2 (proj2
           (FitExtras.lognorm_params_ranges
              Sample.flat_kde Sample.lower_bound Sample.readings
              (Fin (1.4826 * 1)) 0%Z (Fin (exp (real_min [0; 1; 2])))
              readings_result)))).
  - discriminate.
  - apply readings_not_negative.
Defined.

Lemma adjust_sample_values_witness :
  exists adjusted,
    result (adjust_sample Sample.flat_kde Sample.lower_bound Sample.centred
                          Sample.readings 1) = Ok adjusted
    /\ StronglySorted Z.le (Frame.index adjusted)
    /\ Permutation (Frame.index adjusted) (Frame.index Sample.readings)
    /\ Permutation (Frame.values adjusted)
         (map (fun i => lognorm_ppf Sample.centred
                          (rank_quantile (List.length Sample.readings) 1 i)
                          (Fin (1.4826 * 1), 0%Z, Fin (exp (real_min [0; 1; 2]))))
              (seq 0 (List.length Sample.readings))).
Proof.
  apply (AdjustExtras.adjust_sample_values
           Sample.flat_kde Sample.lower_bound Sample.centred Sample.readings 1%Z
           (Fin (1.4826 * 1), 0%Z, Fin (exp (real_min [0; 1; 2])))).
  - simpl. lia.
  - exact readings_result.
Defined.

Lemma adjust_sample_outcome_witness :
  exists adjusted,
    result (adjust_sample Sample.flat_kde Sample.lower_bound Sample.centred
                          Sample.readings 1) = Ok adjusted
    /\ List.length adjusted = List.length Sample.readings.
Proof.
  apply (proj2 (proj2 (AdjustExtras.adjust_sample_outcome
                         Sample.flat_kde Sample.lower_bound Sample.centred
                         Sample.readings 1%Z)
                      (Fin (1.4826 * 1), 0%Z, Fin (exp (real_min [0; 1; 2])))
                      readings_result)).
  simpl. lia.
Defined.

Lemma adjust_sample_buffer_zero_witness :
  exists adjusted lowest highest,
    result (adjust_sample Sample.flat_kde Sample.lower_bound Sample.centred
                          Sample.readings 0) = Ok adjusted
    /\ In lowest Sample.readings
    /\ (forall r, In r Sample.readings -> snd lowest <= snd r)
    /\ In highest Sample.readings
    /\ (forall r, In r Sample.readings -> snd r <= snd highest)
    /\ In (fst lowest, Fin (IZR 0)) adjusted
    /\ In (fst highest, PosInf) adjusted.
Proof.
  apply (AdjustExtras.adjust_sample_buffer_zero
           Sample.flat_kde Sample.lower_bound Sample.centred Sample.readings
           (1.4826 * 1) 0%Z (exp (real_min [0; 1; 2]))).
  - simpl. lia.
  - exact readings_result.
  - lra.
  - apply exp_pos.
Defined.
End FitWitnesses.
